(** * DevContainer configuration engine: template selection, prompt analysis
    and configuration merging

  A shallow embedding of [src/template-manager.ts] (the template catalog and
  [findBestMatch]) and of [src/config-generator.ts] ([analyzePrompt],
  [generateConfig], [applyModifications], [modifyConfiguration]).

  Modelling conventions.
  - A JavaScript string is a [string] of 8-bit code units (the Latin-1 range
    of UTF-16 code units).
  - A JavaScript number is an integer of [Z] (every number the engine
    computes with is a port or a score) or, in a document, one of the numbers
    that are no integers: negative zero, a fraction, an infinity, [NaN].
  - A JavaScript object is an association list in insertion order; assigning
    to a property that exists keeps its position, assigning to a new one
    appends it.
  - A thrown exception is the [Throw] outcome of the [result] monad.
  - The disk is a map from paths to files. Whether it lets a directory be
    made, a file be read or a file be written is not the engine's matter:
    the operations on the disk are given these answers as parameters.
  - Where sharing matters ([generateConfig] and the template objects of the
    catalog), objects are cells of a heap, held by reference and changed in
    place (module [Heap]). *)

From Stdlib Require Import ZArith Ascii String.
From stdpp Require Import base numbers option list strings pretty gmap sorting.

Local Open Scope string_scope.
Local Open Scope Z_scope.
Local Open Scope list_scope.

(* ===================================================================== *)
(** ** JavaScript strings *)
(* ===================================================================== *)

Module Js.

Definition code (c : ascii) : N := N_of_ascii c.

Definition in_range (lo hi : N) (c : ascii) : bool :=
  ((lo <=? code c) && (code c <=? hi))%N.

(** [String.prototype.toLowerCase] on one code unit below 256: the ASCII
    capitals and the Latin-1 capitals U+00C0..U+00DE (U+00D7, the
    multiplication sign, apart) move up by 32. *)
Definition lower_char (c : ascii) : ascii :=
  if in_range 65 90 c then ascii_of_N (code c + 32)
  else if in_range 192 222 c && negb (code c =? 215)%N
       then ascii_of_N (code c + 32)
       else c.

Fixpoint toLowerCase (s : string) : string :=
  match s with
  | EmptyString => EmptyString
  | String c s' => String (lower_char c) (toLowerCase s')
  end.

(** [toUpperCase] on one code unit, for the letters whose capital is again
    below 256 (a-z and U+00E0..U+00FE without the division sign). The three
    Latin-1 letters whose capital lies elsewhere (U+00B5, U+00DF, U+00FF) are
    left as they are; no tag of the engine's tables contains them. *)
Definition upper_char (c : ascii) : ascii :=
  if in_range 97 122 c then ascii_of_N (code c - 32)
  else if in_range 224 254 c && negb (code c =? 247)%N
       then ascii_of_N (code c - 32)
       else c.

(** [t.charAt(0).toUpperCase() + t.slice(1)] *)
Definition capitalize (t : string) : string :=
  match t with
  | EmptyString => EmptyString
  | String c t' => String (upper_char c) t'
  end.

(** The double quote, for string literals of the source that contain it. *)
Definition dquote : string := String "034" EmptyString.

(** [Array.prototype.join] *)
Fixpoint join (sep : string) (l : list string) : string :=
  match l with
  | [] => ""
  | [x] => x
  | x :: l' => x +:+ sep +:+ join sep l'
  end.

(** [Array.prototype.includes] on an array of strings. *)
Definition includes (l : list string) (x : string) : bool :=
  existsb (String.eqb x) l.

(** [new Set(iterable)] keeps the first occurrence of every element, in
  insertion order; [eqb] is the set's equality (SameValueZero). [new_Set eqb l]
  is the array [[...new Set(l)]]. *)
Fixpoint set_add_all {A} (eqb : A -> A -> bool) (set l : list A) : list A :=
  match l with
  | [] => set
  | x :: l' =>
      set_add_all eqb (if existsb (eqb x) set then set else set ++ [x]) l'
  end.

Definition new_Set {A} (eqb : A -> A -> bool) (l : list A) : list A :=
  set_add_all eqb [] l.

(** Character classes of regular expressions without the [u] flag. *)
Definition is_digit (c : ascii) : bool := in_range 48 57 c.

Definition is_word (c : ascii) : bool :=
  is_digit c || in_range 65 90 c || in_range 97 122 c || (code c =? 95)%N.

(** [\s] below 256: tab, line feed, vertical tab, form feed, carriage return,
  space and the no-break space. *)
Definition is_space (c : ascii) : bool :=
  in_range 9 13 c || (code c =? 32)%N || (code c =? 160)%N.

Definition digit_value (c : ascii) : Z := Z.of_N (code c) - 48.

(** The value of a run of digits read after [acc]. *)
Fixpoint digits_value (acc : Z) (s : string) : Z :=
  match s with
  | String c s' => if is_digit c then digits_value (10 * acc + digit_value c) s' else acc
  | EmptyString => acc
  end.

Fixpoint skip_spaces (s : string) : string :=
  match s with
  | String c s' => if is_space c then skip_spaces s' else s
  | EmptyString => s
  end.

(** [parseInt(s, 10)]: leading white space, an optional sign, then the longest
  run of digits; [None] is [NaN] (no digit). *)
Definition parseInt (s : string) : option Z :=
  let digits (t : string) : option Z :=
    match t with
    | String c _ => if is_digit c then Some (digits_value 0 t) else None
    | EmptyString => None
    end in
  match skip_spaces s with
  | String "-" t => Z.opp <$> digits t
  | String "+" t => digits t
  | t => digits t
  end.

(** [s.replace(/\D/g, '')] *)
Fixpoint remove_nondigits (s : string) : string :=
  match s with
  | String c s' => if is_digit c then String c (remove_nondigits s') else remove_nondigits s'
  | EmptyString => EmptyString
  end.

(** [Array.prototype.sort] without a comparator, on an array of strings:
  ascending in the order of their code units, a prefix before its
  extensions. *)
Definition precedes (a b : string) : Prop := String.leb a b = true.

#[global] Instance precedes_dec : RelDecision precedes :=
  fun a b => decide (String.leb a b = true).

Definition sort (l : list string) : list string := merge_sort precedes l.

End Js.

(* ===================================================================== *)
(** ** Regular expressions *)
(* ===================================================================== *)

(** The fragment of JavaScript's regular expressions the engine's patterns are
  written in, with the backtracking semantics of the language: alternatives are
  tried left to right, quantifiers are greedy. *)
Module RegExp.

Inductive regex : Type :=
| Chr (p : ascii -> bool)                      (* one code unit of a class *)
| Eps                                          (* the empty pattern *)
| Seq (r1 r2 : regex)
| Alt (r1 r2 : regex)                          (* r1|r2 *)
| Opt (r : regex)                              (* r? *)
| Rep (p : ascii -> bool) (min : nat) (max : option nat)  (* c{min,max}; c+ is c{1,} *)
| WordBoundary.                                (* \b *)

(** The subject of a match, as the list of its code units. *)
Definition subject : Type := list ascii.

Definition is_word_at (c : option ascii) : bool :=
  match c with
  | Some c => Js.is_word c
  | None => false
  end.

(** A position in the subject is the code unit before it ([None] at the start)
  and the rest of the subject; a continuation [k] receives the position after
  the pattern and answers with the rest of the subject after the whole match. *)
Definition cont : Type := option ascii -> subject -> option subject.

(** Greedy repetition of a class: one more code unit first, and the
  continuation at this position only when that fails. *)
Fixpoint rep (p : ascii -> bool) (min : nat) (max : option nat)
    (prev : option ascii) (s : subject) (k : cont) {struct s} : option subject :=
  let stop := match min with O => k prev s | S _ => None end in
  match s with
  | c :: s' =>
      if p c && match max with Some O => false | _ => true end
      then match rep p (Nat.pred min) (Nat.pred <$> max) (Some c) s' k with
           | Some r => Some r
           | None => stop
           end
      else stop
  | [] => stop
  end.

Fixpoint exec (r : regex) (prev : option ascii) (s : subject) (k : cont) : option subject :=
  match r with
  | Chr p =>
      match s with
      | c :: s' => if p c then k (Some c) s' else None
      | [] => None
      end
  | Eps => k prev s
  | Seq r1 r2 => exec r1 prev s (fun prev' s' => exec r2 prev' s' k)
  | Alt r1 r2 =>
      match exec r1 prev s k with
      | Some r => Some r
      | None => exec r2 prev s k
      end
  | Opt r =>
      match exec r prev s k with
      | Some r => Some r
      | None => k prev s
      end
  | Rep p min max => rep p min max prev s k
  | WordBoundary =>
      if xorb (is_word_at prev) (is_word_at (head s)) then k prev s else None
  end.

(** The match of [r] that starts at this position, as the rest of the subject
  after it. *)
Definition match_at (r : regex) (prev : option ascii) (s : subject) : option subject :=
  exec r prev s (fun _ rest => Some rest).

(** [RegExp.prototype.test] of a pattern without the [g] flag: is there a
  match at some position, searched left to right. *)
Fixpoint test_from (r : regex) (prev : option ascii) (s : subject) : bool :=
  match match_at r prev s with
  | Some _ => true
  | None =>
      match s with
      | c :: s' => test_from r (Some c) s'
      | [] => false
      end
  end.

Definition test (r : regex) (s : string) : bool :=
  test_from r None (list_ascii_of_string s).

(** [String.prototype.match] with a [g] pattern: the matched substrings, left to
  right, each search starting where the last match ended (one further after an
  empty match). [skip] counts the code units of the last match still to pass. *)
Fixpoint match_all_from (r : regex) (prev : option ascii) (s : subject)
    (skip : nat) {struct s} : list subject :=
  let next (skip : nat) : list subject :=
    match s with
    | c :: s' => match_all_from r (Some c) s' skip
    | [] => []
    end in
  match skip with
  | S n => next n
  | O =>
      match match_at r prev s with
      | Some rest =>
          let m := take (length s - length rest) s in
          m :: next (Nat.pred (length m))
      | None => next O
      end
  end.

(** [s.match(r) || []] *)
Definition match_all (r : regex) (s : string) : list string :=
  string_of_list_ascii <$> match_all_from r None (list_ascii_of_string s) 0.

(** Pattern builders. *)
Definition chr (c : ascii) : regex := Chr (Ascii.eqb c).

(** A letter under the [i] flag: either case. *)
Definition chr_i (c : ascii) : regex :=
  Chr (fun x => Ascii.eqb (Js.lower_char x) (Js.lower_char c)).

Fixpoint str (s : string) : regex :=
  match s with
  | EmptyString => Eps
  | String c EmptyString => chr c
  | String c s' => Seq (chr c) (str s')
  end.

Fixpoint str_i (s : string) : regex :=
  match s with
  | EmptyString => Eps
  | String c EmptyString => chr_i c
  | String c s' => Seq (chr_i c) (str_i s')
  end.

Fixpoint alt (l : list regex) : regex :=
  match l with
  | [] => Eps
  | [r] => r
  | r :: l' => Alt r (alt l')
  end.

(** [\b(...)\b] *)
Definition word (r : regex) : regex := Seq WordBoundary (Seq r WordBoundary).

Definition words (l : list string) : regex := word (alt (str <$> l)).

End RegExp.

(* ===================================================================== *)
(** ** Values held by a configuration document *)
(* ===================================================================== *)

(** The numbers that are no integers: negative zero, the fractions (a
  number of JavaScript that is finite and no integer is [(2k + 1) / 2^e]
  for exactly one [k] and one [e > 0]), the two infinities ([JSON.parse]
  reads [1e999] as [Infinity]) and [NaN]. *)
Inductive nonint : Type :=
| NegZero
| Fraction (k : Z) (e : positive)
| Infinity (negative : bool)
| NaN.

(** Of these numbers [-0] and [NaN] are falsy. *)
Definition nonint_truthy (x : nonint) : bool :=
  match x with
  | Fraction _ _ | Infinity _ => true
  | NegZero | NaN => false
  end.

(** The values a [Record<string, unknown>] read by [JSON.parse] or written as
  an object literal holds. A number is an integer ([VNum], [0] being the
  positive zero) or one of the others ([VNonInt]). An array is an object too:
  it carries, besides its items, the named properties that were assigned to
  it ([expando]). *)
#[warnings="-register-all"]
Inductive value : Type :=
| VNull
| VBool (b : bool)
| VNum (n : Z)
| VStr (s : string)
| VArr (items : list value) (expando : list (string * value))
| VObj (props : list (string * value))
| VNonInt (x : nonint).

(** An array literal and the empty object literal [{}]. *)
Definition VArray (items : list value) : value := VArr items [].
Definition VEmpty : value := VObj [].

(** Thrown exceptions: [new Error(message)] and the engine's own
  [TypeError]s. *)
Inductive exn : Type :=
| Error (message : string)
| TypeError.

Inductive result (A : Type) : Type :=
| Ok (a : A)
| Throw (e : exn).
Arguments Ok {A} a.
Arguments Throw {A} e.

#[global] Instance result_ret : MRet result := λ A, Ok.
#[global] Instance result_bind : MBind result := λ A B f m,
match m with
| Ok a => f a
| Throw e => Throw e
end.

(* ===================================================================== *)
(** ** Objects, properties and JSON copies *)
(* ===================================================================== *)

Module Obj.

(** [!v]: [null], [false], [0], [-0], [NaN] and the empty string are falsy. *)
Definition truthy (v : value) : bool :=
  match v with
  | VNull => false
  | VBool b => b
  | VNum n => negb (n =? 0)
  | VStr s => negb (String.eqb s "")
  | VArr _ _ | VObj _ => true
  | VNonInt x => nonint_truthy x
  end.

(** Truthiness of a property read; [None] is [undefined]. *)
Definition truthy_opt (v : option value) : bool :=
  match v with
  | Some v => truthy v
  | None => false
  end.

(** The own properties of an object, in insertion order: reading one, and
  assigning to one (in place where it exists, at the end where it is new). *)
Fixpoint prop_get {V} (k : string) (props : list (string * V)) : option V :=
  match props with
  | [] => None
  | (k', v) :: props' => if String.eqb k k' then Some v else prop_get k props'
  end.

Fixpoint prop_set {V} (k : string) (x : V) (props : list (string * V))
    : list (string * V) :=
  match props with
  | [] => [(k, x)]
  | (k', v) :: props' =>
      if String.eqb k k' then (k, x) :: props' else (k', v) :: prop_set k x props'
  end.

(** The read [o.k], for the property names of the engine (none is an array
  index, [length] or a method of a prototype): [undefined] on a primitive, a
  [TypeError] on [null]. *)
Definition get (o : value) (k : string) : result (option value) :=
  match o with
  | VObj props => Ok (prop_get k props)
  | VArr _ expando => Ok (prop_get k expando)
  | VNull => Throw TypeError
  | VBool _ | VNum _ | VStr _ | VNonInt _ => Ok None
  end.

(** The assignment [o.k = x], returning [o] as it is afterwards. The engine's
  methods are class bodies, hence strict code: assigning to a property of a
  primitive throws. *)
Definition set (o : value) (k : string) (x : value) : result value :=
  match o with
  | VObj props => Ok (VObj (prop_set k x props))
  | VArr items expando => Ok (VArr items (prop_set k x expando))
  | VNull | VBool _ | VNum _ | VStr _ | VNonInt _ => Throw TypeError
  end.

(** [if (!o.k) { o.k = dflt; }] *)
Definition ensure (o : value) (k : string) (dflt : value) : result value :=
  v ← get o k;
  if truthy_opt v then Ok o else set o k dflt.

(** Statements that work on the object [o.k]: they change it in place, so the
  model stores the changed object back under [k]. *)
Definition within (o : value) (k : string) (f : value -> result value) : result value :=
  v ← get o k;
  match v with
  | Some v => v' ← f v; set o k v'
  | None => Throw TypeError
  end.

(** [x || []] *)
Definition or_empty (x : option value) : value :=
  match x with
  | Some v => if truthy v then v else VArray []
  | None => VArray []
  end.

(** The spread [...x] inside an array literal: the items of an array, the code
  units of a string; other values are not iterable. *)
Definition spread (x : value) : result (list value) :=
  match x with
  | VArr items _ => Ok items
  | VStr s => Ok ((fun c => VStr (String c EmptyString)) <$> list_ascii_of_string s)
  | VNull | VBool _ | VNum _ | VObj _ | VNonInt _ => Throw TypeError
  end.

(** Two numbers that are no integers are the same number. *)
Definition nonint_eqb (x y : nonint) : bool :=
  match x, y with
  | NegZero, NegZero => true
  | Fraction k e, Fraction k' e' => (k =? k') && Pos.eqb e e'
  | Infinity s, Infinity s' => Bool.eqb s s'
  | NaN, NaN => true
  | _, _ => false
  end.

(** SameValueZero, the equality of [Set]: primitives by value, the two zeros
  being the same and [NaN] the same as itself. The arrays and objects of one
  freshly parsed document are pairwise distinct references. *)
Definition same_value_zero (a b : value) : bool :=
  match a, b with
  | VNull, VNull => true
  | VBool x, VBool y => Bool.eqb x y
  | VNum x, VNum y => x =? y
  | VNum x, VNonInt NegZero => x =? 0
  | VNonInt NegZero, VNum y => y =? 0
  | VNonInt x, VNonInt y => nonint_eqb x y
  | VStr x, VStr y => String.eqb x y
  | _, _ => false
  end.

(** [[...new Set([...existing, ...added])]] *)
Definition union (existing added : list value) : value :=
  VArray (Js.new_Set same_value_zero (existing ++ added)).

(** [JSON.parse(JSON.stringify(v))]: a copy of the items and properties that
  JSON text carries; the named properties of an array are not written,
  [-0] is written as [0], and a number that is not finite as [null]. *)
Fixpoint json_copy (v : value) : value :=
  match v with
  | VArr items _ => VArr (json_copy <$> items) []
  | VObj props => VObj ((fun kv => (fst kv, json_copy (snd kv))) <$> props)
  | VNonInt NegZero => VNum 0
  | VNonInt (Infinity _) | VNonInt NaN => VNull
  | VNonInt (Fraction _ _) => v
  | VNull | VBool _ | VNum _ | VStr _ => v
  end.

(** The values that JSON text carries as they are, those that
  [JSON.parse(JSON.stringify(v))] gives back unchanged: no array has named
  properties, and no number is [-0] or not finite. *)
Fixpoint is_json (v : value) : bool :=
  match v with
  | VArr items expando =>
      forallb is_json items && match expando with [] => true | _ => false end
  | VObj props => forallb (fun kv => is_json (snd kv)) props
  | VNonInt (Fraction _ _) => true
  | VNonInt _ => false
  | VNull | VBool _ | VNum _ | VStr _ => true
  end.

End Obj.

(* ===================================================================== *)
(** ** The template catalog and the selector ([template-manager.ts]) *)
(* ===================================================================== *)

Module TemplateManager.

Record DevContainerTemplate : Type := {
  name : string;
  description : string;
  languages : list string;
  frameworks : list string;
  features : list string;
  category : string;
  config : value
}.

(** One feature of an object literal, [id: { version: v }]. *)
Definition versioned (id v : string) : string * value :=
  (id, VObj [("version", VStr v)]).

Definition vscode_extensions (exts : list string) : value :=
  VObj [("vscode", VObj [("extensions", VArray (VStr <$> exts))])].

Definition ports (l : list Z) : value := VArray (VNum <$> l).

Definition nodejs_typescript : DevContainerTemplate := {|
  name := "nodejs-typescript";
  description := "Node.js development with TypeScript support";
  languages := ["javascript"; "typescript"];
  frameworks := ["node"; "express"];
  features := ["Node.js"; "TypeScript"; "ESLint"; "Prettier"];
  category := "backend";
  config := VObj [
    ("name", VStr "Node.js & TypeScript Development");
    ("image", VStr "mcr.microsoft.com/devcontainers/typescript-node:18");
    ("features", VObj [versioned "ghcr.io/devcontainers/features/node:1" "18"]);
    ("customizations", vscode_extensions [
       "ms-vscode.vscode-typescript-next"; "ms-vscode.vscode-eslint";
       "esbenp.prettier-vscode"; "ms-vscode.vscode-json"]);
    ("forwardPorts", ports [3000]);
    ("postCreateCommand", VStr "npm install");
    ("remoteUser", VStr "node")]
|}.

Definition python : DevContainerTemplate := {|
  name := "python";
  description := "Python development with common packages and debugging";
  languages := ["python"];
  frameworks := ["django"; "flask"; "fastapi"];
  features := ["Python"; "pip"; "pytest"; "Black"];
  category := "backend";
  config := VObj [
    ("name", VStr "Python Development");
    ("image", VStr "mcr.microsoft.com/devcontainers/python:3.11");
    ("features", VObj [versioned "ghcr.io/devcontainers/features/python:1" "3.11"]);
    ("customizations", vscode_extensions [
       "ms-python.python"; "ms-python.pylint";
       "ms-python.black-formatter"; "ms-python.isort"]);
    ("forwardPorts", ports [8000]);
    ("postCreateCommand", VStr "pip install -r requirements.txt");
    ("remoteUser", VStr "vscode")]
|}.

Definition go : DevContainerTemplate := {|
  name := "go";
  description := "Go development with standard tooling";
  languages := ["go"];
  frameworks := ["gin"; "fiber"; "echo"];
  features := ["Go"; "go mod"; "gofmt"; "gopls"];
  category := "backend";
  config := VObj [
    ("name", VStr "Go Development");
    ("image", VStr "mcr.microsoft.com/devcontainers/go:1.21");
    ("features", VObj [versioned "ghcr.io/devcontainers/features/go:1" "1.21"]);
    ("customizations", vscode_extensions ["golang.go"; "ms-vscode.vscode-json"]);
    ("forwardPorts", ports [8080]);
    ("postCreateCommand", VStr "go mod download");
    ("remoteUser", VStr "vscode")]
|}.

Definition rust : DevContainerTemplate := {|
  name := "rust";
  description := "Rust environment with Cargo and debugging";
  languages := ["rust"];
  frameworks := ["actix"; "rocket"; "warp"];
  features := ["Rust"; "Cargo"; "rustfmt"; "clippy"];
  category := "backend";
  config := VObj [
    ("name", VStr "Rust Development");
    ("image", VStr "mcr.microsoft.com/devcontainers/rust:1");
    ("features", VObj [versioned "ghcr.io/devcontainers/features/rust:1" "latest"]);
    ("customizations", vscode_extensions ["rust-lang.rust-analyzer"; "vadimcn.vscode-lldb"]);
    ("forwardPorts", ports [8000]);
    ("postCreateCommand", VStr "cargo build");
    ("remoteUser", VStr "vscode")]
|}.

Definition java : DevContainerTemplate := {|
  name := "java";
  description := "Java with Maven/Gradle support";
  languages := ["java"];
  frameworks := ["spring"; "springboot"; "maven"; "gradle"];
  features := ["Java"; "Maven"; "Gradle"; "JUnit"];
  category := "backend";
  config := VObj [
    ("name", VStr "Java Development");
    ("image", VStr "mcr.microsoft.com/devcontainers/java:17");
    ("features", VObj [
       ("ghcr.io/devcontainers/features/java:1",
        VObj [("version", VStr "17");
              ("installMaven", VBool true);
              ("installGradle", VBool true)])]);
    ("customizations", vscode_extensions ["vscjava.vscode-java-pack"; "vmware.vscode-spring-boot"]);
    ("forwardPorts", ports [8080]);
    ("postCreateCommand", VStr "mvn dependency:resolve");
    ("remoteUser", VStr "vscode")]
|}.

Definition php : DevContainerTemplate := {|
  name := "php";
  description := "PHP with Composer and debugging";
  languages := ["php"];
  frameworks := ["laravel"; "symfony"; "codeigniter"];
  features := ["PHP"; "Composer"; "Xdebug"];
  category := "backend";
  config := VObj [
    ("name", VStr "PHP Development");
    ("image", VStr "mcr.microsoft.com/devcontainers/php:8.2");
    ("features", VObj [versioned "ghcr.io/devcontainers/features/php:1" "8.2"]);
    ("customizations", vscode_extensions ["bmewburn.vscode-intelephense-client"; "xdebug.php-debug"]);
    ("forwardPorts", ports [8000]);
    ("postCreateCommand", VStr "composer install");
    ("remoteUser", VStr "vscode")]
|}.

Definition ruby : DevContainerTemplate := {|
  name := "ruby";
  description := "Ruby with Rails support";
  languages := ["ruby"];
  frameworks := ["rails"; "sinatra"];
  features := ["Ruby"; "Rails"; "Bundler"; "RSpec"];
  category := "backend";
  config := VObj [
    ("name", VStr "Ruby Development");
    ("image", VStr "mcr.microsoft.com/devcontainers/ruby:3.2");
    ("features", VObj [versioned "ghcr.io/devcontainers/features/ruby:1" "3.2"]);
    ("customizations", vscode_extensions ["rebornix.ruby"; "wingrunr21.vscode-ruby"]);
    ("forwardPorts", ports [3000]);
    ("postCreateCommand", VStr "bundle install");
    ("remoteUser", VStr "vscode")]
|}.

Definition react : DevContainerTemplate := {|
  name := "react";
  description := "Modern React development stack";
  languages := ["javascript"; "typescript"];
  frameworks := ["react"; "next"; "vite"];
  features := ["React"; "TypeScript"; "Vite"; "ESLint"];
  category := "frontend";
  config := VObj [
    ("name", VStr "React Development");
    ("image", VStr "mcr.microsoft.com/devcontainers/typescript-node:18");
    ("features", VObj [versioned "ghcr.io/devcontainers/features/node:1" "18"]);
    ("customizations", vscode_extensions [
       "ms-vscode.vscode-typescript-next"; "bradlc.vscode-tailwindcss";
       "esbenp.prettier-vscode"; "ms-vscode.vscode-eslint";
       "ms-vscode.vscode-json"]);
    ("forwardPorts", ports [3000; 5173]);
    ("postCreateCommand", VStr "npm install");
    ("remoteUser", VStr "node")]
|}.

Definition mean_stack : DevContainerTemplate := {|
  name := "mean-stack";
  description := "MongoDB, Express, Angular, Node.js stack";
  languages := ["javascript"; "typescript"];
  frameworks := ["angular"; "express"; "mongodb"];
  features := ["Node.js"; "Angular"; "MongoDB"; "Express"];
  category := "fullstack";
  config := VObj [
    ("name", VStr "MEAN Stack Development");
    ("dockerComposeFile", VStr "docker-compose.yml");
    ("service", VStr "app");
    ("workspaceFolder", VStr "/workspace");
    ("features", VObj [versioned "ghcr.io/devcontainers/features/node:1" "18"]);
    ("customizations", vscode_extensions [
       "ms-vscode.vscode-typescript-next"; "angular.ng-template";
       "mongodb.mongodb-vscode"]);
    ("forwardPorts", ports [4200; 3000; 27017]);
    ("postCreateCommand", VStr "npm install")]
|}.

Definition docker_compose : DevContainerTemplate := {|
  name := "docker-compose";
  description := "Multi-service development with Docker Compose";
  languages := ["javascript"; "python"; "go"];
  frameworks := ["microservices"; "docker"];
  features := ["Docker"; "Docker Compose"; "Multi-service"];
  category := "fullstack";
  config := VObj [
    ("name", VStr "Docker Compose Development");
    ("dockerComposeFile", VStr "docker-compose.yml");
    ("service", VStr "app");
    ("workspaceFolder", VStr "/workspace");
    ("shutdownAction", VStr "stopCompose");
    ("customizations", vscode_extensions [
       "ms-azuretools.vscode-docker"; "ms-vscode-remote.remote-containers"]);
    ("forwardPorts", ports [3000; 8000; 5432]);
    ("postCreateCommand", VStr ("echo " +:+ Js.dquote +:+ "Multi-service environment ready" +:+ Js.dquote))]
|}.

Definition universal : DevContainerTemplate := {|
  name := "universal";
  description := "Multi-language development environment";
  languages := ["javascript"; "python"; "go"; "rust"; "java"];
  frameworks := ["universal"];
  features := ["Multiple Languages"; "Git"; "Docker"; "SSH"];
  category := "universal";
  config := VObj [
    ("name", VStr "Universal Development Environment");
    ("image", VStr "mcr.microsoft.com/devcontainers/universal:2");
    ("features", VObj [
       ("ghcr.io/devcontainers/features/docker-in-docker:2", VEmpty);
       ("ghcr.io/devcontainers/features/git:1", VEmpty);
       ("ghcr.io/devcontainers/features/github-cli:1", VEmpty)]);
    ("customizations", vscode_extensions [
       "ms-vscode.vscode-json"; "ms-azuretools.vscode-docker";
       "github.vscode-pull-request-github"]);
    ("forwardPorts", ports [3000; 8000; 8080]);
    ("postCreateCommand", VStr ("echo " +:+ Js.dquote +:+ "Universal environment ready" +:+ Js.dquote));
    ("remoteUser", VStr "codespace")]
|}.

(** [private templates: DevContainerTemplate[]], in the order of the source. *)
Definition templates : list DevContainerTemplate :=
  [nodejs_typescript; python; go; rust; java; php; ruby; react;
   mean_stack; docker_compose; universal].

(** The two inner loops: the score of one template for the detected languages
  and frameworks, before the penalty of the universal template. *)
Definition raw_score (template : DevContainerTemplate) (langs fws : list string) : Z :=
  let score := 0 in
  let score :=
    fold_left (fun score lang =>
                 if Js.includes (languages template) (Js.toLowerCase lang)
                 then score + 10 else score) langs score in
  fold_left (fun score framework =>
               if Js.includes (frameworks template) (Js.toLowerCase framework)
               then score + 5 else score) fws score.

(** The body of the outer loop up to the comparison. *)
Definition score (template : DevContainerTemplate) (langs fws : list string) : Z :=
  let score := raw_score template langs fws in
  (* Prefer specific templates over universal *)
  if String.eqb (name template) "universal" then score - 1 else score.

(** The loop state: [bestMatch] ([None] is [null]) and [bestScore]. *)
Definition best : Type := option DevContainerTemplate * Z.

Definition consider (langs fws : list string) (st : best)
    (template : DevContainerTemplate) : best :=
  let score := score template langs fws in
  if snd st <? score then (Some template, score) else st.

(** [findBestMatch] over a given [templates] array. *)
Definition findBestMatch_in (templates : list DevContainerTemplate)
    (langs fws : list string) : option DevContainerTemplate :=
  let st := fold_left (consider langs fws) templates (None, 0) in
  if snd st =? 0
  then List.find (fun t => String.eqb (name t) "universal") templates
  else fst st.

Definition findBestMatch (langs fws : list string) : option DevContainerTemplate :=
  findBestMatch_in templates langs fws.

(** [getTemplate(name)] *)
Definition getTemplate (n : string) : option DevContainerTemplate :=
  List.find (fun t => String.eqb (name t) n) templates.

(** [interface TemplateFilter]: each criterion may be missing. *)
Module TemplateFilter.

Record t : Type := {
  category : option string;
  language : option string;
  framework : option string
}.

End TemplateFilter.

(** [getAllTemplates()]: a new array of the templates. *)
Definition getAllTemplates_in (templates : list DevContainerTemplate)
    : list DevContainerTemplate :=
  templates.

Definition getAllTemplates : list DevContainerTemplate := getAllTemplates_in templates.

(** [filter.k && !ok(filter.k)]: the criterion is given (a string that is not
  empty) and the template does not meet it. *)
Definition rejects (criterion : option string) (ok : string -> bool) : bool :=
  match criterion with
  | Some c => negb (String.eqb c "") && negb (ok c)
  | None => false
  end.

(** [getTemplates(filter)] over a given [templates] array; [None] is a call
  without a filter. *)
Definition getTemplates_in (templates : list DevContainerTemplate)
    (filter : option TemplateFilter.t) : list DevContainerTemplate :=
  match filter with
  | None => getAllTemplates_in templates
  | Some filter =>
      List.filter (fun template =>
        if rejects (TemplateFilter.category filter) (String.eqb (category template))
        then false
        else if rejects (TemplateFilter.language filter) (Js.includes (languages template))
        then false
        else if rejects (TemplateFilter.framework filter) (Js.includes (frameworks template))
        then false
        else true) templates
  end.

Definition getTemplates (filter : option TemplateFilter.t) : list DevContainerTemplate :=
  getTemplates_in templates filter.

(** [getCategories()] over a given [templates] array. *)
Definition getCategories_in (templates : list DevContainerTemplate) : list string :=
  let categories := Js.new_Set String.eqb (category <$> templates) in
  Js.sort categories.

Definition getCategories : list string := getCategories_in templates.

(** [getTemplateSummary(template)] *)
Definition getTemplateSummary (template : DevContainerTemplate) : value :=
  VObj [("name", VStr (name template));
        ("description", VStr (description template));
        ("languages", VArray (VStr <$> languages template));
        ("frameworks", VArray (VStr <$> frameworks template));
        ("features", VArray (VStr <$> features template));
        ("category", VStr (category template))].

End TemplateManager.

(* ===================================================================== *)
(** ** The configuration generator ([config-generator.ts]) *)
(* ===================================================================== *)

Module ConfigGenerator.

Import RegExp Obj.

Record PromptAnalysis : Type := {
  languages : list string;
  frameworks : list string;
  tools : list string;
  databases : list string;
  os : string;
  ports : list Z;
  extensions : list string;
  originalPrompt : string
}.

(** A [Record<string, RegExp[]>] in the order of its entries. *)
Definition patterns : Type := list (string * list regex).

(** [node\.?js] and [next\.?js] *)
Definition dotted (a b : string) : regex :=
  Seq (str a) (Seq (Opt (chr ".")) (str b)).

Definition languagePatterns : patterns := [
  ("javascript", [word (alt [str "javascript"; str "js"; dotted "node" "js"; str "npm"; str "yarn"])]);
  ("typescript", [words ["typescript"; "ts"]]);
  ("python", [words ["python"; "py"; "django"; "flask"; "fastapi"; "pip"]]);
  ("go", [words ["go"; "golang"]]);
  ("rust", [words ["rust"; "cargo"]]);
  ("java", [words ["java"; "maven"; "gradle"; "spring"]]);
  ("php", [words ["php"; "composer"; "laravel"; "symfony"]]);
  ("ruby", [words ["ruby"; "rails"; "gem"; "bundler"]]);
  ("csharp", [words ["c#"; "csharp"; ".net"; "dotnet"]]);
  ("cpp", [words ["c++"; "cpp"; "cmake"]])
].

Definition frameworkPatterns : patterns := [
  ("react", [word (alt [str "react"; str "jsx"; dotted "next" "js"])]);
  ("angular", [words ["angular"; "ng"]]);
  ("vue", [words ["vue"; "vuejs"]]);
  ("express", [words ["express"; "expressjs"]]);
  ("django", [words ["django"]]);
  ("flask", [words ["flask"]]);
  ("fastapi", [words ["fastapi"; "fast api"]]);
  ("rails", [words ["rails"; "ruby on rails"]]);
  ("spring", [words ["spring"; "springboot"; "spring boot"]]);
  ("gin", [words ["gin"]]);
  ("fiber", [words ["fiber"]]);
  ("actix", [words ["actix"]]);
  ("rocket", [words ["rocket"]])
].

Definition databasePatterns : patterns := [
  ("postgresql", [words ["postgres"; "postgresql"; "psql"]]);
  ("mysql", [words ["mysql"]]);
  ("mongodb", [words ["mongo"; "mongodb"]]);
  ("redis", [words ["redis"]]);
  ("sqlite", [words ["sqlite"]]);
  ("elasticsearch", [words ["elasticsearch"; "elastic"]])
].

Definition toolPatterns : patterns := [
  ("docker", [words ["docker"; "container"]]);
  ("git", [words ["git"; "github"; "gitlab"]]);
  ("vim", [words ["vim"; "neovim"; "nvim"]]);
  ("zsh", [words ["zsh"; "oh-my-zsh"]]);
  ("curl", [words ["curl"]]);
  ("wget", [words ["wget"]]);
  ("jq", [words ["jq"]])
].

(** The detection loop: the tags whose patterns include one that matches. *)
Definition detect (table : patterns) (lowerPrompt : string) : list string :=
  fst <$> List.filter (fun entry => existsb (fun pattern => test pattern lowerPrompt) (snd entry)) table.

(** [/\bport\s+(\d+)\b/gi] *)
Definition portPattern : regex :=
  Seq WordBoundary
    (Seq (str_i "port")
       (Seq (Rep Js.is_space 1 None) (Seq (Rep Js.is_digit 1 None) WordBoundary))).

(** [/\b(\d{4,5})\b/g] *)
Definition standalonePortPattern : regex :=
  word (Rep Js.is_digit 4 (Some 5%nat)).

(** The numbers of the matches that are not [NaN]. [NaN] passes neither of the
  two filters below, so dropping it here changes nothing. *)
Definition numbers (parse : string -> option Z) (matches : list string) : list Z :=
  omap parse matches.

(** Pass one: [prompt.match(/\bport\s+(\d+)\b/gi)], each match stripped of
  its non-digits and parsed, kept when [port > 0 && port <= 65535]. *)
Definition explicitPorts (prompt : string) : list Z :=
  let portMatches := match_all portPattern prompt in
  filter (fun port => 0 < port ∧ port ≤ 65535)
    (numbers (fun m => Js.parseInt (Js.remove_nondigits m)) portMatches).

(** Pass two: [prompt.match(/\b(\d{4,5})\b/g)], parsed, kept when
  [port >= 3000 && port <= 9999]. *)
Definition standalonePorts (prompt : string) : list Z :=
  let standalonePortMatches := match_all standalonePortPattern prompt in
  filter (fun port => 3000 ≤ port ∧ port ≤ 9999)
    (numbers Js.parseInt standalonePortMatches).

(** [allPorts = [...new Set([...ports, ...standalonePorts])]] *)
Definition allPorts (prompt : string) : list Z :=
  Js.new_Set Z.eqb (explicitPorts prompt ++ standalonePorts prompt).

Definition detect_os (prompt : string) : string :=
  if test (word (alt [str_i "alpine"; str_i "alpine linux"])) prompt then "alpine"
  else if test (word (str_i "debian")) prompt then "debian"
  else "ubuntu".

Definition recommended (langs fws : list string) : list string :=
  (if Js.includes langs "typescript" || Js.includes langs "javascript"
   then ["ms-vscode.vscode-typescript-next"; "ms-vscode.vscode-eslint"] else [])
  ++ (if Js.includes langs "python" then ["ms-python.python"; "ms-python.pylint"] else [])
  ++ (if Js.includes langs "go" then ["golang.go"] else [])
  ++ (if Js.includes langs "rust" then ["rust-lang.rust-analyzer"] else [])
  ++ (if Js.includes fws "react"
      then ["bradlc.vscode-tailwindcss"; "esbenp.prettier-vscode"] else []).

Definition analyzePrompt (prompt : string) : PromptAnalysis :=
  let lowerPrompt := Js.toLowerCase prompt in
  let languages := detect languagePatterns lowerPrompt in
  let frameworks := detect frameworkPatterns lowerPrompt in
  let databases := detect databasePatterns lowerPrompt in
  let tools := detect toolPatterns lowerPrompt in
  let extensions := recommended languages frameworks in
  {| languages := languages;
     frameworks := frameworks;
     tools := tools;
     databases := databases;
     os := detect_os prompt;
     ports := allPorts prompt;
     extensions := Js.new_Set String.eqb extensions;
     originalPrompt := prompt |}.

(** The feature identifiers the merges insert. *)
Definition postgres_feature : string := "ghcr.io/devcontainers/features/postgres:1".
Definition mongo_feature : string := "ghcr.io/devcontainers/features/mongo:1".
Definition redis_feature : string := "ghcr.io/devcontainers/features/redis:1".
Definition docker_feature : string := "ghcr.io/devcontainers/features/docker-in-docker:2".
Definition git_feature : string := "ghcr.io/devcontainers/features/git:1".

(** The [switch (db)] of both merges: the feature a database tag stands for,
  [None] where no [case] matches. *)
Definition database_feature (db : string) : option string :=
  if String.eqb db "postgresql" then Some postgres_feature
  else if String.eqb db "mongodb" then Some mongo_feature
  else if String.eqb db "redis" then Some redis_feature
  else None.

(** [config.features[id] = {}] *)
Definition add_feature (config : value) (id : string) : result value :=
  within config "features" (fun features => set features id VEmpty).

(** [for (const db of analysis.databases) { switch (db) { ... } }] *)
Definition add_database_features (dbs : list string) (config : value) : result value :=
  foldl (fun config db =>
           config ← config;
           match database_feature db with
           | Some id => add_feature config id
           | None => Ok config
           end) (Ok config) dbs.

(** The block that merges the detected ports into [forwardPorts]. *)
Definition merge_ports (analysis : PromptAnalysis) (config : value) : result value :=
  if bool_decide (ports analysis ≠ []) then
    forwardPorts ← get config "forwardPorts";
    existingPorts ← spread (or_empty forwardPorts);
    set config "forwardPorts" (union existingPorts (VNum <$> ports analysis))
  else Ok config.

(** The block that merges the recommended extensions into
  [customizations.vscode.extensions], creating the path where it is missing. *)
Definition merge_extensions (analysis : PromptAnalysis) (config : value) : result value :=
  if bool_decide (extensions analysis ≠ []) then
    config ← ensure config "customizations" VEmpty;
    within config "customizations" (fun customizations =>
      customizations ← ensure customizations "vscode" VEmpty;
      within customizations "vscode" (fun vscode =>
        vscode ← ensure vscode "extensions" (VArray []);
        current ← get vscode "extensions";
        existingExtensions ← spread (or_empty current);
        set vscode "extensions" (union existingExtensions (VStr <$> extensions analysis))))
  else Ok config.

(** [if (analysis.tools.includes(tool)) { if (!config.features) {...}; config.features[id] = {}; }] *)
Definition add_tool_feature (analysis : PromptAnalysis) (tool id : string)
    (config : value) : result value :=
  if Js.includes (tools analysis) tool then
    config ← ensure config "features" VEmpty;
    add_feature config id
  else Ok config.

(** The new [name]: the first three tags, capitalized and joined. *)
Definition stack_name (analysis : PromptAnalysis) : string :=
  let techStack := take 3 (languages analysis ++ frameworks analysis) in
  Js.join " & " (Js.capitalize <$> techStack) +:+ " Development".

(** The database block of [generateConfig]. *)
Definition add_databases (analysis : PromptAnalysis) (config : value) : result value :=
  if bool_decide (databases analysis ≠ []) then
    config ← ensure config "features" VEmpty;
    add_database_features (databases analysis) config
  else Ok config.

(** The name block of [generateConfig]. *)
Definition rename (analysis : PromptAnalysis) (config : value) : result value :=
  if bool_decide (languages analysis ≠ [] ∨ frameworks analysis ≠ []) then
    set config "name" (VStr (stack_name analysis))
  else Ok config.

Definition generateConfig (template : TemplateManager.DevContainerTemplate)
    (analysis : PromptAnalysis) : result value :=
  (* Start with template configuration *)
  let config := json_copy (TemplateManager.config template) in
  (* Merge detected ports with template ports *)
  config ← merge_ports analysis config;
  (* Add detected extensions *)
  config ← merge_extensions analysis config;
  (* Add database features if detected *)
  config ← add_databases analysis config;
  (* Add development tools if detected *)
  config ← add_tool_feature analysis "docker" docker_feature config;
  config ← add_tool_feature analysis "git" git_feature config;
  (* Update name to reflect the specific requirements *)
  rename analysis config.

(** The features block of [applyModifications]. *)
Definition patch_features (analysis : PromptAnalysis) (modified : value) : result value :=
  if bool_decide (databases analysis ≠ [] ∨ tools analysis ≠ []) then
    modified ← ensure modified "features" VEmpty;
    modified ← add_database_features (databases analysis) modified;
    modified ←
      (if Js.includes (tools analysis) "docker"
       then add_feature modified docker_feature else Ok modified);
    if Js.includes (tools analysis) "git"
    then add_feature modified git_feature else Ok modified
  else Ok modified.

Definition applyModifications (config : value) (analysis : PromptAnalysis) : result value :=
  let modified := json_copy config in
  (* Add new ports *)
  modified ← merge_ports analysis modified;
  (* Add new extensions *)
  modified ← merge_extensions analysis modified;
  (* Add new features for databases and tools *)
  patch_features analysis modified.

(** [numbers.join(', ')] *)
Definition join_numbers (l : list Z) : string := Js.join ", " (pretty <$> l).

Definition generateModificationReasoning (analysis : PromptAnalysis) : string :=
  let changes : list string :=
    ((if bool_decide (languages analysis ≠ [])
     then ["Added support for: " +:+ Js.join ", " (languages analysis)] else [])
    ++ (if bool_decide (databases analysis ≠ [])
        then ["Added database features: " +:+ Js.join ", " (databases analysis)] else [])
    ++ (if bool_decide (ports analysis ≠ [])
        then ["Added port forwarding: " +:+ join_numbers (ports analysis)] else [])
    ++ (if bool_decide (extensions analysis ≠ [])
        then ["Added VS Code extensions for detected technologies"] else [])
    ++ (if bool_decide (tools analysis ≠ [])
        then ["Added development tools: " +:+ Js.join ", " (tools analysis)] else []))%list in
  if bool_decide (changes ≠ [])
  then "Modified configuration: " +:+ Js.join "; " changes +:+ "."
  else "No applicable modifications found in the request.".

Record GenerationResult : Type := {
  content : value;
  path : string;
  reasoning : string;
  template : string;
  analysis : PromptAnalysis
}.

(** What is at a path of the workspace: JSON text, given by the value it
  parses to, or text that [JSON.parse] rejects. *)
Inductive file : Type :=
| JsonText (v : value)
| Malformed.

(** What the disk makes of [fs.writeFile]: the text is written; or the write
  is rejected with the exception [e], the path then holding what it held
  ([remains] is [None]) or, the write having begun, the file [remains]. *)
Inductive write_outcome : Type :=
| Written
| Rejected (e : exn) (remains : option file).

Section Files.

(** The disk's part in a read and in a write: a read may be refused (a
  directory at the path, a file the process may not read, a failing
  device), and so may a write. *)
Variable readRefused : string -> gmap string file -> option exn.
Variable writeOutcome : string -> value -> gmap string file -> write_outcome.

(** [fs.readJson]: the parsed document, the disk's exception, or the
  parser's. *)
Definition readJson (path : string) (files : gmap string file) : result value :=
  match readRefused path files with
  | Some e => Throw e
  | None =>
      match files !! path with
      | Some (JsonText v) => Ok v
      | Some Malformed => Throw (Error "SyntaxError")
      | None => Throw (Error "ENOENT")
      end
  end.

(** [fs.writeJson]: the file holds the JSON text of the object, or the
  promise is rejected. *)
Definition writeJson (path : string) (object : value) (files : gmap string file)
    : result unit * gmap string file :=
  match writeOutcome path object files with
  | Written => (Ok tt, <[path := JsonText (json_copy object)]> files)
  | Rejected e remains =>
      (Throw e, match remains with
                | Some f => <[path := f]> files
                | None => files
                end)
  end.

End Files.

Section FileSystem.

(** [path.join] of Node.js, and the disk. *)
Variable path_join : list string -> string.
Variable readRefused : string -> gmap string file -> option exn.
Variable writeOutcome : string -> value -> gmap string file -> write_outcome.

(** [modifyConfiguration] on the files [files] of the disk: its outcome and the
  files afterwards. *)
Definition modifyConfiguration (workspaceRoot modifications : string)
    (files : gmap string file) : result GenerationResult * gmap string file :=
  let configPath := path_join [workspaceRoot; ".devcontainer"; "devcontainer.json"] in
  match files !! configPath with
  | None => (Throw (Error "No existing devcontainer.json found"), files)
  | Some _ =>
      (* Read existing configuration *)
      match readJson readRefused configPath files with
      | Throw e => (Throw e, files)
      | Ok existingConfig =>
          (* Analyze modification request *)
          let analysis := analyzePrompt modifications in
          (* Apply modifications *)
          match applyModifications existingConfig analysis with
          | Throw e => (Throw e, files)
          | Ok modifiedConfig =>
              (* Save modified configuration *)
              match writeJson writeOutcome configPath modifiedConfig files with
              | (Throw e, files) => (Throw e, files)
              | (Ok _, files) =>
                  (Ok {| content := modifiedConfig;
                         path := configPath;
                         reasoning := generateModificationReasoning analysis;
                         template := "modified";
                         analysis := analysis |},
                   files)
              end
          end
      end
  end.

End FileSystem.

Definition generateReasoning (analysis : PromptAnalysis)
    (template : TemplateManager.DevContainerTemplate) : string :=
  let reasons : list string :=
    (["Selected '" +:+ TemplateManager.name template
      +:+ "' template based on detected technologies."]
    ++ (if bool_decide (languages analysis ≠ [])
        then ["Detected languages: " +:+ Js.join ", " (languages analysis)] else [])
    ++ (if bool_decide (frameworks analysis ≠ [])
        then ["Detected frameworks: " +:+ Js.join ", " (frameworks analysis)] else [])
    ++ (if bool_decide (databases analysis ≠ [])
        then ["Added database support for: " +:+ Js.join ", " (databases analysis)] else [])
    ++ (if bool_decide (ports analysis ≠ [])
        then ["Configured port forwarding for: " +:+ join_numbers (ports analysis)] else [])
    ++ (if bool_decide (extensions analysis ≠ [])
        then ["Added VS Code extensions for detected technologies"] else [])
    ++ (if bool_decide (tools analysis ≠ [])
        then ["Added development tools: " +:+ Js.join ", " (tools analysis)] else []))%list in
  Js.join ". " reasons +:+ ".".

Section Generation.

(** [path.join] of Node.js, [fs.ensureDir] and the disk's part in a write:
  directories are no part of the files [files]; whether one can be made is
  the disk's matter. *)
Variable path_join : list string -> string.
Variable ensureDir : string -> gmap string file -> result unit.
Variable writeOutcome : string -> value -> gmap string file -> write_outcome.

(** The template [generateFromPrompt] works from: the one named, where a
  name is given, else the best match. *)
Definition chooseTemplate (analysis : PromptAnalysis) (baseTemplate : option string)
    : result TemplateManager.DevContainerTemplate :=
  template ←
    match baseTemplate with
    | Some name =>
        if negb (String.eqb name "") then
          match TemplateManager.getTemplate name with
          | Some template => Ok (Some template)
          | None => Throw (Error ("Template '" +:+ name +:+ "' not found"))
          end
        else
          Ok (TemplateManager.findBestMatch (languages analysis) (frameworks analysis))
    | None =>
        Ok (TemplateManager.findBestMatch (languages analysis) (frameworks analysis))
    end;
  match template with
  | Some template => Ok template
  | None => Throw (Error "No suitable template found")
  end.

(** [generateFromPrompt] on the files [files] of the disk: its outcome and the
  files afterwards. [workspaceRoot] is ['.'] where it is not given. *)
Definition generateFromPrompt (prompt : string) (workspaceRoot baseTemplate : option string)
    (files : gmap string file) : result GenerationResult * gmap string file :=
  let workspaceRoot := default "." workspaceRoot in
  (* Analyze the prompt *)
  let analysis := analyzePrompt prompt in
  (* Find the best template *)
  match chooseTemplate analysis baseTemplate with
  | Throw e => (Throw e, files)
  | Ok template =>
      (* Generate configuration based on template and analysis *)
      match generateConfig template analysis with
      | Throw e => (Throw e, files)
      | Ok config =>
          (* Save configuration *)
          let configDir := path_join [workspaceRoot; ".devcontainer"] in
          let configPath := path_join [configDir; "devcontainer.json"] in
          match ensureDir configDir files with
          | Throw e => (Throw e, files)
          | Ok _ =>
              match writeJson writeOutcome configPath config files with
              | (Throw e, files) => (Throw e, files)
              | (Ok _, files) =>
                  (* Generate reasoning *)
                  let reasoning := generateReasoning analysis template in
                  (Ok {| content := config;
                         path := configPath;
                         reasoning := reasoning;
                         template := TemplateManager.name template;
                         analysis := analysis |},
                   files)
              end
          end
      end
  end.

End Generation.

End ConfigGenerator.

(* ===================================================================== *)
(** ** The generator on a heap of objects *)
(* ===================================================================== *)

(** Objects and arrays as JavaScript has them: cells of a heap, held by
  reference and changed in place. [generateConfig] is given the template
  object of the catalog itself; this module runs it with the references and
  the assignments of the source, to settle what it shares with the catalog. *)
Module Heap.

Import Obj ConfigGenerator.

Abbreviation loc := nat.

(** A value as a variable or a property holds it: a primitive, or the
  reference to an object. *)
Inductive hval : Type :=
| HNull
| HBool (b : bool)
| HNum (n : Z)
| HStr (s : string)
| HRef (l : loc)
| HNonInt (x : nonint).

Inductive cell : Type :=
| CObj (props : list (string * hval))
| CArr (items : list hval) (expando : list (string * hval)).

(** The heap: the cell of the reference [l] is at index [l]; a new object
  gets the next index. *)
Abbreviation heap := (list cell).

(** A computation on the heap: an outcome and the heap afterwards (also after
  an exception). *)
Definition M (A : Type) : Type := heap -> result A * heap.

#[global] Instance M_ret : MRet M := λ A a σ, (Ok a, σ).
#[global] Instance M_bind : MBind M := λ A B f m σ,
  match m σ with
  | (Ok a, σ') => f a σ'
  | (Throw e, σ') => (Throw e, σ')
  end.

Definition throw {A} (e : exn) : M A := fun σ => (Throw e, σ).

(** A new object or array. *)
Definition alloc (c : cell) : M hval :=
  fun σ => (Ok (HRef (length σ)), σ ++ [c]).

(** The cell behind a reference; a reference to no cell does not occur in a
  heap built by [alloc]. *)
Definition deref (l : loc) : M cell :=
  fun σ => match σ !! l with
           | Some c => (Ok c, σ)
           | None => (Throw TypeError, σ)
           end.

Definition write (l : loc) (c : cell) : M unit :=
  fun σ => (Ok tt, <[l := c]> σ).

Definition truthy (v : hval) : bool :=
  match v with
  | HNull => false
  | HBool b => b
  | HNum n => negb (n =? 0)
  | HStr s => negb (String.eqb s "")
  | HRef _ => true
  | HNonInt x => nonint_truthy x
  end.

Definition truthy_opt (v : option hval) : bool :=
  match v with
  | Some v => truthy v
  | None => false
  end.

(** The named properties of a cell. *)
Definition named (c : cell) : list (string * hval) :=
  match c with
  | CObj props => props
  | CArr _ expando => expando
  end.

Definition with_named (c : cell) (props : list (string * hval)) : cell :=
  match c with
  | CObj _ => CObj props
  | CArr items _ => CArr items props
  end.

(** [o.k] *)
Definition get (o : hval) (k : string) : M (option hval) :=
  match o with
  | HRef l => c ← deref l; mret (prop_get k (named c))
  | HNull => throw TypeError
  | HBool _ | HNum _ | HStr _ | HNonInt _ => mret None
  end.

(** [o.k] where the source goes on to read or assign a property of it: on
  [undefined] that throws. *)
Definition member (o : hval) (k : string) : M hval :=
  v ← get o k;
  match v with
  | Some v => mret v
  | None => throw TypeError
  end.

(** [o.k = x], in strict code. *)
Definition set (o : hval) (k : string) (x : hval) : M unit :=
  match o with
  | HRef l => c ← deref l; write l (with_named c (prop_set k x (named c)))
  | HNull | HBool _ | HNum _ | HStr _ | HNonInt _ => throw TypeError
  end.

(** [if (!o.k) { o.k = <literal>; }], the literal being a new object. *)
Definition ensure (o : hval) (k : string) (literal : cell) : M unit :=
  v ← get o k;
  if truthy_opt v then mret tt
  else x ← alloc literal; set o k x.

(** [[...(x || [])]]: the items of [x] where it is truthy, none otherwise (the
  empty array of [|| []] is only read). *)
Definition items_or_empty (x : option hval) : M (list hval) :=
  match x with
  | Some (HRef l) =>
      c ← deref l;
      match c with
      | CArr items _ => mret items
      | CObj _ => throw TypeError
      end
  | Some (HStr s) =>
      if String.eqb s "" then mret []
      else mret ((fun c => HStr (String c EmptyString)) <$> list_ascii_of_string s)
  | Some (HBool true) => throw TypeError
  | Some (HNum n) => if n =? 0 then mret [] else throw TypeError
  | Some (HNonInt x) => if nonint_truthy x then throw TypeError else mret []
  | Some (HBool false) | Some HNull | None => mret []
  end.

(** SameValueZero: primitives by value, objects by reference. *)
Definition same_value_zero (a b : hval) : bool :=
  match a, b with
  | HNull, HNull => true
  | HBool x, HBool y => Bool.eqb x y
  | HNum x, HNum y => x =? y
  | HNum x, HNonInt NegZero => x =? 0
  | HNonInt NegZero, HNum y => y =? 0
  | HNonInt x, HNonInt y => nonint_eqb x y
  | HStr x, HStr y => String.eqb x y
  | HRef x, HRef y => Nat.eqb x y
  | _, _ => false
  end.

(** [[...new Set([...existing, ...added])]]: the array that results (the
  array of the argument and the set are not kept). *)
Definition union (existing added : list hval) : M hval :=
  alloc (CArr (Js.new_Set same_value_zero (existing ++ added)) []).

(** [JSON.stringify]: the value written, read off the heap; [fuel] bounds the
  depth. The named properties of an array are not written. *)
Fixpoint load (fuel : nat) (σ : heap) (v : hval) : option value :=
  match v with
  | HNull => Some VNull
  | HBool b => Some (VBool b)
  | HNum n => Some (VNum n)
  | HNonInt x => Some (json_copy (VNonInt x))
  | HStr s => Some (VStr s)
  | HRef l =>
      match fuel with
      | O => None
      | S fuel =>
          match σ !! l with
          | Some (CObj props) =>
              VObj <$> mapM (fun kv => pair (fst kv) <$> load fuel σ (snd kv)) props
          | Some (CArr items _) =>
              (fun items => VArr items []) <$> mapM (load fuel σ) items
          | None => None
          end
      end
  end.

(** No chain of references in a heap without a cycle is longer than the heap;
  on a cycle [JSON.stringify] throws. *)
Definition stringify (v : hval) : M value :=
  fun σ => match load (S (length σ)) σ v with
           | Some text => (Ok text, σ)
           | None => (Throw TypeError, σ)
           end.

(** One computation per element, left to right. *)
Fixpoint each {A B} (f : A -> M B) (l : list A) : M (list B) :=
  match l with
  | [] => mret []
  | x :: l' => v ← f x; vs ← each f l'; mret (v :: vs)
  end.

(** [JSON.parse]: new cells for the arrays and objects of the text, the
  items and properties first. *)
Fixpoint parse (text : value) : M hval :=
  match text with
  | VNull => mret HNull
  | VBool b => mret (HBool b)
  | VNum n => mret (HNum n)
  | VNonInt x => mret (HNonInt x)
  | VStr s => mret (HStr s)
  | VArr items _ =>
      items ← each parse items;
      alloc (CArr items [])
  | VObj props =>
      props ← each (fun kv => v ← parse (snd kv); mret (fst kv, v)) props;
      alloc (CObj props)
  end.

Definition merge_ports (analysis : PromptAnalysis) (config : hval) : M unit :=
  if bool_decide (ports analysis ≠ []) then
    forwardPorts ← get config "forwardPorts";
    existingPorts ← items_or_empty forwardPorts;
    merged ← union existingPorts (HNum <$> ports analysis);
    set config "forwardPorts" merged
  else mret tt.

Definition merge_extensions (analysis : PromptAnalysis) (config : hval) : M unit :=
  if bool_decide (extensions analysis ≠ []) then
    ensure config "customizations" (CObj []);;
    customizations ← member config "customizations";
    ensure customizations "vscode" (CObj []);;
    vscode ← member customizations "vscode";
    ensure vscode "extensions" (CArr [] []);;
    current ← get vscode "extensions";
    existingExtensions ← items_or_empty current;
    merged ← union existingExtensions (HStr <$> extensions analysis);
    set vscode "extensions" merged
  else mret tt.

(** [config.features[id] = {}] *)
Definition add_feature (config : hval) (id : string) : M unit :=
  features ← member config "features";
  options ← alloc (CObj []);
  set features id options.

Definition add_database_features (dbs : list string) (config : hval) : M unit :=
  foldl (fun done db =>
           done;;
           match database_feature db with
           | Some id => add_feature config id
           | None => mret tt
           end) (mret tt) dbs.

Definition add_databases (analysis : PromptAnalysis) (config : hval) : M unit :=
  if bool_decide (databases analysis ≠ []) then
    ensure config "features" (CObj []);;
    add_database_features (databases analysis) config
  else mret tt.

Definition add_tool_feature (analysis : PromptAnalysis) (tool id : string)
    (config : hval) : M unit :=
  if Js.includes (tools analysis) tool then
    ensure config "features" (CObj []);;
    add_feature config id
  else mret tt.

Definition rename (analysis : PromptAnalysis) (config : hval) : M unit :=
  if bool_decide (languages analysis ≠ [] ∨ frameworks analysis ≠ []) then
    set config "name" (HStr (stack_name analysis))
  else mret tt.

(** The statements of [generateConfig] after the copy is made. *)
Definition merge_into (analysis : PromptAnalysis) (config : hval) : M hval :=
  merge_ports analysis config;;
  merge_extensions analysis config;;
  add_databases analysis config;;
  add_tool_feature analysis "docker" docker_feature config;;
  add_tool_feature analysis "git" git_feature config;;
  rename analysis config;;
  mret config.

(** [generateConfig(template, analysis)], [template] being the reference to a
  template object of the catalog. *)
Definition generateConfig (template : hval) (analysis : PromptAnalysis) : M hval :=
  (* const config = JSON.parse(JSON.stringify(template.config)); *)
  base ← get template "config";
  text ← match base with
         | Some base => stringify base
         | None => throw (Error "SyntaxError")
         end;
  config ← parse text;
  merge_into analysis config.

(** A template object of the catalog as the value of its literal. *)
Definition template_literal (t : TemplateManager.DevContainerTemplate) : value :=
  VObj [("name", VStr (TemplateManager.name t));
        ("description", VStr (TemplateManager.description t));
        ("languages", VArray (VStr <$> TemplateManager.languages t));
        ("frameworks", VArray (VStr <$> TemplateManager.frameworks t));
        ("features", VArray (VStr <$> TemplateManager.features t));
        ("category", VStr (TemplateManager.category t));
        ("config", TemplateManager.config t)].

(** The heap after the catalog's array literal is evaluated: the references
  to the template objects, in the order of the array, and their cells. *)
Definition catalog : list hval * heap :=
  foldl (fun st t =>
           match parse (template_literal t) (snd st) with
           | (Ok v, σ) => (fst st ++ [v], σ)
           | (Throw _, σ) => (fst st, σ)
           end) ([], []) TemplateManager.templates.

End Heap.

(* ===================================================================== *)
(** ** Sample documents and requests *)
(* ===================================================================== *)

Module Samples.

Import ConfigGenerator.

(** An existing document with recognized and unrecognized fields. *)
Definition document : list (string * value) := [
  ("name", VStr "billing-service");
  ("image", VStr "mcr.microsoft.com/devcontainers/base:ubuntu");
  ("forwardPorts", VArray [VNum 3000]);
  ("customizations",
   VObj [("vscode",
          VObj [("settings", VObj [("editor.tabSize", VNum 2)]);
                ("extensions", VArray [VStr "ms-python.python"])]);
         ("codespaces", VObj [("openFiles", VArray [VStr "README.md"])])]);
  ("postCreateCommand", VStr "make setup");
  ("remoteUser", VStr "vscode");
  ("x-team", VObj [("owner", VStr "payments"); ("tier", VNum 1)])
].

Definition request : PromptAnalysis :=
  analyzePrompt "Add Python with Redis and MySQL, forward port 8080, and install git and vim".

(** [forwardPorts: [3000]] and a request for port 8080. *)
Definition port_document : list (string * value) := [("forwardPorts", VArray [VNum 3000])].

Definition port_request : PromptAnalysis := analyzePrompt "forward port 8080".

(** The document [JSON.parse] reads from
  [{"name": "ledger", "x-limit": 1e999, "x-offset": -0, "forwardPorts": [3000]}]. *)
Definition extreme_numbers : list (string * value) := [
  ("name", VStr "ledger");
  ("x-limit", VNonInt (Infinity false));
  ("x-offset", VNonInt NegZero);
  ("forwardPorts", VArray [VNum 3000])
].

(** A document that lists a port twice, and a request without ports. *)
Definition repeated_ports : list (string * value) :=
  [("forwardPorts", VArray [VNum 3000; VNum 3000])].

Definition redis_request : PromptAnalysis := analyzePrompt "add redis".

(** A document without [features], and a request naming only unsupported
  tags. *)
Definition plain_document : list (string * value) :=
  [("name", VStr "notes"); ("image", VStr "alpine:3.19")].

Definition unsupported_request : PromptAnalysis := analyzePrompt "add mysql and vim".

(** [path.join] on relative segments without dots: the segments joined by the
  separator. *)
Definition path_join (segments : list string) : string := Js.join "/" segments.

(** The template object ['python'] of the catalog. *)
Definition python : Heap.hval := default Heap.HNull (fst Heap.catalog !! 1%nat).

(** [generateConfig(python, request)] on the heap of the catalog, and then
  [generateConfig(python, redis_request)] on the heap the first call left. *)
Definition first_run : result Heap.hval * Heap.heap :=
  Eval vm_compute in Heap.generateConfig python request (snd Heap.catalog).

Definition second_run : result Heap.hval * Heap.heap :=
  Eval vm_compute in Heap.generateConfig python redis_request (snd first_run).

(** A disk on which every directory can be made, every file read and every
  file written. *)
Definition roomy : string -> gmap string file -> result unit := fun _ _ => Ok tt.

Definition readable : string -> gmap string file -> option exn := fun _ _ => None.

Definition writable : string -> value -> gmap string file -> write_outcome :=
  fun _ _ _ => Written.

(** A disk that lets [devcontainer.json] be read but not written: the write
  is rejected and the file left as it is. *)
Definition read_only : string -> value -> gmap string file -> write_outcome :=
  fun _ _ _ => Rejected (Error "EACCES: permission denied") None.

(** A run of [generateFromPrompt] in an empty workspace, and then one of
  [modifyConfiguration]. *)
Definition workspace_made : result GenerationResult * gmap string file :=
  Eval vm_compute in
    generateFromPrompt path_join roomy writable
      "Python Django web application with PostgreSQL database"
      (Some "/work/app") None ∅.

Definition workspace_changed : result GenerationResult * gmap string file :=
  Eval vm_compute in
    modifyConfiguration path_join readable writable "/work/app" "add redis and port 6379"
      (snd workspace_made).

End Samples.

(* ===================================================================== *)
(** * Specifications *)
(* ===================================================================== *)

(** ** Template selection *)

Module SelectorSpec.

Import TemplateManager.

(** A tag is contained in [known] without regard to case. *)
Definition contains_ci (known : list string) (tag : string) : bool :=
  existsb (fun k => String.eqb (Js.toLowerCase tag) (Js.toLowerCase k)) known.

(** The number of input tags contained in [known], repetitions counted. *)
Definition matches (known input : list string) : Z :=
  Z.of_nat (length (List.filter (contains_ci known) input)).

Definition penalty (template : DevContainerTemplate) : Z :=
  if String.eqb (name template) "universal" then 1 else 0.

(** The score as the specification words it. *)
Definition spec_score (template : DevContainerTemplate) (langs fws : list string) : Z :=
  10 * matches (languages template) langs
  + 5 * matches (frameworks template) fws
  - penalty template.

(** [t] has the highest score of [ts] and is the first of [ts] to have it. *)
Definition first_best (ts : list DevContainerTemplate)
    (sc : DevContainerTemplate -> Z) (t : DevContainerTemplate) : Prop :=
  ∃ before after,
    ts = before ++ t :: after
    ∧ (∀ u, u ∈ before → sc u < sc t)
    ∧ (∀ u, u ∈ after → sc u ≤ sc t).

(** Every tag of the catalog is in lower case. *)
Definition lower_case_tags (t : DevContainerTemplate) : bool :=
  forallb (fun k => String.eqb (Js.toLowerCase k) k) (languages t ++ frameworks t).

End SelectorSpec.

(** ** Merging into a document *)

Module MergeSpec.

Import Obj ConfigGenerator.

(** The properties of an object whose name is not in [K], in their order. *)
Definition without (K : list string) (props : list (string * value))
    : list (string * value) :=
  List.filter (fun kv => negb (Js.includes K (fst kv))) props.

(** [b] is [a] but for the properties named in [K]. *)
Definition changes_only (K : list string) (a b : value) : Prop :=
  match a, b with
  | VObj p, VObj q => without K p = without K q
  | VArr i e, VArr i' e' => i = i' ∧ without K e = without K e'
  | _, _ => a = b
  end.

(** The property [k] of [o], [None] where [o.k] is [undefined]. *)
Definition field (o : value) (k : string) : option value :=
  match o with
  | VObj props => prop_get k props
  | VArr _ expando => prop_get k expando
  | _ => None
  end.

(** The entries of a features block; none where the block is missing or is
  not an object. *)
Definition entries (features : option value) : list (string * value) :=
  match features with
  | Some (VObj props) => props
  | Some (VArr _ expando) => expando
  | _ => []
  end.

(** The forwarded ports of a document whose [forwardPorts], where present, is
  an array of integers; [None] for any other document. *)
Definition integers (items : list value) : option (list Z) :=
  mapM (fun v => match v with VNum n => Some n | _ => None end) items.

Definition forwarded (doc : list (string * value)) : option (list Z) :=
  match prop_get "forwardPorts" doc with
  | None => Some []
  | Some (VArr items _) => integers items
  | Some _ => None
  end.

(** The extensions a document lists: [customizations.vscode.extensions] where
  the path exists and ends in an array of strings. With extensions to add,
  the list afterwards is the set of the listed and the new ones. *)
Definition strings (items : list value) : option (list string) :=
  mapM (fun v => match v with VStr s => Some s | _ => None end) items.

Definition vscode_extensions (customizations : value) : option (list string) :=
  match field customizations "vscode" with
  | Some v =>
      match field v "extensions" with
      | Some (VArr items _) => strings items
      | _ => None
      end
  | None => None
  end.

Definition listed_extensions (config : value) : option (list string) :=
  match field config "customizations" with
  | Some c => vscode_extensions c
  | None => None
  end.

Definition merged_extensions (existing : list string) (analysis : PromptAnalysis)
    : list string :=
  if bool_decide (extensions analysis ≠ [])
  then Js.new_Set String.eqb (existing ++ extensions analysis)
  else existing.

(** The error of a patch without an existing document. *)
Definition ConfigNotFound : exn := Error "No existing devcontainer.json found".

(** The paths the merge rules write to. *)
Definition merge_targets : list string := ["forwardPorts"; "customizations"; "features"].

(** The supported database and tool tags, each with its feature identifier. *)
Definition supported_databases : list (string * string) := [
  ("postgresql", "ghcr.io/devcontainers/features/postgres:1");
  ("mongodb", "ghcr.io/devcontainers/features/mongo:1");
  ("redis", "ghcr.io/devcontainers/features/redis:1")
].

Definition supported_tools : list (string * string) := [
  ("docker", "ghcr.io/devcontainers/features/docker-in-docker:2");
  ("git", "ghcr.io/devcontainers/features/git:1")
].

(** The feature set asks for the feature [id]: one of its database tags, or of
  its tool tags, is supported and stands for [id]. *)
Definition asks_for (dbs tools : list string) (id : string) : Prop :=
  (∃ tag, tag ∈ dbs ∧ (tag, id) ∈ supported_databases)
  ∨ (∃ tag, tag ∈ tools ∧ (tag, id) ∈ supported_tools).

(** No tag of the feature set is supported. *)
Definition unsupported_only (dbs tools : list string) : Prop :=
  (∀ tag, tag ∈ dbs → tag ∉ (fst <$> supported_databases))
  ∧ (∀ tag, tag ∈ tools → tag ∉ (fst <$> supported_tools)).

(** The entries of [features] after the merge, from those before, [F]: an
  empty options object for every feature asked for, the other entries as they
  were. *)
Definition features_merged (dbs tools : list string)
    (F F' : list (string * value)) : Prop :=
  ∀ id, (asks_for dbs tools id → prop_get id F' = Some VEmpty)
        ∧ (¬ asks_for dbs tools id → prop_get id F' = prop_get id F).

(** The identifiers a merge inserts, in the order it inserts them. *)
Definition inserted_databases (dbs : list string) : list string :=
  omap database_feature dbs.

Definition inserted_tools (tools : list string) : list string :=
  (if Js.includes tools "docker" then [docker_feature] else [])
  ++ (if Js.includes tools "git" then [git_feature] else []).

Definition insert_all (ids : list string) (F : list (string * value))
    : list (string * value) :=
  foldl (fun F id => prop_set id VEmpty F) F ids.

(** An object or an array: what a property can be assigned to. *)
Definition assignable (f : value) : bool :=
  match f with
  | VObj _ | VArr _ _ => true
  | _ => false
  end.

(** The documents the merges do not throw on. [spreads x]: [[...(x || [])]]
  is defined, [x] being falsy, an array or a string. [holds_object x]: [x] is
  falsy, an object or an array. *)
Definition spreads (x : option value) : bool :=
  match spread (or_empty x) with
  | Ok _ => true
  | Throw _ => false
  end.

Definition holds_object (x : option value) : bool :=
  match x with
  | Some v => assignable v || negb (truthy v)
  | None => true
  end.

Definition vscode_shape (customizations : value) : bool :=
  match field customizations "vscode" with
  | Some v => if truthy v then assignable v && spreads (field v "extensions") else true
  | None => true
  end.

Definition extensions_shape (config : value) : bool :=
  match field config "customizations" with
  | Some c => if truthy c then assignable c && vscode_shape c else true
  | None => true
  end.

Definition well_shaped (config : value) : bool :=
  assignable config
  && spreads (field config "forwardPorts")
  && extensions_shape config
  && holds_object (field config "features").

(** A configuration whose [features] holds an object. *)
Definition featured (config : value) : Prop :=
  assignable config = true
  ∧ ∃ f, field config "features" = Some f ∧ assignable f = true.

(** A document whose containers on the paths of the merges are objects:
  the document itself, and, where they are set to a truthy value,
  [features], [customizations] and [customizations.vscode]. *)
Definition is_object (v : value) : bool :=
  match v with
  | VObj _ => true
  | _ => false
  end.

Definition object_or_unset (x : option value) : bool :=
  match x with
  | Some v => is_object v || negb (truthy v)
  | None => true
  end.

Definition standard_vscode (customizations : value) : bool :=
  match field customizations "vscode" with
  | Some v => if truthy v then is_object v && spreads (field v "extensions") else true
  | None => true
  end.

Definition standard_customizations (config : value) : bool :=
  match field config "customizations" with
  | Some c => if truthy c then is_object c && standard_vscode c else true
  | None => true
  end.

Definition standard (config : value) : bool :=
  is_object config
  && spreads (field config "forwardPorts")
  && standard_customizations config
  && object_or_unset (field config "features").

(** A JSON document with an object under [features]. *)
Definition with_features (config : value) : Prop :=
  ∃ doc f, config = VObj doc ∧ is_json config = true
           ∧ prop_get "features" doc = Some (VObj f).

(** The document [c] already holds what the feature set asks for: its
  [forwardPorts] absorb the ports, its extensions absorb the extensions, and
  its [features] hold an empty options object under every identifier the
  merges insert. *)
Definition settled_ports (a : PromptAnalysis) (c : value) : Prop :=
  ports a ≠ [] →
  ∃ merged, field c "forwardPorts" = Some (VArray merged)
            ∧ Js.new_Set same_value_zero (merged ++ (VNum <$> ports a)) = merged.

Definition settled_extensions (a : PromptAnalysis) (c : value) : Prop :=
  extensions a ≠ [] →
  ∃ customizations vscode merged,
    field c "customizations" = Some customizations
    ∧ field customizations "vscode" = Some vscode
    ∧ field vscode "extensions" = Some (VArray merged)
    ∧ Js.new_Set same_value_zero (merged ++ (VStr <$> extensions a)) = merged.

Definition settled_features (a : PromptAnalysis) (c : value) : Prop :=
  databases a ≠ [] ∨ tools a ≠ [] →
  ∃ f, field c "features" = Some f ∧ truthy f = true
       ∧ ∀ id, id ∈ inserted_databases (databases a) ++ inserted_tools (tools a) →
               field f id = Some VEmpty.

End MergeSpec.

(** ** Global matching *)

Module ScanSpec.

Import RegExp.

(** The code unit before the position reached after [a], from a position
  that has [prev] before it. *)
Definition before (prev : option ascii) (a : subject) : option ascii :=
  match last a with
  | Some c => Some c
  | None => prev
  end.

(** [m] is matched by [r] in [text] at some position: [text = pre ++ m ++ post]
  and the match of [r] at the position after [pre] ends before [post]. *)
Definition occurs (r : regex) (text m : subject) : Prop :=
  ∃ pre post, text = pre ++ m ++ post
              ∧ match_at r (last pre) (m ++ post) = Some post.

(** The bound [max] of a repetition allows [n] code units. *)
Definition within_max (max : option nat) (n : nat) : Prop :=
  ∀ M, max = Some M → (n ≤ M)%nat.

End ScanSpec.

(** ** Port extraction *)

Module PortSpec.

Import RegExp.

(** Every code unit of [a] is of the class [p]. *)
Definition all (p : ascii → bool) (a : subject) : Prop :=
  Forall (fun c => p c = true) a.

(** No word character stands right before, right after. *)
Definition boundary_before (pre : subject) : Prop := is_word_at (last pre) = false.
Definition boundary_after (post : subject) : Prop := is_word_at (head post) = false.

(** The word [port], in any mix of cases. *)
Definition is_port (kw : subject) : Prop :=
  Js.lower_char <$> kw = list_ascii_of_string "port".

(** [text] mentions the number [ds] after the word [port]: the word, white
  space, the digits, with a word boundary before the word and after the
  digits. *)
Definition port_mention (text ds : subject) : Prop :=
  ∃ pre kw ws post,
    text = pre ++ kw ++ ws ++ ds ++ post
    ∧ boundary_before pre ∧ is_port kw
    ∧ ws ≠ [] ∧ all Js.is_space ws
    ∧ ds ≠ [] ∧ all Js.is_digit ds
    ∧ boundary_after post.

(** [text] holds the bare number [ds]: four or five digits between word
  boundaries. *)
Definition bare_number (text ds : subject) : Prop :=
  ∃ pre post,
    text = pre ++ ds ++ post
    ∧ boundary_before pre
    ∧ all Js.is_digit ds ∧ (4 ≤ length ds ≤ 5)%nat
    ∧ boundary_after post.

(** The number a run of digits writes in base ten. *)
Definition decimal (ds : subject) : Z :=
  fold_left (fun acc c => 10 * acc + Js.digit_value c) ds 0.

(** The word boundary that ends both patterns. *)
Definition at_boundary : cont :=
  fun prev s => if xorb (is_word_at prev) (is_word_at (head s)) then Some s else None.

(** A mention starts with the letter p; inside a match no code unit after the
  first is one. *)
Definition starts_with_p (prev : option ascii) (s : subject) : Prop :=
  ∃ c, head s = Some c ∧ Js.lower_char c = "p"%char.

End PortSpec.

(** ** The heap of the generator *)

Module HeapSpec.

Import Heap.

(** A value that is no reference to a cell below [n]. *)
Definition val_fresh (n : nat) (v : hval) : Prop :=
  match v with
  | HRef l => (n ≤ l)%nat
  | _ => True
  end.

(** The values a cell holds. *)
Definition held (c : cell) : list hval :=
  match c with
  | CObj props => snd <$> props
  | CArr items expando => items ++ (snd <$> expando)
  end.

Definition cell_fresh (n : nat) (c : cell) : Prop := Forall (val_fresh n) (held c).

(** [σ] is [σ0] with its cells as they were, followed by cells that hold no
  reference to a cell of [σ0]. *)
Definition extends (σ0 σ : heap) : Prop :=
  ∃ h, σ = σ0 ++ h ∧ Forall (cell_fresh (length σ0)) h.

(** From a heap that extends [σ0], [m] leaves a heap that extends [σ0], and
  what it returns satisfies [P]. *)
Definition safe (σ0 : heap) {A} (P : A → Prop) (m : M A) : Prop :=
  ∀ σ, extends σ0 σ → extends σ0 (snd (m σ)) ∧ ∀ a, fst (m σ) = Ok a → P a.

Definition opt_fresh (n : nat) (v : option hval) : Prop :=
  match v with
  | Some v => val_fresh n v
  | None => True
  end.

(** [σ'] holds every cell of [σ] as it was. *)
Definition untouched (σ σ' : heap) : Prop := take (length σ) σ' = σ.

(** Neither [v] nor any cell made since [σ] holds a reference to a cell of
  [σ]: nothing reachable from [v] in [σ'] is a cell of [σ]. *)
Definition isolated (σ σ' : heap) (v : hval) : Prop :=
  val_fresh (length σ) v ∧ Forall (cell_fresh (length σ)) (drop (length σ) σ').

(** [doc] is the document [JSON.stringify] writes for [v]. *)
Definition document (σ : heap) (v : hval) (doc : value) : Prop :=
  stringify v σ = (Ok doc, σ).

(** The document of the object a computation returns, as [JSON.stringify]
  writes it from the heap the computation leaves. *)
Definition written (m : M hval) (σ : heap) : result value :=
  match m σ with
  | (Ok v, σ') => fst (stringify v σ')
  | (Throw e, _) => Throw e
  end.

(** Two runs of the same statements: one on [σ0], one on [σ0 ++ junk], the
  heap an earlier call has left. What the first allocates at [l], the second
  allocates at [l + length junk]. *)
Section Shift.

Variables σ0 junk : heap.

Definition shift (v : hval) : hval :=
  match v with
  | HRef l => HRef (l + length junk)
  | _ => v
  end.

Definition shift_props (props : list (string * hval)) : list (string * hval) :=
  (fun kv => (fst kv, shift (snd kv))) <$> props.

Definition shift_cell (c : cell) : cell :=
  match c with
  | CObj props => CObj (shift_props props)
  | CArr items expando => CArr (shift <$> items) (shift_props expando)
  end.

(** The heaps of the two runs at the same point. *)
Definition related (σb σa : heap) : Prop :=
  ∃ h, σb = σ0 ++ h ∧ Forall (cell_fresh (length σ0)) h
       ∧ σa = σ0 ++ junk ++ (shift_cell <$> h).

(** Where the first run returns, the second returns the related value from
  the related heap. *)
Definition sim {A} (R : A → A → Prop) (mb ma : M A) : Prop :=
  ∀ σb σa, related σb σa →
    ∀ a σb', mb σb = (Ok a, σb') →
      ∃ a' σa', ma σa = (Ok a', σa') ∧ related σb' σa' ∧ R a a'.

Definition Rv (v v' : hval) : Prop := val_fresh (length σ0) v ∧ v' = shift v.
Definition Rc (c c' : cell) : Prop := cell_fresh (length σ0) c ∧ c' = shift_cell c.
Definition Ro (v v' : option hval) : Prop := opt_fresh (length σ0) v ∧ v' = shift <$> v.
Definition Rl (vs vs' : list hval) : Prop := Forall (val_fresh (length σ0)) vs ∧ vs' = shift <$> vs.
Definition Ru (a a' : unit) : Prop := True.

End Shift.

End HeapSpec.

(** ** Listing the catalog *)

Module CatalogSpec.

Import TemplateManager.

(** The criterion is given, and is [c]: a string that is not empty. *)
Definition given (criterion : option string) (c : string) : Prop :=
  criterion = Some c ∧ c ≠ "".

(** The template meets every criterion the filter gives. *)
Definition meets (filter : TemplateFilter.t) (t : DevContainerTemplate) : Prop :=
  (∀ c, given (TemplateFilter.category filter) c → category t = c)
  ∧ (∀ l, given (TemplateFilter.language filter) l → l ∈ languages t)
  ∧ (∀ w, given (TemplateFilter.framework filter) w → w ∈ frameworks t).

(** The filter gives no criterion. *)
Definition unfiltered (filter : TemplateFilter.t) : Prop :=
  (∀ c, ¬ given (TemplateFilter.category filter) c)
  ∧ (∀ l, ¬ given (TemplateFilter.language filter) l)
  ∧ (∀ w, ¬ given (TemplateFilter.framework filter) w).

(** The filters with one criterion of [filter] each. *)
Definition by_category (filter : TemplateFilter.t) : TemplateFilter.t :=
  {| TemplateFilter.category := TemplateFilter.category filter;
     TemplateFilter.language := None;
     TemplateFilter.framework := None |}.

Definition by_language (filter : TemplateFilter.t) : TemplateFilter.t :=
  {| TemplateFilter.category := None;
     TemplateFilter.language := TemplateFilter.language filter;
     TemplateFilter.framework := None |}.

Definition by_framework (filter : TemplateFilter.t) : TemplateFilter.t :=
  {| TemplateFilter.category := None;
     TemplateFilter.language := None;
     TemplateFilter.framework := TemplateFilter.framework filter |}.

(** [a] comes strictly before [b] in the order of code units. *)
Definition before (a b : string) : Prop := String.ltb a b = true.

(** The test of the filter on one template. *)
Definition passes (filter : TemplateFilter.t) (template : DevContainerTemplate) : bool :=
  negb (rejects (TemplateFilter.category filter) (String.eqb (category template)))
  && negb (rejects (TemplateFilter.language filter) (Js.includes (languages template)))
  && negb (rejects (TemplateFilter.framework filter) (Js.includes (frameworks template))).

End CatalogSpec.

(** ** Detection of tags *)

Module DetectSpec.

Import RegExp ScanSpec.

(** A word boundary: of the code units on the two sides of a position (none
  at an end of the text), one is a word character and the other is not. *)
Definition boundary (prev next : option ascii) : Prop :=
  is_word_at prev ≠ is_word_at next.

(** The keyword occurs in [text] with a word boundary at its start and at its
  end. *)
Definition whole_word (kw : string) (text : subject) : Prop :=
  let w := list_ascii_of_string kw in
  ∃ pre post,
    text = pre ++ w ++ post
    ∧ boundary (last pre) (head (w ++ post))
    ∧ boundary (last (pre ++ w)) (head post).

(** The keywords of every tag, in the order of the tables. *)
Definition vocabulary : Type := list (string * list string).

Definition languageKeywords : vocabulary := [
  ("javascript", ["javascript"; "js"; "node.js"; "nodejs"; "npm"; "yarn"]);
  ("typescript", ["typescript"; "ts"]);
  ("python", ["python"; "py"; "django"; "flask"; "fastapi"; "pip"]);
  ("go", ["go"; "golang"]);
  ("rust", ["rust"; "cargo"]);
  ("java", ["java"; "maven"; "gradle"; "spring"]);
  ("php", ["php"; "composer"; "laravel"; "symfony"]);
  ("ruby", ["ruby"; "rails"; "gem"; "bundler"]);
  ("csharp", ["c#"; "csharp"; ".net"; "dotnet"]);
  ("cpp", ["c++"; "cpp"; "cmake"])
].

Definition frameworkKeywords : vocabulary := [
  ("react", ["react"; "jsx"; "next.js"; "nextjs"]);
  ("angular", ["angular"; "ng"]);
  ("vue", ["vue"; "vuejs"]);
  ("express", ["express"; "expressjs"]);
  ("django", ["django"]);
  ("flask", ["flask"]);
  ("fastapi", ["fastapi"; "fast api"]);
  ("rails", ["rails"; "ruby on rails"]);
  ("spring", ["spring"; "springboot"; "spring boot"]);
  ("gin", ["gin"]);
  ("fiber", ["fiber"]);
  ("actix", ["actix"]);
  ("rocket", ["rocket"])
].

Definition databaseKeywords : vocabulary := [
  ("postgresql", ["postgres"; "postgresql"; "psql"]);
  ("mysql", ["mysql"]);
  ("mongodb", ["mongo"; "mongodb"]);
  ("redis", ["redis"]);
  ("sqlite", ["sqlite"]);
  ("elasticsearch", ["elasticsearch"; "elastic"])
].

Definition toolKeywords : vocabulary := [
  ("docker", ["docker"; "container"]);
  ("git", ["git"; "github"; "gitlab"]);
  ("vim", ["vim"; "neovim"; "nvim"]);
  ("zsh", ["zsh"; "oh-my-zsh"]);
  ("curl", ["curl"]);
  ("wget", ["wget"]);
  ("jq", ["jq"])
].

(** [text] mentions the tag: one of its keywords is a whole word of it. *)
Definition mentions (table : vocabulary) (text : subject) (tag : string) : Prop :=
  ∃ kws kw, (tag, kws) ∈ table ∧ kw ∈ kws ∧ whole_word kw text.

(** The keywords made of one of [k1] and then one of [k2]. *)
Definition joined (k1 k2 : list string) : list string :=
  a ← k1; (fun b => a +:+ b) <$> k2.

(** The pattern matches, at any position and before any continuation, the
  keywords [kws] and nothing else. *)
Definition recognizes (r : regex) (kws : list string) : Prop :=
  ∀ prev s (k : cont),
    is_Some (exec r prev s k)
    ↔ ∃ kw s', kw ∈ kws
               ∧ s = list_ascii_of_string kw ++ s'
               ∧ is_Some (k (before prev (list_ascii_of_string kw)) s').

(** The patterns of a table entry find the keywords of a vocabulary entry. *)
Definition agree (entry : string * list regex) (words : string * list string) : Prop :=
  fst entry = fst words
  ∧ ∀ s, existsb (fun pattern => test pattern s) (snd entry) = true
         ↔ ∃ kw, kw ∈ snd words ∧ whole_word kw (list_ascii_of_string s).

(** A pattern that cannot tell a letter from its lower case: each of its
  classes holds of a code unit exactly when it holds of the code unit in lower
  case. *)
Inductive caseless : regex → Prop :=
| caseless_Chr p : (∀ c, p (Js.lower_char c) = p c) → caseless (Chr p)
| caseless_Eps : caseless Eps
| caseless_Seq r1 r2 : caseless r1 → caseless r2 → caseless (Seq r1 r2)
| caseless_Alt r1 r2 : caseless r1 → caseless r2 → caseless (Alt r1 r2)
| caseless_Opt r : caseless r → caseless (Opt r)
| caseless_Rep p min max : (∀ c, p (Js.lower_char c) = p c) → caseless (Rep p min max)
| caseless_WordBoundary : caseless WordBoundary.

(** The run of digits [parseInt] reads at the start of [t]. *)
Definition leading_digits (t : string) : option Z :=
  match t with
  | String c _ => if Js.is_digit c then Some (Js.digits_value 0 t) else None
  | EmptyString => None
  end.

(** The continuations of a run on a text and of the run on the text in lower
  case. *)
Definition lowered (k k' : cont) : Prop :=
  ∀ prev s, k' (Js.lower_char <$> prev) (Js.lower_char <$> s)
            = fmap (M := list) Js.lower_char <$> k prev s.

End DetectSpec.

(** A prompt with its letters [A] to [Z] put in lower case, every other
  character as it is. *)
Fixpoint fold_ascii_case (s : string) : string :=
  match s with
  | EmptyString => EmptyString
  | String c s' =>
      String (if Js.in_range 65 90 c then Js.lower_char c else c) (fold_ascii_case s')
  end.

(** Two analyses that differ at most in the prompt they keep. *)
Definition same_request (a b : ConfigGenerator.PromptAnalysis) : Prop :=
  ConfigGenerator.languages a = ConfigGenerator.languages b
  ∧ ConfigGenerator.frameworks a = ConfigGenerator.frameworks b
  ∧ ConfigGenerator.tools a = ConfigGenerator.tools b
  ∧ ConfigGenerator.databases a = ConfigGenerator.databases b
  ∧ ConfigGenerator.os a = ConfigGenerator.os b
  ∧ ConfigGenerator.ports a = ConfigGenerator.ports b
  ∧ ConfigGenerator.extensions a = ConfigGenerator.extensions b.

(** ** The two operations on the disk *)

Module DiskSpec.

Import Obj ConfigGenerator.

Section Outcomes.

Variable path_join : list string → string.
Variable ensureDir : string → gmap string file → result unit.
Variable readRefused : string → gmap string file → option exn.
Variable writeOutcome : string → value → gmap string file → write_outcome.

(** The files after a write that was rejected. *)
Definition left_behind (path : string) (remains : option file) (files : gmap string file)
    : gmap string file :=
  match remains with
  | Some f => <[path := f]> files
  | None => files
  end.

(** The outcome of [generateFromPrompt] with the template [t] and the
  configuration [config] made from it: what is left to go wrong is the
  disk's. *)
Definition generated (prompt workspaceRoot : string)
    (t : TemplateManager.DevContainerTemplate) (config : value)
    (files : gmap string file) : result GenerationResult * gmap string file :=
  let configDir := path_join [workspaceRoot; ".devcontainer"] in
  let configPath := path_join [configDir; "devcontainer.json"] in
  match ensureDir configDir files with
  | Throw e => (Throw e, files)
  | Ok _ =>
      match writeOutcome configPath config files with
      | Rejected e remains => (Throw e, left_behind configPath remains files)
      | Written =>
          (Ok {| content := config;
                 path := configPath;
                 reasoning := generateReasoning (analyzePrompt prompt) t;
                 template := TemplateManager.name t;
                 analysis := analyzePrompt prompt |},
           <[configPath := JsonText (json_copy config)]> files)
      end
  end.

(** The outcome of [modifyConfiguration] on a document of which
  [applyModifications] makes [modified]: what is left to go wrong is the
  disk's, at the read and at the write. *)
Definition patched (workspaceRoot modifications : string) (modified : value)
    (files : gmap string file) : result GenerationResult * gmap string file :=
  let configPath := path_join [workspaceRoot; ".devcontainer"; "devcontainer.json"] in
  match readRefused configPath files with
  | Some e => (Throw e, files)
  | None =>
      match writeOutcome configPath modified files with
      | Rejected e remains => (Throw e, left_behind configPath remains files)
      | Written =>
          (Ok {| content := modified;
                 path := configPath;
                 reasoning := generateModificationReasoning (analyzePrompt modifications);
                 template := "modified";
                 analysis := analyzePrompt modifications |},
           <[configPath := JsonText (json_copy modified)]> files)
      end
  end.

End Outcomes.

(** [path.join] of a joined path and a segment is the join of all the
  segments. *)
Definition joins_in_steps (path_join : list string → string) : Prop :=
  ∀ a b c, path_join [path_join [a; b]; c] = path_join [a; b; c].

End DiskSpec.

(* ===================================================================== *)
(** * Properties *)
(* ===================================================================== *)

(** ** Strings and sets *)

Lemma includes_spec (l : list string) (x : string) :
  Js.includes l x = true <-> x ∈ l.
Proof.
  unfold Js.includes. rewrite existsb_exists. split.
  - intros (y & Hy & E). apply String.eqb_eq in E. subst.
    by apply list_elem_of_In.
  - intros H. exists x. split; [by apply list_elem_of_In|apply String.eqb_refl].
Qed.

(** ** Template selection *)

Section Selection.

Import TemplateManager SelectorSpec.

Variables langs fws : list string.

Let sc (t : DevContainerTemplate) : Z := score t langs fws.

(** The loop either never replaces its state, every score being at most the
  initial [bestScore], or ends on the first template of highest score. *)
Lemma fold_consider (ts : list DevContainerTemplate) (st : best) :
  ((∀ t, t ∈ ts → sc t ≤ snd st) ∧ fold_left (consider langs fws) ts st = st)
  ∨ (∃ t, fold_left (consider langs fws) ts st = (Some t, sc t)
          ∧ snd st < sc t ∧ first_best ts sc t).
Proof.
  revert st. induction ts as [|u ts IH]; intros st; simpl.
  - left. split; [|done]. intros t Ht. by apply elem_of_nil in Ht.
  - replace (consider langs fws st u)
      with (if snd st <? sc u then (Some u, sc u) else st) by reflexivity.
    destruct (Z.ltb_spec (snd st) (sc u)) as [Hlt|Hge].
    + destruct (IH (Some u, sc u)) as [[Hall ->]|(t & -> & Hst & b & a & -> & Hb & Ha)].
      * right. exists u. split; [done|]. split; [done|].
        exists [], ts. split; [done|]. split; [|done].
        intros v Hv. by apply elem_of_nil in Hv.
      * right. exists t. split; [done|]. simpl in Hst. split; [lia|].
        exists (u :: b), a. split; [done|]. split; [|done].
        intros v [->|Hv]%elem_of_cons; [done|by apply Hb].
    + destruct (IH st) as [[Hall ->]|(t & -> & Hst & b & a & -> & Hb & Ha)].
      * left. split; [|done].
        intros v [->|Hv]%elem_of_cons; [done|by apply Hall].
      * right. exists t. split; [done|]. split; [done|].
        exists (u :: b), a. split; [done|]. split; [|done].
        intros v [->|Hv]%elem_of_cons; [lia|by apply Hb].
Qed.

(** With a positive score in the array, [findBestMatch] returns the first
  template of highest score. *)
Lemma findBestMatch_in_positive (ts : list DevContainerTemplate) :
  (∃ t, t ∈ ts ∧ 0 < sc t) →
  ∃ t, findBestMatch_in ts langs fws = Some t ∧ first_best ts sc t ∧ 0 < sc t.
Proof.
  intros (u & Hu & Hpos). unfold findBestMatch_in.
  destruct (fold_consider ts (None, 0)) as [[Hall _]|(t & -> & Hst & Hbest)].
  - specialize (Hall u Hu). simpl in Hall. lia.
  - simpl in *. exists t. destruct (Z.eqb_spec (sc t) 0); [lia|done].
Qed.

(** Without one, it returns what [find] finds under the name [universal]. *)
Lemma findBestMatch_in_fallback (ts : list DevContainerTemplate) :
  (∀ t, t ∈ ts → sc t ≤ 0) →
  findBestMatch_in ts langs fws
  = List.find (fun t => String.eqb (name t) "universal") ts.
Proof.
  intros Hall. unfold findBestMatch_in.
  destruct (fold_consider ts (None, 0)) as [[_ ->]|(t & _ & Hst & b & a & -> & _)].
  - done.
  - simpl in Hst. specialize (Hall t). rewrite elem_of_app, elem_of_cons in Hall.
    fold (sc t) in Hall. specialize (Hall ltac:(auto)). lia.
Qed.

(** The loops that add a constant per matching tag count the matching tags. *)
Lemma fold_count (P : string → bool) (c : Z) (l : list string) (init : Z) :
  fold_left (fun score x => if P x then score + c else score) l init
  = init + c * Z.of_nat (length (List.filter P l)).
Proof.
  revert init. induction l as [|x l IH]; intros init; simpl; [lia|].
  rewrite IH. destruct (P x); simpl length; lia.
Qed.

Lemma filter_ext_bool (P Q : string → bool) (l : list string) :
  (∀ x, P x = Q x) → List.filter P l = List.filter Q l.
Proof.
  intros E. induction l as [|x l IH]; simpl; [done|]. by rewrite E, IH.
Qed.

(** Against tags in lower case, looking up the lowered input is containment
  without regard to case. *)
Lemma includes_lower (known : list string) (x : string) :
  forallb (fun k => String.eqb (Js.toLowerCase k) k) known = true →
  Js.includes known (Js.toLowerCase x) = contains_ci known x.
Proof.
  unfold Js.includes, contains_ci.
  induction known as [|k known IH]; simpl; [done|].
  intros [Hk Hknown]%andb_prop. apply String.eqb_eq in Hk.
  by rewrite IH, Hk.
Qed.

Lemma score_spec (t : DevContainerTemplate) :
  lower_case_tags t = true → sc t = spec_score t langs fws.
Proof.
  unfold lower_case_tags. rewrite forallb_app. intros [Hl Hf]%andb_prop.
  unfold sc, score, raw_score, spec_score, penalty, matches.
  rewrite !fold_count.
  rewrite (filter_ext_bool (fun x => Js.includes (languages t) (Js.toLowerCase x))
             (contains_ci (languages t))) by (intros; by apply includes_lower).
  rewrite (filter_ext_bool (fun x => Js.includes (frameworks t) (Js.toLowerCase x))
             (contains_ci (frameworks t))) by (intros; by apply includes_lower).
  destruct (String.eqb (name t) "universal"); lia.
Qed.

Lemma score_le_raw (t : DevContainerTemplate) : sc t ≤ raw_score t langs fws.
Proof. unfold sc, score. destruct (String.eqb _ _); lia. Qed.

End Selection.

Lemma catalog_lower_case (t : TemplateManager.DevContainerTemplate) :
  t ∈ TemplateManager.templates → SelectorSpec.lower_case_tags t = true.
Proof.
  unfold TemplateManager.templates. intros Ht.
  repeat (apply elem_of_cons in Ht as [->|Ht]; [reflexivity|]).
  by apply elem_of_nil in Ht.
Qed.

Lemma catalog_has_universal :
  List.find (fun t => String.eqb (TemplateManager.name t) "universal")
    TemplateManager.templates = Some TemplateManager.universal.
Proof. reflexivity. Qed.

Section SelectorClaims.

Import TemplateManager SelectorSpec.

(** C1 (as amended). For every input, the score of each catalog descriptor is
  10 times the number of input languages contained, without regard to case,
  in its languages, plus 5 times the number of input frameworks so contained
  in its frameworks, minus 1 for the descriptor named [universal] only. When
  some descriptor has a positive score, [findBestMatch] returns the
  descriptor of highest score, the first in catalog order among equals; when
  none has, it returns the [universal] descriptor. *)
Theorem findBestMatch_highest_positive_or_universal (langs fws : list string) :
  (∀ t, t ∈ templates → score t langs fws = spec_score t langs fws)
  ∧ ((∃ t, t ∈ templates ∧ 0 < score t langs fws) →
     ∃ t, findBestMatch langs fws = Some t
          ∧ first_best templates (fun u => score u langs fws) t)
  ∧ ((∀ t, t ∈ templates → score t langs fws ≤ 0) →
     findBestMatch langs fws = Some universal).
Proof.
  split; [|split].
  - intros t Ht. apply score_spec. by apply catalog_lower_case.
  - intros H. destruct (findBestMatch_in_positive langs fws templates H)
      as (t & Ht & Hbest & _). by exists t.
  - intros H. unfold findBestMatch.
    rewrite findBestMatch_in_fallback by done. apply catalog_has_universal.
Qed.

(** Both cases of C1 occur: [javascript] alone gives four descriptors the
  score 10, and the first of them is returned. *)
Lemma findBestMatch_highest_witness :
  ∃ t, findBestMatch ["javascript"] [] = Some t
       ∧ first_best templates (fun u => score u ["javascript"] []) t.
Proof.
  apply (proj1 (proj2 (findBestMatch_highest_positive_or_universal ["javascript"] []))).
  exists nodejs_typescript. split; [apply list_elem_of_here|reflexivity].
Defined.

(** C1 as first stated fails on the empty input: the descriptor returned,
  [universal], has the score -1, below the 0 of every other descriptor. *)
Lemma findBestMatch_empty_not_highest :
  ∃ t u, findBestMatch [] [] = Some t
         ∧ u ∈ templates ∧ score t [] [] < score u [] [].
Proof.
  exists universal, nodejs_typescript.
  split; [reflexivity|]. split; [apply list_elem_of_here|reflexivity].
Qed.

(** C2. When every catalog descriptor's score before the penalty is zero,
  [findBestMatch] returns the [universal] descriptor; so it does on two empty
  lists; and for [rust] with [actix] it returns the descriptor named [rust]. *)
Theorem findBestMatch_fallback :
  (∀ langs fws,
     (∀ t, t ∈ templates → raw_score t langs fws = 0) →
     findBestMatch langs fws = Some universal)
  ∧ findBestMatch [] [] = Some universal
  ∧ findBestMatch ["rust"] ["actix"] = Some rust
  ∧ name rust = "rust" ∧ name universal = "universal".
Proof.
  split; [|repeat split].
  intros langs fws H. unfold findBestMatch.
  rewrite findBestMatch_in_fallback; [apply catalog_has_universal|].
  intros t Ht. pose proof (score_le_raw langs fws t) as Hle.
  rewrite (H t Ht) in Hle. done.
Qed.

(** The hypothesis of C2 holds of an input no descriptor knows. *)
Lemma findBestMatch_fallback_witness :
  findBestMatch ["cobol"] ["struts"] = Some universal.
Proof.
  apply (proj1 findBestMatch_fallback).
  intros t Ht. unfold templates in Ht.
  repeat (apply elem_of_cons in Ht as [->|Ht]; [reflexivity|]).
  by apply elem_of_nil in Ht.
Defined.

(** C9. [findBestMatch] never returns [null]. *)
Theorem findBestMatch_not_null (langs fws : list string) :
  ∃ t, findBestMatch langs fws = Some t.
Proof.
  unfold findBestMatch, findBestMatch_in.
  destruct (fold_consider langs fws templates (None, 0))
    as [[_ ->]|(t & -> & Hpos & _)]; simpl in *.
  - exists universal. apply catalog_has_universal.
  - exists t. destruct (Z.eqb_spec (score t langs fws) 0); [lia|done].
Qed.

End SelectorClaims.

(** ** Merging into a document *)

Section ResultMonad.

Context {A B : Type}.

Lemma bind_Ok (m : result A) (f : A → result B) (b : B) :
  m ≫= f = Ok b ↔ ∃ a, m = Ok a ∧ f a = Ok b.
Proof.
  destruct m as [a|e]; simpl; split.
  - intros H. by exists a.
  - by intros (a' & [= ->] & H).
  - done.
  - by intros (a' & [=] & _).
Qed.

End ResultMonad.

(** Inverts a hypothesis [x ← m; k = Ok b]. *)
Ltac inv_bind H :=
  let a := fresh "r" in
  let H1 := fresh H "_1" in
  apply bind_Ok in H as (a & H1 & H).

Section ObjectLemmas.

Import Obj MergeSpec.

Implicit Types (props : list (string * value)) (k : string) (K : list string).

Lemma prop_get_set_eq k x props : prop_get k (prop_set k x props) = Some x.
Proof.
  induction props as [|[k' v] props IH]; simpl.
  - by rewrite String.eqb_refl.
  - destruct (String.eqb k k') eqn:E; simpl; by rewrite ?String.eqb_refl, ?E.
Qed.

Lemma prop_get_set_ne k k' x props :
  k ≠ k' → prop_get k' (prop_set k x props) = prop_get k' props.
Proof.
  intros Hne. induction props as [|[k0 v] props IH]; simpl.
  - destruct (String.eqb_spec k' k); [congruence|done].
  - destruct (String.eqb_spec k k0) as [->|]; simpl.
    + destruct (String.eqb_spec k' k0); [congruence|done].
    + by rewrite IH.
Qed.

Lemma without_prop_set K k x props :
  Js.includes K k = true → without K (prop_set k x props) = without K props.
Proof.
  intros Hk. unfold without.
  induction props as [|[k0 v] props IH]; simpl.
  - by rewrite Hk.
  - destruct (String.eqb_spec k k0) as [->|]; simpl.
    + by rewrite Hk.
    + by rewrite IH.
Qed.

Lemma prop_get_without K k props :
  Js.includes K k = false → prop_get k (without K props) = prop_get k props.
Proof.
  intros Hk. unfold without.
  induction props as [|[k0 v] props IH]; simpl; [done|].
  destruct (Js.includes K k0) eqn:E; simpl.
  - destruct (String.eqb_spec k k0) as [->|]; [congruence|done].
  - by rewrite IH.
Qed.

Lemma without_weaken K K' props :
  (∀ k, Js.includes K k = true → Js.includes K' k = true) →
  without K' (without K props) = without K' props.
Proof.
  intros Hsub. unfold without.
  induction props as [|[k0 v] props IH]; simpl; [done|].
  destruct (Js.includes K k0) eqn:E; simpl.
  - by rewrite (Hsub _ E).
  - by rewrite IH.
Qed.

Lemma changes_only_refl K (a : value) : changes_only K a a.
Proof. by destruct a. Qed.

Lemma changes_only_trans K (a b c : value) :
  changes_only K a b → changes_only K b c → changes_only K a c.
Proof.
  destruct a, b; simpl; try (intros; subst; done); try done;
    destruct c; simpl; try done.
  - intros [-> ->] [-> ->]. done.
  - by intros -> ->.
Qed.

Lemma changes_only_weaken K K' (a b : value) :
  (∀ k, Js.includes K k = true → Js.includes K' k = true) →
  changes_only K a b → changes_only K' a b.
Proof.
  intros Hsub. destruct a, b; simpl; try done.
  - intros [-> E]. split; [done|].
    rewrite <- (without_weaken K K' expando), <- (without_weaken K K' expando0) by done.
    by rewrite E.
  - intros E.
    rewrite <- (without_weaken K K' props), <- (without_weaken K K' props0) by done.
    by rewrite E.
Qed.

Lemma changes_only_field K k (a b : value) :
  changes_only K a b → Js.includes K k = false → field a k = field b k.
Proof.
  intros H Hk. destruct a, b; simpl in *; try done; try congruence.
  - destruct H as [_ E].
    rewrite <- (prop_get_without K k expando), <- (prop_get_without K k expando0) by done.
    by rewrite E.
  - rewrite <- (prop_get_without K k props), <- (prop_get_without K k props0) by done.
    by rewrite H.
Qed.

Lemma includes_singleton k : Js.includes [k] k = true.
Proof. apply includes_spec, list_elem_of_here. Qed.

Lemma get_field (o : value) k (v : option value) : get o k = Ok v → field o k = v.
Proof. destruct o; simpl; congruence. Qed.

Lemma set_changes (o o' : value) k x : set o k x = Ok o' → changes_only [k] o o'.
Proof.
  destruct o; simpl; try done; intros [= <-]; simpl;
    rewrite without_prop_set by apply includes_singleton; done.
Qed.

Lemma set_field (o o' : value) k x : set o k x = Ok o' → field o' k = Some x.
Proof.
  destruct o; simpl; try done; intros [= <-]; simpl; apply prop_get_set_eq.
Qed.

Lemma ensure_changes (o o' : value) k d : ensure o k d = Ok o' → changes_only [k] o o'.
Proof.
  unfold ensure. intros H. inv_bind H.
  destruct (truthy_opt r).
  - injection H as <-. apply changes_only_refl.
  - by apply set_changes in H.
Qed.

(** After [if (!o.k) o.k = d], the property is what it was when that was
  truthy, and [d] otherwise. *)
Lemma ensure_field (o o' : value) k d :
  ensure o k d = Ok o' →
  field o' k = Some (match field o k with
                     | Some v => if truthy v then v else d
                     | None => d
                     end).
Proof.
  unfold ensure. intros H. inv_bind H. apply get_field in H_1. subst r.
  destruct (field o k) as [v|] eqn:E; simpl in H.
  - destruct (truthy v).
    + injection H as <-. done.
    + by apply set_field in H.
  - by apply set_field in H.
Qed.

Lemma within_changes (o o' : value) k f : within o k f = Ok o' → changes_only [k] o o'.
Proof.
  unfold within. intros H. inv_bind H. destruct r as [v|]; [|done].
  inv_bind H. by apply set_changes in H.
Qed.

Lemma within_field (o o' : value) k f :
  within o k f = Ok o' →
  ∃ v v', field o k = Some v ∧ f v = Ok v' ∧ field o' k = Some v'.
Proof.
  unfold within. intros H. inv_bind H. destruct r as [v|]; [|done].
  inv_bind H. apply get_field in H_1. apply set_field in H. eauto.
Qed.

End ObjectLemmas.

Section JsonCopy.

Import Obj.

(** Induction on a value with the hypothesis for every item and property. *)
Lemma value_nested_ind (P : value → Prop) :
  P VNull → (∀ b, P (VBool b)) → (∀ n, P (VNum n)) → (∀ s, P (VStr s)) →
  (∀ items expando,
     Forall P items → Forall (fun kv => P (snd kv)) expando → P (VArr items expando)) →
  (∀ props, Forall (fun kv => P (snd kv)) props → P (VObj props)) →
  (∀ x, P (VNonInt x)) →
  ∀ v, P v.
Proof.
  intros Hnull Hbool Hnum Hstr Harr Hobj Hnonint.
  fix IH 1. intros [ | b | n | s | items expando | props | x].
  - exact Hnull.
  - apply Hbool.
  - apply Hnum.
  - apply Hstr.
  - apply Harr.
    + induction items as [|x items IHitems]; constructor; [apply IH|exact IHitems].
    + induction expando as [|[k x] expando IHe]; constructor; [apply IH|exact IHe].
  - apply Hobj.
    induction props as [|[k x] props IHp]; constructor; [apply IH|exact IHp].
  - apply Hnonint.
Qed.

(** A parsed document is its own JSON copy. *)
Lemma json_copy_id (v : value) : is_json v = true → json_copy v = v.
Proof.
  induction v as [ | | | | items expando IHitems _ | props IHprops | x]
    using value_nested_ind; simpl; try done; try (by destruct x).
  - intros [Hitems Hexp]%andb_prop. destruct expando; [|done]. f_equal.
    induction IHitems as [|x items Hx _ IH]; csimpl in *; [done|].
    apply andb_prop in Hitems as [Hx' Hitems]. f_equal; auto.
  - intros Hprops. f_equal.
    induction IHprops as [|[k x] props Hx _ IH]; csimpl in *; [done|].
    apply andb_prop in Hprops as [Hx' Hprops]. f_equal; [f_equal|]; auto.
Qed.

Lemma json_copy_is_json (v : value) : is_json (json_copy v) = true.
Proof.
  induction v as [ | | | | items expando IHitems _ | props IHprops | x]
    using value_nested_ind; simpl; try done; try (by destruct x).
  - rewrite andb_true_r.
    induction IHitems as [|x items Hx _ IH]; csimpl; [done|]. by rewrite Hx, IH.
  - induction IHprops as [|[k x] props Hx _ IH]; csimpl in *; [done|]. by rewrite Hx, IH.
Qed.

Lemma prop_get_json_copy (k : string) (props : list (string * value)) :
  prop_get k ((fun kv => (fst kv, json_copy (snd kv))) <$> props)
  = json_copy <$> prop_get k props.
Proof.
  induction props as [|[k' v] props IH]; csimpl; [done|].
  destruct (String.eqb k k'); [done|apply IH].
Qed.

(** The properties of a document that JSON text carries are such values. *)
Lemma prop_get_Forall_json (k : string) (props : list (string * value)) (v : value) :
  is_json (VObj props) = true → prop_get k props = Some v → is_json v = true.
Proof.
  simpl. induction props as [|[k' x] props IH]; simpl; [done|].
  intros [Hx Hrest]%andb_true_iff. destruct (String.eqb k k'); [by intros [= <-]|by apply IH].
Qed.

End JsonCopy.

Section MergeSteps.

Import Obj MergeSpec ConfigGenerator.

Implicit Types (config : value) (analysis : PromptAnalysis).

Lemma merge_ports_changes analysis config config' :
  merge_ports analysis config = Ok config' → changes_only ["forwardPorts"] config config'.
Proof.
  unfold merge_ports. intros H. case_bool_decide.
  - inv_bind H. inv_bind H. by apply set_changes in H.
  - injection H as <-. apply changes_only_refl.
Qed.

Lemma merge_extensions_changes analysis config config' :
  merge_extensions analysis config = Ok config' →
  changes_only ["customizations"] config config'.
Proof.
  unfold merge_extensions. intros H. case_bool_decide.
  - inv_bind H. apply ensure_changes in H_1. apply within_changes in H.
    by eapply changes_only_trans.
  - injection H as <-. apply changes_only_refl.
Qed.

Lemma add_feature_changes config config' id :
  add_feature config id = Ok config' → changes_only ["features"] config config'.
Proof. apply within_changes. Qed.

Lemma add_database_features_changes dbs config config' :
  add_database_features dbs config = Ok config' →
  changes_only ["features"] config config'.
Proof.
  unfold add_database_features.
  revert config'. induction dbs as [|db dbs IH] using rev_ind; intros config'; simpl.
  - intros [= <-]. apply changes_only_refl.
  - rewrite foldl_snoc. intros H. inv_bind H. apply IH in H_1.
    eapply changes_only_trans; [exact H_1|].
    destruct (database_feature db).
    + by apply add_feature_changes in H.
    + injection H as <-. apply changes_only_refl.
Qed.

(** What the extension merge does inside a truthy [customizations] and
  inside a truthy [vscode]: only [vscode], and in it only [extensions],
  changes. *)
Lemma merge_extensions_inside analysis config config' c :
  merge_extensions analysis config = Ok config' →
  field config "customizations" = Some c → truthy c = true →
  ∃ c', field config' "customizations" = Some c'
        ∧ changes_only ["vscode"] c c'
        ∧ ∀ v, field c "vscode" = Some v → truthy v = true →
            ∃ v', field c' "vscode" = Some v' ∧ changes_only ["extensions"] v v'.
Proof.
  unfold merge_extensions. intros H Hc Hct. case_bool_decide.
  2:{ injection H as <-. exists c. split; [done|]. split; [apply changes_only_refl|].
      intros v Hv _. exists v. split; [done|apply changes_only_refl]. }
  inv_bind H. apply ensure_field in H_1. rewrite Hc, Hct in H_1.
  apply within_field in H as (c0 & c' & Hc0 & Hf & Hc').
  rewrite H_1 in Hc0. injection Hc0 as <-.
  exists c'. split; [done|].
  inv_bind Hf. pose proof (ensure_changes _ _ _ _ Hf_1) as Hch1.
  pose proof (within_changes _ _ _ _ Hf) as Hch2.
  split; [by eapply changes_only_trans|].
  intros v Hv Hvt. apply ensure_field in Hf_1. rewrite Hv, Hvt in Hf_1.
  apply within_field in Hf as (v0 & v' & Hv0 & Hg & Hv').
  rewrite Hf_1 in Hv0. injection Hv0 as <-.
  exists v'. split; [done|].
  inv_bind Hg. inv_bind Hg. inv_bind Hg.
  apply ensure_changes in Hg_1. apply set_changes in Hg.
  by eapply changes_only_trans.
Qed.

Lemma patch_features_changes analysis config config' :
  patch_features analysis config = Ok config' → changes_only ["features"] config config'.
Proof.
  unfold patch_features. intros H. case_bool_decide.
  2:{ injection H as <-. apply changes_only_refl. }
  inv_bind H. inv_bind H. inv_bind H.
  apply ensure_changes in H_1. apply add_database_features_changes in H_0.
  eapply changes_only_trans; [exact H_1|].
  eapply changes_only_trans; [exact H_0|].
  eapply changes_only_trans.
  - destruct (Js.includes (tools analysis) "docker").
    + by apply add_feature_changes in H_2.
    + injection H_2 as <-. apply changes_only_refl.
  - destruct (Js.includes (tools analysis) "git").
    + by apply add_feature_changes in H.
    + injection H as <-. apply changes_only_refl.
Qed.

Lemma add_databases_changes analysis config config' :
  add_databases analysis config = Ok config' → changes_only ["features"] config config'.
Proof.
  unfold add_databases. intros H. case_bool_decide.
  - inv_bind H. apply ensure_changes in H_1. apply add_database_features_changes in H.
    by eapply changes_only_trans.
  - injection H as <-. apply changes_only_refl.
Qed.

Lemma add_tool_feature_changes analysis tool id config config' :
  add_tool_feature analysis tool id config = Ok config' →
  changes_only ["features"] config config'.
Proof.
  unfold add_tool_feature. intros H. destruct (Js.includes _ _).
  - inv_bind H. apply ensure_changes in H_1. apply add_feature_changes in H.
    by eapply changes_only_trans.
  - injection H as <-. apply changes_only_refl.
Qed.

Lemma rename_changes analysis config config' :
  rename analysis config = Ok config' → changes_only ["name"] config config'.
Proof.
  unfold rename. intros H. case_bool_decide.
  - by apply set_changes in H.
  - injection H as <-. apply changes_only_refl.
Qed.

(** The one name of [[k0]] is among the names of [K']. *)
Lemma includes_mono (k0 : string) (K' : list string) :
  Js.includes K' k0 = true → ∀ k, Js.includes [k0] k = true → Js.includes K' k = true.
Proof. intros H k Hk%includes_spec%list_elem_of_singleton. by subst. Qed.

End MergeSteps.

Section PatchFrame.

Import Obj MergeSpec ConfigGenerator.

(** C4 (as amended). The patched document differs from the JSON copy of the
  existing one, [JSON.parse(JSON.stringify(config))], only at [forwardPorts],
  [customizations.vscode.extensions] and [features]: the other properties
  keep their order and have the values of the copy; so do, inside an
  existing [customizations], all properties but [vscode], and inside an
  existing [vscode] all properties but [extensions]. A property that JSON
  text carries as it is (no [-0], no number that is not finite, no named
  property on an array) therefore keeps its value, and a document of such
  values is changed at the three places only. *)
Theorem applyModifications_frame (doc : list (string * value))
    (analysis : PromptAnalysis) (modified : value) :
  applyModifications (VObj doc) analysis = Ok modified →
  changes_only merge_targets (json_copy (VObj doc)) modified
  ∧ (∃ doc', modified = VObj doc'
             ∧ (∀ k, k ∉ merge_targets → prop_get k doc' = json_copy <$> prop_get k doc)
             ∧ (∀ k v, k ∉ merge_targets → prop_get k doc = Some v →
                       is_json v = true → prop_get k doc' = Some v)
             ∧ (is_json (VObj doc) = true →
                without merge_targets doc' = without merge_targets doc
                ∧ ∀ k, k ∉ merge_targets → prop_get k doc' = prop_get k doc))
  ∧ ∀ c, prop_get "customizations" doc = Some c → truthy (json_copy c) = true →
      ∃ c', field modified "customizations" = Some c'
            ∧ changes_only ["vscode"] (json_copy c) c'
            ∧ ∀ v, field (json_copy c) "vscode" = Some v → truthy v = true →
                ∃ v', field c' "vscode" = Some v' ∧ changes_only ["extensions"] v v'.
Proof.
  intros H. unfold applyModifications in H.
  inv_bind H. inv_bind H.
  pose proof (merge_ports_changes _ _ _ H_1) as Hp.
  pose proof (merge_extensions_changes _ _ _ H_0) as He.
  pose proof (patch_features_changes _ _ _ H) as Hf.
  assert (changes_only merge_targets (json_copy (VObj doc)) modified) as Hall.
  { eapply changes_only_trans; [|eapply changes_only_trans].
    - eapply changes_only_weaken; [|exact Hp]. by apply includes_mono.
    - eapply changes_only_weaken; [|exact He]. by apply includes_mono.
    - eapply changes_only_weaken; [|exact Hf]. by apply includes_mono. }
  split; [done|]. split.
  - destruct modified as [ | | | | |doc'| ]; simpl in Hall; try done.
    assert (∀ k, k ∉ merge_targets → prop_get k doc' = json_copy <$> prop_get k doc)
      as Hcopy.
    { intros k Hk. rewrite <- prop_get_json_copy. symmetry.
      apply (changes_only_field merge_targets k (json_copy (VObj doc)) (VObj doc') Hall).
      destruct (Js.includes merge_targets k) eqn:E; [|done].
      by apply includes_spec in E. }
    exists doc'. split; [done|]. split; [done|]. split.
    + intros k v Hk Hv Hj. rewrite (Hcopy k Hk), Hv. simpl. by rewrite (json_copy_id _ Hj).
    + intros Hj. pose proof (json_copy_id _ Hj) as E. simpl in E. injection E as E.
      rewrite E in Hall. split; [done|].
      intros k Hk. rewrite (Hcopy k Hk).
      destruct (prop_get k doc) as [v|] eqn:Hv; [|done]. simpl.
      by rewrite (json_copy_id _ (prop_get_Forall_json _ _ _ Hj Hv)).
  - intros c Hc Hct.
    assert (field r "customizations" = Some (json_copy c)) as Hc1.
    { rewrite <- (changes_only_field _ "customizations" _ _ Hp) by done.
      simpl. by rewrite prop_get_json_copy, Hc. }
    destruct (merge_extensions_inside _ _ _ _ H_0 Hc1 Hct) as (c' & Hc' & Hrest).
    exists c'. split; [|done].
    rewrite <- (changes_only_field _ "customizations" _ _ Hf); done.
Qed.

End PatchFrame.

Section SetLemmas.

Context {A : Type} (eqb : A → A → bool).
Hypothesis eqb_eq : ∀ x y, eqb x y = true ↔ x = y.

Lemma existsb_eqb (x : A) (l : list A) : existsb (eqb x) l = true ↔ x ∈ l.
Proof.
  rewrite existsb_exists. split.
  - intros (y & Hy & ->%eqb_eq). by apply list_elem_of_In.
  - intros H. exists x. split; [by apply list_elem_of_In|by apply eqb_eq].
Qed.

(** Adding to a set keeps it free of repetitions and adds exactly the new
  elements. *)
Lemma set_add_all_spec (l set : list A) :
  NoDup set →
  NoDup (Js.set_add_all eqb set l)
  ∧ ∀ x, x ∈ Js.set_add_all eqb set l ↔ x ∈ set ∨ x ∈ l.
Proof.
  revert set. induction l as [|y l IH]; intros set Hnd; simpl.
  - split; [done|]. intros x. rewrite elem_of_nil. tauto.
  - destruct (existsb (eqb y) set) eqn:E.
    + apply existsb_eqb in E. destruct (IH set Hnd) as [Hnd' Hin].
      split; [done|]. intros x. rewrite Hin, elem_of_cons.
      split; [tauto|]. intros [?|[->|?]]; tauto.
    + assert (y ∉ set) as Hy.
      { intros Hy%existsb_eqb. congruence. }
      destruct (IH (set ++ [y])) as [Hnd' Hin].
      { apply NoDup_app. split; [done|]. split; [|apply NoDup_singleton].
        intros x Hx ->%list_elem_of_singleton. done. }
      split; [done|]. intros x.
      rewrite Hin, elem_of_app, list_elem_of_singleton, elem_of_cons. tauto.
Qed.

Lemma new_Set_spec (l : list A) :
  NoDup (Js.new_Set eqb l) ∧ ∀ x, x ∈ Js.new_Set eqb l ↔ x ∈ l.
Proof.
  destruct (set_add_all_spec l [] (NoDup_nil_2)) as [Hnd Hin].
  split; [done|]. intros x. unfold Js.new_Set. rewrite Hin, elem_of_nil. tauto.
Qed.

(** A list without repetitions is added to the empty set as it is. *)
Lemma set_add_all_NoDup (l set : list A) :
  NoDup (set ++ l) → Js.set_add_all eqb set l = set ++ l.
Proof.
  revert set. induction l as [|y l IH]; intros set Hnd; simpl.
  - by rewrite app_nil_r.
  - destruct (existsb (eqb y) set) eqn:E.
    + apply existsb_eqb in E. apply NoDup_app in Hnd as (_ & Hdisj & _).
      destruct (Hdisj y E). apply list_elem_of_here.
    + rewrite IH; rewrite <- app_assoc; done.
Qed.

End SetLemmas.

Section SetMap.

Context {A B : Type} (eqa : A → A → bool) (eqb : B → B → bool) (f : A → B).
Hypothesis eq_f : ∀ x y, eqb (f x) (f y) = eqa x y.

Lemma set_add_all_fmap (l set : list A) :
  Js.set_add_all eqb (f <$> set) (f <$> l) = f <$> Js.set_add_all eqa set l.
Proof.
  revert set. induction l as [|y l IH]; intros set; csimpl; [done|].
  replace (existsb (eqb (f y)) (f <$> set)) with (existsb (eqa y) set).
  - destruct (existsb (eqa y) set); [apply IH|].
    rewrite <- IH. by rewrite fmap_app.
  - induction set as [|z set IHs]; csimpl; [done|]. by rewrite eq_f, IHs.
Qed.

Lemma new_Set_fmap (l : list A) :
  Js.new_Set eqb (f <$> l) = f <$> Js.new_Set eqa l.
Proof. apply (set_add_all_fmap l []). Qed.

End SetMap.

Section Ports.

Import Obj MergeSpec ConfigGenerator.

Lemma integers_Some (items : list value) (l : list Z) :
  integers items = Some l ↔ items = VNum <$> l.
Proof.
  unfold integers. rewrite mapM_Some. split.
  - intros H. induction H as [|x n items l Hx _ IH]; csimpl; [done|].
    destruct x; try done. injection Hx as ->. by rewrite IH.
  - intros ->. induction l; csimpl; by constructor.
Qed.

Lemma forwarded_json_copy (doc : list (string * value)) (l : list Z) :
  forwarded doc = Some l →
  forwarded ((fun kv => (fst kv, json_copy (snd kv))) <$> doc) = Some l.
Proof.
  unfold forwarded. rewrite prop_get_json_copy.
  destruct (prop_get "forwardPorts" doc) as [[ | | | |items expando| |x]|]; csimpl;
    try done.
  intros E. apply integers_Some in E as ->. apply integers_Some.
  rewrite <- list_fmap_compose. done.
Qed.

Lemma same_value_zero_num (x y : Z) : same_value_zero (VNum x) (VNum y) = (x =? y).
Proof. done. Qed.

(** With ports to add, the merge stores the set of the existing and the new
  ports under [forwardPorts]. *)
Lemma merge_ports_union (analysis : PromptAnalysis) (doc : list (string * value))
    (existing : list Z) :
  forwarded doc = Some existing → ports analysis ≠ [] →
  merge_ports analysis (VObj doc)
  = Ok (VObj (prop_set "forwardPorts"
                (VArray (VNum <$> Js.new_Set Z.eqb (existing ++ ports analysis))) doc)).
Proof.
  intros Hfw Hports. unfold merge_ports. rewrite bool_decide_eq_true_2 by done.
  unfold forwarded in Hfw. simpl.
  assert (spread (or_empty (prop_get "forwardPorts" doc)) = Ok (VNum <$> existing)) as ->.
  { destruct (prop_get "forwardPorts" doc) as [[ | | | |items expando| | ]|]; try done.
    - apply integers_Some in Hfw as ->. done.
    - by injection Hfw as <-. }
  simpl. unfold union. rewrite <- fmap_app.
  by rewrite (new_Set_fmap Z.eqb same_value_zero VNum same_value_zero_num).
Qed.

Lemma forwarded_prop_set (doc : list (string * value)) (l : list Z) :
  forwarded (prop_set "forwardPorts" (VArray (VNum <$> l)) doc) = Some l.
Proof. unfold forwarded. rewrite prop_get_set_eq. by apply integers_Some. Qed.

(** [forwardPorts] read through a change elsewhere. *)
Lemma forwarded_changes (K : list string) (doc doc' : list (string * value)) :
  changes_only K (VObj doc) (VObj doc') → Js.includes K "forwardPorts" = false →
  forwarded doc' = forwarded doc.
Proof.
  intros H HK. unfold forwarded.
  pose proof (changes_only_field K "forwardPorts" (VObj doc) (VObj doc') H HK) as E.
  simpl in E. by rewrite E.
Qed.

(** Every block of a merge leaves an object an object. *)
Lemma changes_only_object (K : list string) (doc : list (string * value)) (b : value) :
  changes_only K (VObj doc) b → ∃ doc', b = VObj doc'.
Proof. destruct b; simpl; try done. eauto. Qed.

(** C7 (as amended). For an existing document whose [forwardPorts], where
  present, is a list of integers: the patched document's [forwardPorts] has
  exactly the ports of the document and of the feature set; when the feature
  set has a port it is the set of these without repetition, when it has none
  it is the document's list as it was. *)
Theorem applyModifications_ports (doc : list (string * value))
    (analysis : PromptAnalysis) (modified : value) (existing : list Z) :
  forwarded doc = Some existing →
  applyModifications (VObj doc) analysis = Ok modified →
  ∃ doc' merged,
    modified = VObj doc'
    ∧ forwarded doc' = Some merged
    ∧ (∀ p, p ∈ merged ↔ p ∈ existing ∨ p ∈ ports analysis)
    ∧ (ports analysis ≠ [] →
       NoDup merged
       ∧ prop_get "forwardPorts" doc' = Some (VArray (VNum <$> merged)))
    ∧ (ports analysis = [] → merged = existing).
Proof.
  intros Hfw H. unfold applyModifications in H. simpl json_copy in H.
  apply forwarded_json_copy in Hfw.
  set (copy := (fun kv => (fst kv, json_copy (snd kv))) <$> doc) in *.
  inv_bind H. inv_bind H.
  pose proof (merge_extensions_changes _ _ _ H_0) as He.
  pose proof (patch_features_changes _ _ _ H) as Hf.
  destruct (decide (ports analysis = [])) as [Hnil|Hports].
  - unfold merge_ports in H_1. rewrite bool_decide_eq_false_2 in H_1 by tauto.
    injection H_1 as <-.
    destruct (changes_only_object _ _ _ He) as (d1 & ->).
    destruct (changes_only_object _ _ _ Hf) as (d2 & ->).
    exists d2, existing. split; [done|]. split.
    { rewrite (forwarded_changes _ _ _ Hf), (forwarded_changes _ _ _ He); done. }
    split; [|split; [done|done]].
    intros p. rewrite Hnil, elem_of_nil. tauto.
  - rewrite (merge_ports_union _ _ _ Hfw Hports) in H_1. injection H_1 as <-.
    destruct (changes_only_object _ _ _ He) as (d1 & ->).
    destruct (changes_only_object _ _ _ Hf) as (d2 & ->).
    destruct (new_Set_spec Z.eqb Z.eqb_eq (existing ++ ports analysis)) as [Hnd Hin].
    exists d2, (Js.new_Set Z.eqb (existing ++ ports analysis)).
    split; [done|]. split.
    { rewrite (forwarded_changes _ _ _ Hf), (forwarded_changes _ _ _ He) by done.
      apply forwarded_prop_set. }
    split; [|split; [|done]].
    + intros p. by rewrite Hin, elem_of_app.
    + intros _. split; [done|].
      change (field (VObj d2) "forwardPorts"
              = Some (VArray (VNum <$> Js.new_Set Z.eqb (existing ++ ports analysis)))).
      rewrite <- (changes_only_field _ "forwardPorts" _ _ Hf) by done.
      rewrite <- (changes_only_field _ "forwardPorts" _ _ He) by done.
      apply prop_get_set_eq.
Qed.

End Ports.

Section Features.

Import Obj MergeSpec ConfigGenerator.

Implicit Types (config : value) (analysis : PromptAnalysis) (ids : list string).

Lemma prop_get_insert_all ids F (id : string) :
  prop_get id (insert_all ids F)
  = if bool_decide (id ∈ ids) then Some VEmpty else prop_get id F.
Proof.
  unfold insert_all. revert F. induction ids as [|i ids IH]; intros F; simpl; [done|].
  rewrite IH. destruct (decide (id = i)) as [->|Hne].
  - rewrite prop_get_set_eq.
    rewrite (bool_decide_eq_true_2 (i ∈ i :: ids)) by apply list_elem_of_here.
    by case_bool_decide.
  - rewrite prop_get_set_ne by done.
    case_bool_decide as Hin.
    + rewrite (bool_decide_eq_true_2 (id ∈ i :: ids)); [done|by apply list_elem_of_further].
    + rewrite (bool_decide_eq_false_2 (id ∈ i :: ids)); [done|].
      intros [?|?]%elem_of_cons; done.
Qed.

Lemma insert_all_app ids ids' F :
  insert_all (ids ++ ids') F = insert_all ids' (insert_all ids F).
Proof. apply foldl_app. Qed.

Lemma add_feature_entries config config' id :
  add_feature config id = Ok config' →
  ∃ f', field config' "features" = Some f' ∧ assignable f' = true
        ∧ entries (Some f') = prop_set id VEmpty (entries (field config "features")).
Proof.
  unfold add_feature. intros H.
  apply within_field in H as (f & f' & Hf & Hset & Hf').
  exists f'. split; [done|]. rewrite Hf.
  destruct f; simpl in Hset; try done; injection Hset as <-; done.
Qed.

Lemma add_database_features_entries dbs config config' :
  add_database_features dbs config = Ok config' →
  entries (field config' "features")
  = insert_all (inserted_databases dbs) (entries (field config "features"))
  ∧ (is_Some (field config "features") → is_Some (field config' "features")).
Proof.
  unfold add_database_features, inserted_databases.
  revert config'. induction dbs as [|db dbs IH] using rev_ind; intros config'; simpl.
  - intros [= <-]. done.
  - rewrite foldl_snoc, omap_app, insert_all_app. intros H. inv_bind H.
    destruct (IH _ H_1) as [IHe IHs]. simpl. destruct (database_feature db) as [id|].
    + apply add_feature_entries in H as (f' & Hf' & _ & He).
      rewrite Hf', He, IHe. split; [done|]. by eauto.
    + injection H as <-. simpl. by rewrite IHe.
Qed.

(** Making sure [features] is there adds no entry. *)
Lemma ensure_features_entries config config' :
  ensure config "features" VEmpty = Ok config' →
  entries (field config' "features") = entries (field config "features")
  ∧ is_Some (field config' "features").
Proof.
  intros H. apply ensure_field in H. rewrite H. split; [|by eauto].
  destruct (field config "features") as [f|]; [|done].
  destruct f as [ |[]|n|s| | |x]; simpl; try done.
  - by destruct (n =? 0).
  - by destruct (String.eqb s "").
  - by destruct x.
Qed.

Lemma optional_feature_entries (b : bool) config config' id :
  (if b then add_feature config id else Ok config) = Ok config' →
  entries (field config' "features")
  = insert_all (if b then [id] else []) (entries (field config "features"))
  ∧ (is_Some (field config "features") → is_Some (field config' "features")).
Proof.
  destruct b.
  - intros (f' & Hf' & _ & He)%add_feature_entries. rewrite Hf', He. by eauto.
  - by intros [= <-].
Qed.

Lemma patch_features_entries analysis config config' :
  patch_features analysis config = Ok config' →
  entries (field config' "features")
  = insert_all (inserted_databases (databases analysis) ++ inserted_tools (tools analysis))
      (entries (field config "features")).
Proof.
  unfold patch_features, inserted_tools. intros H. case_bool_decide as Hany.
  - inv_bind H. inv_bind H. inv_bind H.
    apply ensure_features_entries in H_1 as [E1 _].
    apply add_database_features_entries in H_0 as [E2 _].
    apply optional_feature_entries in H_2 as [E3 _].
    apply optional_feature_entries in H as [E4 _].
    rewrite E4, E3, E2, E1, !insert_all_app. done.
  - injection H as <-.
    apply Decidable.not_or in Hany as [Hdbs Htools].
    apply dec_stable in Hdbs. apply dec_stable in Htools.
    by rewrite Hdbs, Htools.
Qed.

Lemma add_databases_entries analysis config config' :
  add_databases analysis config = Ok config' →
  entries (field config' "features")
  = insert_all (inserted_databases (databases analysis)) (entries (field config "features")).
Proof.
  unfold add_databases. intros H. case_bool_decide as Hany.
  - inv_bind H. apply ensure_features_entries in H_1 as [E1 _].
    apply add_database_features_entries in H as [E2 _]. by rewrite E2, E1.
  - injection H as <-. by rewrite Hany.
Qed.

Lemma add_tool_feature_entries analysis tool id config config' :
  add_tool_feature analysis tool id config = Ok config' →
  entries (field config' "features")
  = insert_all (if Js.includes (tools analysis) tool then [id] else [])
      (entries (field config "features")).
Proof.
  unfold add_tool_feature. intros H. destruct (Js.includes _ _).
  - inv_bind H. apply ensure_features_entries in H_1 as [E1 _].
    apply add_feature_entries in H as (f' & Hf' & _ & He). by rewrite Hf', He, E1.
  - by injection H as <-.
Qed.

Lemma database_feature_spec (db id : string) :
  database_feature db = Some id ↔ (db, id) ∈ supported_databases.
Proof.
  unfold database_feature, supported_databases. split.
  - destruct (String.eqb_spec db "postgresql") as [->|?].
    { intros [= <-]. apply list_elem_of_here. }
    destruct (String.eqb_spec db "mongodb") as [->|?].
    { intros [= <-]. apply list_elem_of_further, list_elem_of_here. }
    destruct (String.eqb_spec db "redis") as [->|?]; [|done].
    intros [= <-]. do 2 apply list_elem_of_further. apply list_elem_of_here.
  - intros H. set_unfold.
    destruct H as [[= -> ->]|[[= -> ->]|[[= -> ->]|[]]]]; reflexivity.
Qed.

Lemma inserted_databases_spec (dbs : list string) (id : string) :
  id ∈ inserted_databases dbs ↔ ∃ tag, tag ∈ dbs ∧ (tag, id) ∈ supported_databases.
Proof.
  unfold inserted_databases. rewrite list_elem_of_omap.
  by setoid_rewrite database_feature_spec.
Qed.

Lemma inserted_tools_spec (tools : list string) (id : string) :
  id ∈ inserted_tools tools ↔ ∃ tag, tag ∈ tools ∧ (tag, id) ∈ supported_tools.
Proof.
  unfold inserted_tools, supported_tools. split.
  - intros [H|H]%elem_of_app.
    + destruct (Js.includes tools "docker") eqn:E; [|by apply elem_of_nil in H].
      apply includes_spec in E. apply list_elem_of_singleton in H as ->.
      exists "docker". split; [done|]. set_unfold. left. reflexivity.
    + destruct (Js.includes tools "git") eqn:E; [|by apply elem_of_nil in H].
      apply includes_spec in E. apply list_elem_of_singleton in H as ->.
      exists "git". split; [done|]. set_unfold. right. left. reflexivity.
  - intros (tag & Htag & H). set_unfold.
    destruct H as [[= -> ->]|[[= -> ->]|[]]]; apply includes_spec in Htag; rewrite Htag.
    + left. by left.
    + right. by left.
Qed.

Lemma inserted_spec (dbs tools : list string) (id : string) :
  id ∈ inserted_databases dbs ++ inserted_tools tools ↔ asks_for dbs tools id.
Proof.
  unfold asks_for. by rewrite elem_of_app, inserted_databases_spec, inserted_tools_spec.
Qed.

(** Inserting what is asked for gives the merged entries. *)
Lemma insert_all_merged (dbs tools : list string) (F : list (string * value)) :
  features_merged dbs tools F
    (insert_all (inserted_databases dbs ++ inserted_tools tools) F).
Proof.
  intros id. rewrite prop_get_insert_all. split; intros H.
  - rewrite bool_decide_eq_true_2; [done|by apply inserted_spec].
  - rewrite bool_decide_eq_false_2; [done|by rewrite inserted_spec].
Qed.

Lemma unsupported_inserts_nothing (dbs tools : list string) :
  unsupported_only dbs tools →
  inserted_databases dbs = [] ∧ inserted_tools tools = [].
Proof.
  intros [Hdbs Htools]. split.
  - apply elem_of_nil_inv. intros id (tag & Htag & Hid)%inserted_databases_spec.
    apply (Hdbs tag Htag). apply list_elem_of_fmap. by exists (tag, id).
  - apply elem_of_nil_inv. intros id (tag & Htag & Hid)%inserted_tools_spec.
    apply (Htools tag Htag). apply list_elem_of_fmap. by exists (tag, id).
Qed.

End Features.

Section FeatureClaims.

Import Obj MergeSpec ConfigGenerator.

Lemma applyModifications_entries (doc : list (string * value))
    (analysis : PromptAnalysis) (modified : value) :
  is_json (VObj doc) = true →
  applyModifications (VObj doc) analysis = Ok modified →
  entries (field modified "features")
  = insert_all (inserted_databases (databases analysis) ++ inserted_tools (tools analysis))
      (entries (prop_get "features" doc)).
Proof.
  intros Hjson H. unfold applyModifications in H.
  rewrite (json_copy_id _ Hjson) in H. inv_bind H. inv_bind H.
  apply merge_ports_changes in H_1. apply merge_extensions_changes in H_0.
  rewrite (patch_features_entries _ _ _ H).
  rewrite <- (changes_only_field _ "features" _ _ H_0) by done.
  rewrite <- (changes_only_field _ "features" _ _ H_1) by done.
  done.
Qed.

Lemma generateConfig_entries (template : TemplateManager.DevContainerTemplate)
    (analysis : PromptAnalysis) (config : value) :
  is_json (TemplateManager.config template) = true →
  generateConfig template analysis = Ok config →
  entries (field config "features")
  = insert_all (inserted_databases (databases analysis) ++ inserted_tools (tools analysis))
      (entries (field (TemplateManager.config template) "features")).
Proof.
  intros Hjson H. unfold generateConfig in H.
  rewrite (json_copy_id _ Hjson) in H. do 5 inv_bind H.
  apply merge_ports_changes in H_1. apply merge_extensions_changes in H_0.
  apply add_databases_entries in H_2. apply add_tool_feature_entries in H_3.
  apply add_tool_feature_entries in H_4. apply rename_changes in H.
  rewrite <- (changes_only_field _ "features" _ _ H) by done.
  rewrite H_4, H_3, H_2.
  rewrite <- (changes_only_field _ "features" _ _ H_0) by done.
  rewrite <- (changes_only_field _ "features" _ _ H_1) by done.
  unfold inserted_tools. by rewrite !insert_all_app.
Qed.

(** With no supported tag the database loop changes nothing. *)
Lemma add_database_features_unsupported (dbs : list string) (config : value) :
  inserted_databases dbs = [] → add_database_features dbs config = Ok config.
Proof.
  unfold add_database_features, inserted_databases.
  induction dbs as [|db dbs IH] using rev_ind; [done|].
  rewrite omap_app, foldl_snoc. intros [Hdbs Hdb]%app_eq_nil.
  rewrite (IH Hdbs). simpl in *. by destruct (database_feature db).
Qed.

Lemma inserted_tools_nil (tools : list string) :
  inserted_tools tools = [] ↔
  Js.includes tools "docker" = false ∧ Js.includes tools "git" = false.
Proof.
  unfold inserted_tools.
  destruct (Js.includes tools "docker"), (Js.includes tools "git"); simpl;
    split; try done; by intros [? ?].
Qed.

Lemma field_json_copy_None (v : value) (k : string) :
  field v k = None → field (json_copy v) k = None.
Proof.
  destruct v as [ | | | | | |[]]; simpl; try done.
  rewrite prop_get_json_copy. by intros ->.
Qed.

(** C10. On a document without [features], a patch with database or tool
  tags of which none is supported leaves an empty [features] object; the
  synthesis from a template without [features] creates the block exactly
  when there is a database tag or one of the tool tags docker and git. *)
Theorem features_block_creation (analysis : PromptAnalysis) :
  let dbs := databases analysis in
  let tls := tools analysis in
  (∀ doc modified,
     prop_get "features" doc = None →
     dbs ≠ [] ∨ tls ≠ [] →
     unsupported_only dbs tls →
     applyModifications (VObj doc) analysis = Ok modified →
     field modified "features" = Some VEmpty)
  ∧ (∀ template config,
       field (TemplateManager.config template) "features" = None →
       generateConfig template analysis = Ok config →
       (is_Some (field config "features")
        ↔ dbs ≠ [] ∨ "docker" ∈ tls ∨ "git" ∈ tls)).
Proof.
  intros dbs tls. subst dbs tls. split.
  - intros doc modified Hnone Hany [Hdbs Htools]%unsupported_inserts_nothing H.
    unfold applyModifications in H. inv_bind H. inv_bind H.
    apply merge_ports_changes in H_1. apply merge_extensions_changes in H_0.
    assert (field r0 "features" = None) as Hr0.
    { rewrite <- (changes_only_field _ "features" _ _ H_0) by done.
      rewrite <- (changes_only_field _ "features" _ _ H_1) by done.
      by apply field_json_copy_None. }
    unfold patch_features in H. rewrite bool_decide_eq_true_2 in H by done.
    apply inserted_tools_nil in Htools as [Hdocker Hgit].
    rewrite Hdocker, Hgit in H.
    inv_bind H. rewrite add_database_features_unsupported in H by done.
    simpl in H. injection H as <-.
    apply ensure_field in H_2. by rewrite Hr0 in H_2.
  - intros template config Hnone H.
    unfold generateConfig in H. do 5 inv_bind H.
    apply merge_ports_changes in H_1. apply merge_extensions_changes in H_0.
    apply rename_changes in H.
    assert (field r0 "features" = None) as Hr0.
    { rewrite <- (changes_only_field _ "features" _ _ H_0) by done.
      rewrite <- (changes_only_field _ "features" _ _ H_1) by done.
      by apply field_json_copy_None. }
    rewrite <- (changes_only_field _ "features" _ _ H) by done.
    clear H H_0 H_1.
    assert (is_Some (field r1 "features") ↔ databases analysis ≠ []) as Hr1.
    { unfold add_databases in H_2. case_bool_decide as Hd.
      - inv_bind H_2. apply ensure_features_entries in H_2_1 as [_ Hs].
        apply add_database_features_entries in H_2 as [_ Hkeep]. split; auto.
      - injection H_2 as <-. rewrite Hr0. split; [by intros [? ?]|done]. }
    assert (is_Some (field r2 "features")
            ↔ databases analysis ≠ [] ∨ "docker" ∈ tools analysis) as Hr2.
    { unfold add_tool_feature in H_3.
      destruct (Js.includes (tools analysis) "docker") eqn:E.
      - apply includes_spec in E. inv_bind H_3.
        apply add_feature_entries in H_3 as (f' & -> & _). split; eauto.
      - injection H_3 as <-. rewrite Hr1. split; [by auto|].
        intros [?|Hin%includes_spec]; [done|congruence]. }
    unfold add_tool_feature in H_4.
    destruct (Js.includes (tools analysis) "git") eqn:E.
    + apply includes_spec in E. inv_bind H_4.
      apply add_feature_entries in H_4 as (f' & -> & _). split; eauto.
    + injection H_4 as <-. rewrite Hr2. split; [tauto|].
      intros [?|[?|Hin%includes_spec]]; [by auto|by auto|congruence].
Qed.

End FeatureClaims.

(** ** The merges return on well-shaped documents *)

Section Returns.

Import Obj MergeSpec ConfigGenerator.

Implicit Types (config o : value) (analysis : PromptAnalysis) (k id : string).

Lemma changes_only_assignable (K : list string) (a b : value) :
  changes_only K a b → assignable b = assignable a.
Proof. destruct a, b; simpl; try done; by intros [= <-] || intros [=]. Qed.

Lemma get_returns o k : assignable o = true → get o k = Ok (field o k).
Proof. by destruct o. Qed.

Lemma set_returns o k (x : value) : assignable o = true → ∃ o', set o k x = Ok o'.
Proof. destruct o; try done; simpl; eauto. Qed.

Lemma ensure_returns o k (d : value) : assignable o = true → ∃ o', ensure o k d = Ok o'.
Proof.
  intros Ho. unfold ensure. rewrite get_returns by done. simpl.
  destruct (truthy_opt (field o k)); [eauto|by apply set_returns].
Qed.

Lemma within_returns o k (f : value → result value) (v v' : value) :
  assignable o = true → field o k = Some v → f v = Ok v' → ∃ o', within o k f = Ok o'.
Proof.
  intros Ho Hv Hf. unfold within. rewrite get_returns by done. simpl.
  rewrite Hv, Hf. simpl. by apply set_returns.
Qed.

Lemma merge_ports_returns analysis config :
  assignable config = true → spreads (field config "forwardPorts") = true →
  ∃ config', merge_ports analysis config = Ok config'.
Proof.
  intros Ho Hs. unfold merge_ports. case_bool_decide; [|eauto].
  rewrite get_returns by done. simpl. unfold spreads in Hs.
  destruct (spread (or_empty (field config "forwardPorts"))) as [l|]; [|done].
  simpl. by apply set_returns.
Qed.

(** After [if (!o.k) { o.k = d; }] the property holds an object. *)
Lemma ensure_object o o' k (d : value) :
  ensure o k d = Ok o' → holds_object (field o k) = true → assignable d = true →
  ∃ f, field o' k = Some f ∧ assignable f = true ∧ truthy f = true
       ∧ (truthy_opt (field o k) = true → field o k = Some f).
Proof.
  intros He Hk Hd. apply ensure_field in He. rewrite He.
  destruct (field o k) as [v|]; simpl in *.
  - destruct (truthy v) eqn:Ev.
    + exists v. rewrite orb_false_r in Hk. done.
    + exists d. repeat split; try done. by destruct d.
  - exists d. repeat split; try done. by destruct d.
Qed.

Lemma extensions_returns analysis (vscode : value) :
  assignable vscode = true → spreads (field vscode "extensions") = true →
  ∃ vscode',
    (vscode ← ensure vscode "extensions" (VArray []);
     current ← get vscode "extensions";
     existingExtensions ← spread (or_empty current);
     set vscode "extensions" (union existingExtensions (VStr <$> extensions analysis)))
    = Ok vscode'.
Proof.
  intros Hv Hs.
  destruct (ensure_returns vscode "extensions" (VArray []) Hv) as (v1 & E1).
  rewrite E1. simpl.
  assert (assignable v1 = true) as Hv1
    by (by rewrite (changes_only_assignable _ _ _ (ensure_changes _ _ _ _ E1))).
  rewrite get_returns by done. simpl.
  apply ensure_field in E1. rewrite E1. unfold spreads in Hs.
  destruct (field vscode "extensions") as [e|]; simpl in *.
  - destruct (truthy e) eqn:Ee; simpl in *.
    + rewrite Ee. destruct (spread e); [|done]. simpl. by apply set_returns.
    + by apply set_returns.
  - by apply set_returns.
Qed.

Lemma vscode_returns analysis (customizations : value) :
  assignable customizations = true → vscode_shape customizations = true →
  ∃ customizations',
    (customizations ← ensure customizations "vscode" VEmpty;
     within customizations "vscode" (fun vscode =>
       vscode ← ensure vscode "extensions" (VArray []);
       current ← get vscode "extensions";
       existingExtensions ← spread (or_empty current);
       set vscode "extensions" (union existingExtensions (VStr <$> extensions analysis))))
    = Ok customizations'.
Proof.
  intros Hc Hs.
  destruct (ensure_returns customizations "vscode" VEmpty Hc) as (c1 & E1).
  rewrite E1. simpl.
  assert (assignable c1 = true) as Hc1
    by (by rewrite (changes_only_assignable _ _ _ (ensure_changes _ _ _ _ E1))).
  apply ensure_field in E1. unfold vscode_shape in Hs.
  assert (∃ v, field c1 "vscode" = Some v ∧ assignable v = true
               ∧ spreads (field v "extensions") = true) as (v & Ev & Hv & Hsv).
  { rewrite E1. destruct (field customizations "vscode") as [v|]; [|by eexists].
    destruct (truthy v); [|by eexists].
    apply andb_true_iff in Hs as [? ?]. by exists v. }
  destruct (extensions_returns analysis v Hv Hsv) as (v' & Hv').
  by eapply within_returns.
Qed.

Lemma merge_extensions_returns analysis config :
  assignable config = true → extensions_shape config = true →
  ∃ config', merge_extensions analysis config = Ok config'.
Proof.
  intros Ho Hs. unfold merge_extensions. case_bool_decide; [|eauto].
  destruct (ensure_returns config "customizations" VEmpty Ho) as (c1 & E1).
  rewrite E1. simpl.
  assert (assignable c1 = true) as Hc1
    by (by rewrite (changes_only_assignable _ _ _ (ensure_changes _ _ _ _ E1))).
  apply ensure_field in E1. unfold extensions_shape in Hs.
  assert (∃ c, field c1 "customizations" = Some c ∧ assignable c = true
               ∧ vscode_shape c = true) as (c & Ec & Hc & Hsc).
  { rewrite E1. destruct (field config "customizations") as [c|]; [|by eexists].
    destruct (truthy c); [|by eexists].
    apply andb_true_iff in Hs as [? ?]. by exists c. }
  destruct (vscode_returns analysis c Hc Hsc) as (c' & Hc').
  by eapply within_returns.
Qed.

Lemma featured_holds config :
  featured config → assignable config = true ∧ holds_object (field config "features") = true.
Proof. intros (Ho & f & -> & Hf). simpl. by rewrite Hf. Qed.

Lemma ensure_features_returns config :
  assignable config = true → holds_object (field config "features") = true →
  ∃ config', ensure config "features" VEmpty = Ok config' ∧ featured config'.
Proof.
  intros Ho Hf. destruct (ensure_returns config "features" VEmpty Ho) as (c1 & E1).
  exists c1. split; [done|]. split.
  - by rewrite (changes_only_assignable _ _ _ (ensure_changes _ _ _ _ E1)).
  - destruct (ensure_object _ _ _ _ E1 Hf eq_refl) as (f & ? & ? & _). by exists f.
Qed.

Lemma add_feature_returns config id :
  featured config → ∃ config', add_feature config id = Ok config' ∧ featured config'.
Proof.
  intros (Ho & f & Ef & Hf). unfold add_feature.
  destruct (set_returns f id VEmpty Hf) as (f' & Ef').
  destruct (within_returns config "features" (fun features => set features id VEmpty)
              f f' Ho Ef Ef') as (c' & Ec').
  exists c'. split; [done|]. split.
  - by rewrite (changes_only_assignable _ _ _ (within_changes _ _ _ _ Ec')).
  - apply within_field in Ec' as (v & v' & Hv & Hset & Hv').
    exists v'. split; [done|]. rewrite Ef in Hv. injection Hv as <-.
    by rewrite (changes_only_assignable _ _ _ (set_changes _ _ _ _ Hset)).
Qed.

Lemma add_database_features_returns (dbs : list string) : ∀ config,
  featured config →
  ∃ config', add_database_features dbs config = Ok config' ∧ featured config'.
Proof.
  unfold add_database_features.
  induction dbs as [|db dbs IH]; intros config Hc; simpl; [by exists config|].
  destruct (database_feature db) as [id|]; [|by apply IH].
  destruct (add_feature_returns config id Hc) as (c' & -> & Hc'). by apply IH.
Qed.

Lemma patch_features_returns analysis config :
  assignable config = true → holds_object (field config "features") = true →
  ∃ config', patch_features analysis config = Ok config'.
Proof.
  intros Ho Hf. unfold patch_features. case_bool_decide; [|eauto].
  destruct (ensure_features_returns config Ho Hf) as (c1 & -> & H1). simpl.
  destruct (add_database_features_returns (databases analysis) c1 H1) as (c2 & -> & H2).
  simpl.
  assert (∃ c3, (if Js.includes (tools analysis) "docker"
                 then add_feature c2 docker_feature else Ok c2) = Ok c3
                ∧ featured c3) as (c3 & -> & H3).
  { destruct (Js.includes (tools analysis) "docker"); [|by exists c2].
    by apply add_feature_returns. }
  simpl. destruct (Js.includes (tools analysis) "git"); [|by exists c3].
  destruct (add_feature_returns c3 git_feature H3) as (c4 & -> & _). by exists c4.
Qed.

Lemma add_databases_returns analysis config :
  assignable config = true → holds_object (field config "features") = true →
  ∃ config', add_databases analysis config = Ok config'
             ∧ assignable config' = true
             ∧ holds_object (field config' "features") = true.
Proof.
  intros Ho Hf. unfold add_databases. case_bool_decide; [|by exists config].
  destruct (ensure_features_returns config Ho Hf) as (c1 & -> & H1). simpl.
  destruct (add_database_features_returns (databases analysis) c1 H1) as (c2 & -> & H2).
  exists c2. split; [done|]. by apply featured_holds.
Qed.

Lemma add_tool_feature_returns analysis (tool : string) id config :
  assignable config = true → holds_object (field config "features") = true →
  ∃ config', add_tool_feature analysis tool id config = Ok config'
             ∧ assignable config' = true
             ∧ holds_object (field config' "features") = true.
Proof.
  intros Ho Hf. unfold add_tool_feature.
  destruct (Js.includes (tools analysis) tool); [|by exists config].
  destruct (ensure_features_returns config Ho Hf) as (c1 & -> & H1). simpl.
  destruct (add_feature_returns c1 id H1) as (c2 & -> & H2).
  exists c2. split; [done|]. by apply featured_holds.
Qed.

Lemma rename_returns analysis config :
  assignable config = true → ∃ config', rename analysis config = Ok config'.
Proof.
  intros Ho. unfold rename. case_bool_decide; [|eauto]. by apply set_returns.
Qed.

Lemma well_shaped_inv config :
  well_shaped config = true →
  assignable config = true ∧ spreads (field config "forwardPorts") = true
  ∧ extensions_shape config = true ∧ holds_object (field config "features") = true.
Proof. unfold well_shaped. rewrite !andb_true_iff. tauto. Qed.

(** The first two blocks return, and leave [features] as it was. *)
Lemma ports_and_extensions_return analysis config :
  well_shaped config = true →
  ∃ c1 c2, merge_ports analysis config = Ok c1
           ∧ merge_extensions analysis c1 = Ok c2
           ∧ assignable c2 = true
           ∧ holds_object (field c2 "features") = true.
Proof.
  intros (Ho & Hp & He & Hf)%well_shaped_inv.
  destruct (merge_ports_returns analysis config Ho Hp) as (c1 & E1).
  pose proof (merge_ports_changes _ _ _ E1) as X1.
  assert (assignable c1 = true) as Ho1 by (by rewrite (changes_only_assignable _ _ _ X1)).
  assert (extensions_shape c1 = true) as He1.
  { unfold extensions_shape.
    rewrite <- (changes_only_field _ "customizations" _ _ X1) by done. exact He. }
  destruct (merge_extensions_returns analysis c1 Ho1 He1) as (c2 & E2).
  pose proof (merge_extensions_changes _ _ _ E2) as X2.
  exists c1, c2. split; [done|]. split; [done|]. split.
  - by rewrite (changes_only_assignable _ _ _ X2).
  - rewrite <- (changes_only_field _ "features" _ _ X2) by done.
    by rewrite <- (changes_only_field _ "features" _ _ X1) by done.
Qed.

(** [applyModifications] returns a document for every existing document that
  is well shaped at the three paths the merges work on. *)
Theorem applyModifications_returns (doc : list (string * value)) analysis :
  is_json (VObj doc) = true → well_shaped (VObj doc) = true →
  ∃ modified, applyModifications (VObj doc) analysis = Ok modified.
Proof.
  intros Hj Hw. unfold applyModifications. rewrite (json_copy_id _ Hj).
  destruct (ports_and_extensions_return analysis _ Hw) as (c1 & c2 & -> & E2 & Ho & Hf).
  simpl. rewrite E2. simpl. by apply patch_features_returns.
Qed.

(** Every template of the catalog has a configuration the merges work on. *)
Lemma catalog_well_shaped :
  Forall (fun t => is_json (TemplateManager.config t)
                   && well_shaped (TemplateManager.config t) = true)
    TemplateManager.templates.
Proof. unfold TemplateManager.templates. repeat constructor. Qed.

(** [generateConfig] returns a configuration for every template of the
  catalog and every feature set. *)
Theorem generateConfig_returns (template : TemplateManager.DevContainerTemplate)
    analysis :
  template ∈ TemplateManager.templates →
  ∃ config, generateConfig template analysis = Ok config.
Proof.
  intros Ht. pose proof catalog_well_shaped as Hall.
  rewrite Forall_forall in Hall. apply Hall in Ht.
  apply andb_true_iff in Ht as [Hj Hw].
  unfold generateConfig. rewrite (json_copy_id _ Hj).
  destruct (ports_and_extensions_return analysis _ Hw) as (c1 & c2 & -> & E2 & Ho & Hf).
  simpl. rewrite E2. simpl.
  destruct (add_databases_returns analysis c2 Ho Hf) as (c3 & -> & Ho3 & Hf3). simpl.
  destruct (add_tool_feature_returns analysis "docker" docker_feature c3 Ho3 Hf3)
    as (c4 & -> & Ho4 & Hf4). simpl.
  destruct (add_tool_feature_returns analysis "git" git_feature c4 Ho4 Hf4)
    as (c5 & -> & Ho5 & Hf5). simpl.
  by apply rename_returns.
Qed.

End Returns.

Section Witnesses.

Import Obj MergeSpec ConfigGenerator.

(** A feature set is checked for supported tags by looking each tag up. *)
Lemma unsupported_only_check (dbs tools : list string) :
  forallb (fun tag => negb (Js.includes (fst <$> supported_databases) tag)) dbs
  && forallb (fun tag => negb (Js.includes (fst <$> supported_tools) tag)) tools = true →
  unsupported_only dbs tools.
Proof.
  intros [Hdbs Htools]%andb_prop. rewrite forallb_forall in Hdbs, Htools.
  split; intros tag Htag%list_elem_of_In Hin%includes_spec.
  - apply Hdbs in Htag. by rewrite Hin in Htag.
  - apply Htools in Htag. by rewrite Hin in Htag.
Qed.

(** C5. In the patched document and in the synthesized one, the features
  block holds an empty options object under the fixed identifier of every
  supported database tag (postgresql, mongodb, redis) and supported tool tag
  (docker, git) of the feature set, and every other entry is as it was; a
  feature set with no supported tag adds no entry. Both operations do return
  such a document: the patch on every well-shaped document, the synthesis on
  every template of the catalog. *)
Theorem features_only_for_supported_tags (analysis : PromptAnalysis) :
  let dbs := databases analysis in
  let tls := tools analysis in
  (∀ doc modified,
     is_json (VObj doc) = true →
     applyModifications (VObj doc) analysis = Ok modified →
     features_merged dbs tls
       (entries (prop_get "features" doc)) (entries (field modified "features"))
     ∧ (unsupported_only dbs tls →
        entries (field modified "features") = entries (prop_get "features" doc)))
  ∧ (∀ template config,
       is_json (TemplateManager.config template) = true →
       generateConfig template analysis = Ok config →
       features_merged dbs tls
         (entries (field (TemplateManager.config template) "features"))
         (entries (field config "features"))
       ∧ (unsupported_only dbs tls →
          entries (field config "features")
          = entries (field (TemplateManager.config template) "features")))
  ∧ (∀ doc,
       is_json (VObj doc) = true → well_shaped (VObj doc) = true →
       ∃ modified,
         applyModifications (VObj doc) analysis = Ok modified
         ∧ features_merged dbs tls
             (entries (prop_get "features" doc)) (entries (field modified "features")))
  ∧ (∀ template,
       template ∈ TemplateManager.templates →
       ∃ config,
         generateConfig template analysis = Ok config
         ∧ features_merged dbs tls
             (entries (field (TemplateManager.config template) "features"))
             (entries (field config "features"))).
Proof.
  intros dbs tls. subst dbs tls. split; [|split; [|split]].
  - intros doc modified Hjson H.
    rewrite (applyModifications_entries _ _ _ Hjson H). split.
    + apply insert_all_merged.
    + intros [-> ->]%unsupported_inserts_nothing. done.
  - intros template config Hjson H.
    rewrite (generateConfig_entries _ _ _ Hjson H). split.
    + apply insert_all_merged.
    + intros [-> ->]%unsupported_inserts_nothing. done.
  - intros doc Hjson Hshape.
    destruct (applyModifications_returns doc analysis Hjson Hshape) as (modified & H).
    exists modified. split; [done|].
    rewrite (applyModifications_entries _ _ _ Hjson H). apply insert_all_merged.
  - intros template Ht.
    destruct (generateConfig_returns template analysis Ht) as (config & H).
    exists config. split; [done|].
    pose proof catalog_well_shaped as Hall. rewrite Forall_forall in Hall.
    pose proof (Hall template Ht) as [Hjson _]%andb_true_iff.
    rewrite (generateConfig_entries _ _ _ Hjson H). apply insert_all_merged.
Qed.

(** C4 on the sample document: the request changes ports, extensions and
  features, and the other fields stay. *)
Lemma applyModifications_frame_witness :
  ∃ doc',
    applyModifications (VObj Samples.document) Samples.request = Ok (VObj doc')
    ∧ without merge_targets doc' = without merge_targets Samples.document
    ∧ prop_get "x-team" doc' = prop_get "x-team" Samples.document.
Proof.
  edestruct (applyModifications_frame Samples.document Samples.request)
    as (_ & (doc' & E & _ & _ & Hj) & _).
  - vm_compute. reflexivity.
  - destruct Hj as [Hw Hk]; [vm_compute; reflexivity|].
    exists doc'. split; [by rewrite <- E|]. split; [exact Hw|].
    apply Hk. intros H. apply includes_spec in H. discriminate H.
Defined.

(** C4 as first stated fails on a document with a number that JSON text does
  not carry: the patch works on the JSON copy, in which [1e999] has become
  [null] and [-0] has become [0], though no merge rule targets these fields. *)
Lemma applyModifications_changes_numbers :
  ∃ modified,
    applyModifications (VObj Samples.extreme_numbers) Samples.port_request = Ok modified
    ∧ ("x-limit" ∉ merge_targets) ∧ ("x-offset" ∉ merge_targets)
    ∧ prop_get "x-limit" Samples.extreme_numbers = Some (VNonInt (Infinity false))
    ∧ field modified "x-limit" = Some VNull
    ∧ prop_get "x-offset" Samples.extreme_numbers = Some (VNonInt NegZero)
    ∧ field modified "x-offset" = Some (VNum 0).
Proof.
  eexists. split; [vm_compute; reflexivity|].
  split; [intros H; apply includes_spec in H; discriminate H|].
  split; [intros H; apply includes_spec in H; discriminate H|].
  repeat split; vm_compute; reflexivity.
Qed.

(** C7 on [forwardPorts: [3000]] and the port 8080. *)
Lemma applyModifications_ports_witness :
  ∃ doc' merged,
    applyModifications (VObj Samples.port_document) Samples.port_request = Ok (VObj doc')
    ∧ forwarded doc' = Some merged
    ∧ (∀ p, p ∈ merged ↔ p ∈ [3000] ∨ p ∈ [8080])
    ∧ NoDup merged.
Proof.
  edestruct (applyModifications_ports Samples.port_document Samples.port_request)
    as (doc' & merged & E & Hfw & Hin & Hnd & _).
  - vm_compute. reflexivity.
  - vm_compute. reflexivity.
  - exists doc', merged. split; [by rewrite <- E|]. split; [exact Hfw|].
    split; [exact Hin|]. apply Hnd. vm_compute. discriminate.
Defined.

(** The same patch, evaluated. *)
Example applyModifications_ports_3000_8080 :
  applyModifications (VObj Samples.port_document) Samples.port_request
  = Ok (VObj [("forwardPorts", VArray [VNum 3000; VNum 8080])]).
Proof. vm_compute. reflexivity. Qed.

(** C7 as first stated fails without a port in the feature set: the list of
  the document is kept with its repetition. *)
Lemma applyModifications_keeps_repeated_ports :
  ∃ modified,
    applyModifications (VObj Samples.repeated_ports) Samples.redis_request = Ok modified
    ∧ ports Samples.redis_request = []
    ∧ field modified "forwardPorts" = Some (VArray (VNum <$> [3000; 3000]))
    ∧ ¬ NoDup [3000; 3000].
Proof.
  eexists. split; [vm_compute; reflexivity|]. split; [vm_compute; reflexivity|].
  split; [vm_compute; reflexivity|].
  intros H. apply NoDup_cons in H as [H _]. apply H, list_elem_of_here.
Qed.

(** C5 on the sample document and on the Python template: Redis and git are
  supported, MySQL and vim are not. The patch and the synthesis both return
  a document with the two entries. *)
Lemma features_only_for_supported_tags_witness :
  (∃ modified,
     applyModifications (VObj Samples.document) Samples.request = Ok modified
     ∧ prop_get redis_feature (entries (field modified "features")) = Some VEmpty
     ∧ prop_get git_feature (entries (field modified "features")) = Some VEmpty)
  ∧ (∃ config,
       generateConfig TemplateManager.python Samples.request = Ok config
       ∧ prop_get redis_feature (entries (field config "features")) = Some VEmpty
       ∧ prop_get git_feature (entries (field config "features")) = Some VEmpty
       ∧ prop_get "ghcr.io/devcontainers/features/mysql:1"
           (entries (field config "features")) = None).
Proof.
  destruct (features_only_for_supported_tags Samples.request)
    as (_ & _ & Hpatch & Hsynthesis).
  assert (asks_for (databases Samples.request) (tools Samples.request) redis_feature)
    as Hredis.
  { left. exists "redis". split.
    - vm_compute. repeat constructor.
    - apply list_elem_of_further, list_elem_of_further, list_elem_of_here. }
  assert (asks_for (databases Samples.request) (tools Samples.request) git_feature)
    as Hgit.
  { right. exists "git". split.
    - vm_compute. repeat constructor.
    - apply list_elem_of_further, list_elem_of_here. }
  split.
  - destruct (Hpatch Samples.document) as (modified & Hc & Hm);
      [reflexivity|reflexivity|].
    exists modified. split; [exact Hc|].
    split; [by apply (Hm redis_feature)|by apply (Hm git_feature)].
  - destruct (Hsynthesis TemplateManager.python) as (config & Hc & Hm).
    { unfold TemplateManager.templates. apply list_elem_of_further, list_elem_of_here. }
    exists config. split; [exact Hc|].
    split; [by apply (Hm redis_feature)|]. split; [by apply (Hm git_feature)|].
    rewrite (proj2 (Hm "ghcr.io/devcontainers/features/mysql:1")); [reflexivity|].
    intros [(tag & _ & Hin)|(tag & _ & Hin)]; vm_compute in Hin;
      repeat (apply elem_of_cons in Hin as [[=]|Hin]); by apply elem_of_nil in Hin.
Defined.

(** C10 on a document without [features] and the tags mysql and vim. *)
Lemma features_block_creation_witness :
  (∃ modified,
     applyModifications (VObj Samples.plain_document) Samples.unsupported_request
     = Ok modified
     ∧ field modified "features" = Some VEmpty)
  ∧ (∃ config,
       generateConfig TemplateManager.docker_compose Samples.unsupported_request
       = Ok config
       ∧ is_Some (field config "features")).
Proof.
  split.
  - eexists. split; [vm_compute; reflexivity|].
    apply (proj1 (features_block_creation Samples.unsupported_request)
             Samples.plain_document).
    + reflexivity.
    + left. vm_compute. discriminate.
    + apply unsupported_only_check. vm_compute. reflexivity.
    + vm_compute. reflexivity.
  - destruct (generateConfig_returns TemplateManager.docker_compose
                Samples.unsupported_request) as (config & Hc).
    { unfold TemplateManager.templates.
      repeat (first [apply list_elem_of_here | apply list_elem_of_further]). }
    exists config. split; [exact Hc|].
    apply (proj2 (features_block_creation Samples.unsupported_request)
             TemplateManager.docker_compose config); [reflexivity|exact Hc|].
    left. vm_compute. discriminate.
Defined.

(** C6. When the workspace has no [devcontainer.json], [modifyConfiguration]
  throws the error of a missing configuration, and the files of the disk are
  what they were: nothing is created and nothing is changed. *)
Theorem modifyConfiguration_not_found (path_join : list string → string)
    (readRefused : string → gmap string file → option exn)
    (writeOutcome : string → value → gmap string file → write_outcome)
    (workspaceRoot modifications : string) (files : gmap string file) :
  files !! path_join [workspaceRoot; ".devcontainer"; "devcontainer.json"] = None →
  modifyConfiguration path_join readRefused writeOutcome workspaceRoot modifications files
  = (Throw ConfigNotFound, files).
Proof. intros H. unfold modifyConfiguration. by rewrite H. Qed.

Lemma modifyConfiguration_not_found_witness :
  modifyConfiguration Samples.path_join Samples.readable Samples.writable
    "/work/app" "add redis" {["/work/app/README.md" := JsonText VNull]}
  = (Throw ConfigNotFound, {["/work/app/README.md" := JsonText VNull]}).
Proof.
  apply modifyConfiguration_not_found. vm_compute. reflexivity.
Defined.

End Witnesses.

(** ** Global matching *)

Section Scan.

Import RegExp ScanSpec.

Implicit Types (prev : option ascii) (s a b m rest : subject).

Lemma before_nil prev : before prev [] = prev.
Proof. done. Qed.

Lemma before_cons prev c a : before prev (c :: a) = before (Some c) a.
Proof. unfold before. rewrite last_cons. by destruct (last a). Qed.

Lemma before_app prev a b : before prev (a ++ b) = before (before prev a) b.
Proof. unfold before. rewrite last_app. by destruct (last b). Qed.

Lemma before_last prev a : a ≠ [] → before prev a = last a.
Proof. intros H%last_is_Some. unfold before. by destruct H as [c ->]. Qed.

Lemma before_None a : before None a = last a.
Proof. unfold before. by destruct (last a). Qed.

Variable r : regex.

(** Every match of [r] is a non-empty prefix of the subject. *)
Hypothesis consumes : ∀ prev s rest,
  match_at r prev s = Some rest → ∃ m, s = m ++ rest ∧ m ≠ [].

(** Passing the code units of the last match. *)
Lemma match_all_skip prev a s :
  match_all_from r prev (a ++ s) (length a) = match_all_from r (before prev a) s 0.
Proof.
  revert prev. induction a as [|c a IH]; intros prev; [done|].
  rewrite before_cons, <- IH. done.
Qed.

(** At a position where [r] matches [m], the scan reports [m] and goes on
  after it. *)
Lemma match_all_hit prev m rest :
  match_at r prev (m ++ rest) = Some rest → m ≠ [] →
  match_all_from r prev (m ++ rest) 0
  = m :: match_all_from r (before prev m) rest 0.
Proof.
  intros Hm Hne. destruct m as [|c m]; [done|].
  rewrite before_cons, <- match_all_skip.
  simpl. simpl in Hm. rewrite Hm.
  replace (S (length (m ++ rest)) - length rest)%nat with (S (length m))
    by (rewrite length_app; lia).
  change (take (S (length m)) (c :: m ++ rest))
    with (c :: take (length m) (m ++ rest)).
  rewrite take_app_length. done.
Qed.

(** At a position where [r] does not match, the scan moves on by one. *)
Lemma match_all_miss prev c s :
  match_at r prev (c :: s) = None →
  match_all_from r prev (c :: s) 0 = match_all_from r (Some c) s 0.
Proof. intros H. simpl. simpl in H. by rewrite H. Qed.

Lemma match_all_end prev : match_all_from r prev [] 0 = [].
Proof.
  simpl. destruct (match_at r prev []) as [rest|] eqn:E; [|done].
  destruct (consumes _ _ _ E) as (m & Hm & Hne).
  symmetry in Hm. apply app_eq_nil in Hm as [-> _]. done.
Qed.

(** Every reported match is a match of [r] at its position in the subject. *)
Lemma match_all_sound (n : nat) : ∀ prev s m,
  (length s ≤ n)%nat →
  m ∈ match_all_from r prev s 0 →
  ∃ pre post, s = pre ++ m ++ post
              ∧ match_at r (before prev pre) (m ++ post) = Some post.
Proof.
  induction n as [|n IH]; intros prev s m Hlen Hin.
  - destruct s; [|simpl in Hlen; lia]. rewrite match_all_end in Hin.
    by apply elem_of_nil in Hin.
  - destruct (match_at r prev s) as [rest|] eqn:E.
    + destruct (consumes _ _ _ E) as (m0 & -> & Hne).
      rewrite (match_all_hit _ _ _ E Hne) in Hin.
      apply elem_of_cons in Hin as [->|Hin].
      * exists [], rest. done.
      * apply IH in Hin as (pre & post & -> & Hm).
        -- exists (m0 ++ pre), post. rewrite before_app, <- app_assoc. done.
        -- rewrite length_app in Hlen. destruct m0; [done|]. simpl in Hlen. lia.
    + destruct s as [|c s]; [by rewrite match_all_end in Hin; apply elem_of_nil in Hin|].
      rewrite (match_all_miss _ _ _ E) in Hin.
      apply IH in Hin as (pre & post & -> & Hm); [|simpl in Hlen; lia].
      exists (c :: pre), post. by rewrite before_cons.
Qed.

(** Positions at which a match may start; no position strictly inside a match
  is one. *)
Variable startable : option ascii → subject → Prop.

Hypothesis inside_not_startable : ∀ prev a b rest,
  a ≠ [] → b ≠ [] →
  match_at r prev (a ++ b ++ rest) = Some rest → ¬ startable (last a) (b ++ rest).

(** Every match of [r] at a position that may start one is reported. *)
Lemma match_all_complete (n : nat) : ∀ prev pre m post,
  (length pre ≤ n)%nat →
  match_at r (before prev pre) (m ++ post) = Some post →
  startable (before prev pre) (m ++ post) →
  m ∈ match_all_from r prev (pre ++ m ++ post) 0.
Proof.
  induction n as [|n IH]; intros prev pre m post Hlen Hm Hstart.
  - destruct pre; [|simpl in Hlen; lia].
    rewrite before_nil in Hm. rewrite app_nil_l.
    destruct (consumes _ _ _ Hm) as (m' & Hm' & Hne).
    apply app_inv_tail in Hm' as <-.
    rewrite (match_all_hit _ _ _ Hm Hne). apply list_elem_of_here.
  - destruct pre as [|c pre]; [by apply (IH prev []); [simpl; lia|..]|].
    destruct (match_at r prev ((c :: pre) ++ m ++ post)) as [rest0|] eqn:E.
    + destruct (consumes _ _ _ E) as (m0 & Hsplit & Hne).
      rewrite Hsplit in E |- *. rewrite (match_all_hit _ _ _ E Hne).
      apply list_elem_of_further.
      apply app_eq_inv in Hsplit as [(k & Hpre & ->)|(k & -> & Hk)].
      * rewrite Hpre, before_app in Hm, Hstart. apply IH; [|done..].
        assert (length (c :: pre) = length (m0 ++ k)) as Hl by by rewrite Hpre.
        rewrite length_app in Hl. destruct m0; [done|]. simpl in *. lia.
      * destruct (decide (k = [])) as [->|Hk0].
        -- rewrite app_nil_r in *. simpl in Hk. rewrite <- Hk.
           by apply (IH _ []); [simpl; lia|..].
        -- exfalso. rewrite <- app_assoc in E.
           apply (inside_not_startable prev (c :: pre) k rest0); [done|done|done|].
           rewrite <- Hk. by rewrite before_last in Hstart.
    + change ((c :: pre) ++ m ++ post) with (c :: (pre ++ m ++ post)) in E |- *.
      rewrite (match_all_miss _ _ _ E).
      rewrite before_cons in Hm, Hstart. apply IH; [simpl in Hlen; lia|done..].
Qed.

End Scan.

Section Repetition.

Import RegExp ScanSpec.

Implicit Types (prev : option ascii) (s a b rest : subject) (k : cont).

Variable p : ascii → bool.

(** A successful repetition took some run [a] of the class, of an allowed
  length, and the continuation succeeded after it. *)
Lemma rep_sound s : ∀ min max prev k res,
  rep p min max prev s k = Some res →
  ∃ a b, s = a ++ b ∧ Forall (fun c => p c = true) a
         ∧ (min ≤ length a)%nat ∧ within_max max (length a)
         ∧ k (before prev a) b = Some res.
Proof.
  induction s as [|c s IH]; intros min max prev k res H; simpl in H.
  - destruct min; [|done]. exists [], []. repeat split; try done.
    intros M _. simpl. lia.
  - assert (match min with O => k prev (c :: s) | S _ => None end = Some res →
            ∃ a b, c :: s = a ++ b ∧ Forall (fun c => p c = true) a
                   ∧ (min ≤ length a)%nat ∧ within_max max (length a)
                   ∧ k (before prev a) b = Some res) as Hstop.
    { destruct min; [|done]. intros Hk. exists [], (c :: s).
      repeat split; try done. intros M _. simpl. lia. }
    destruct (p c) eqn:Hc; [|by apply Hstop].
    destruct (match max with Some O => false | _ => true end) eqn:Hmax;
      [|by apply Hstop].
    simpl in H.
    destruct (rep p (Nat.pred min) (Nat.pred <$> max) (Some c) s k) as [res'|] eqn:E;
      [|by apply Hstop].
    injection H as ->.
    apply IH in E as (a & b & -> & Ha & Hmin & Hbound & Hk).
    exists (c :: a), b. rewrite before_cons. repeat split; try done.
    + by constructor.
    + simpl. lia.
    + intros M ->. destruct M; [done|]. specialize (Hbound M eq_refl). simpl. lia.
Qed.

(** The repetition is greedy: it succeeds with the run [a] when the
  continuation succeeds after [a] and after no longer run. *)
Lemma rep_complete a : ∀ b min max prev k res,
  Forall (fun c => p c = true) a →
  (min ≤ length a)%nat → within_max max (length a) →
  k (before prev a) b = Some res →
  (∀ a' b', a ++ b = a' ++ b' → (length a < length a')%nat →
            Forall (fun c => p c = true) a' → within_max max (length a') →
            k (before prev a') b' = None) →
  rep p min max prev (a ++ b) k = Some res.
Proof.
  induction a as [|c a IH]; intros b min max prev k res Ha Hmin Hbound Hk Hlonger.
  - simpl in Hmin. assert (min = O) as -> by lia. rewrite before_nil in Hk.
    destruct b as [|c b]; [done|]. simpl.
    destruct (p c) eqn:Hc; [|done].
    destruct (match max with Some O => false | _ => true end) eqn:Hmax; [|done].
    simpl.
    destruct (rep p O (Nat.pred <$> max) (Some c) b k) as [res'|] eqn:E; [|done].
    apply rep_sound in E as (a' & b' & -> & Ha' & _ & Hbound' & Hk').
    rewrite <- (before_cons prev) in Hk'.
    rewrite (Hlonger (c :: a') b') in Hk'; [done|done|simpl; lia|by constructor|].
    intros M ->. destruct M; [done|]. specialize (Hbound' M eq_refl). simpl. lia.
  - apply Forall_cons in Ha as [Hc Ha]. simpl. rewrite Hc.
    assert (match max with Some O => false | _ => true end = true) as ->.
    { destruct max as [[|M]|]; try done. specialize (Hbound O eq_refl). simpl in Hbound. lia. }
    simpl. rewrite before_cons in Hk. rewrite (IH b _ _ _ _ res); try done.
    + simpl in Hmin. lia.
    + intros M HM. destruct max as [M'|]; [|done]. injection HM as <-.
      specialize (Hbound M' eq_refl). simpl in Hbound. lia.
    + intros a' b' Heq Hlen Ha' Hbound'. rewrite <- (before_cons prev).
      apply Hlonger; [simpl; congruence|simpl; lia|by constructor|].
      intros M ->. destruct M.
      * specialize (Hbound O eq_refl). simpl in Hbound. lia.
      * specialize (Hbound' M eq_refl). simpl. lia.
Qed.

End Repetition.

Section CodeUnits.

(** Facts of the character classes, by inspection of the 256 code units. *)
Ltac by_cases c :=
  destruct c as [[] [] [] [] [] [] [] []]; vm_compute; intros; repeat split; congruence.

Lemma digit_is_word c : Js.is_digit c = true → Js.is_word c = true.
Proof. by_cases c. Qed.

Lemma digit_not_space c : Js.is_digit c = true → Js.is_space c = false.
Proof. by_cases c. Qed.

Lemma digit_not_p c : Js.is_digit c = true → Js.lower_char c ≠ "p"%char.
Proof. by_cases c. Qed.

Lemma space_not_p c : Js.is_space c = true → Js.lower_char c ≠ "p"%char.
Proof. by_cases c. Qed.

Lemma space_not_digit c : Js.is_space c = true → Js.is_digit c = false.
Proof. by_cases c. Qed.

Lemma letter_p c : Js.lower_char c = "p"%char → Js.is_word c = true ∧ Js.is_digit c = false.
Proof. by_cases c. Qed.

Lemma letter_o c : Js.lower_char c = "o"%char → Js.is_digit c = false.
Proof. by_cases c. Qed.

Lemma letter_r c : Js.lower_char c = "r"%char → Js.is_digit c = false.
Proof. by_cases c. Qed.

Lemma letter_t c : Js.lower_char c = "t"%char → Js.is_digit c = false.
Proof. by_cases c. Qed.

End CodeUnits.

(** ** Port extraction *)

Section PortPatterns.

Import RegExp ScanSpec PortSpec ConfigGenerator.

Implicit Types (prev : option ascii) (s a b ds ws kw rest : subject).

Lemma longer_run a b a' b' :
  a ++ b = a' ++ b' → (length a < length a')%nat →
  ∃ c k, a' = a ++ c :: k ∧ b = c :: k ++ b'.
Proof.
  intros [(k & -> & ->)|(k & -> & ->)]%app_eq_inv Hlen.
  - rewrite length_app in Hlen. lia.
  - destruct k as [|c k]; [rewrite app_nil_r in Hlen; lia|]. by exists c, k.
Qed.

Lemma digits_word_ends ds b :
  ds ≠ [] → all Js.is_digit ds →
  is_word_at (last ds) = true ∧ is_word_at (head (ds ++ b)) = true.
Proof.
  intros Hne Hall. split.
  - apply last_is_Some in Hne as [c Hc]. rewrite Hc. simpl. apply digit_is_word.
    apply last_Some_elem_of in Hc. by apply (proj1 (Forall_forall _ _) Hall).
  - destruct ds as [|c ds]; [done|]. simpl. apply digit_is_word.
    by apply Forall_cons in Hall as [? _].
Qed.

(** Digits up to a word boundary: the run cannot be a longer one. *)
Lemma digits_to_boundary ds rest min max prev :
  all Js.is_digit ds → ds ≠ [] → is_word_at (head rest) = false →
  (min ≤ length ds)%nat → within_max max (length ds) →
  rep Js.is_digit min max prev (ds ++ rest) at_boundary = Some rest.
Proof.
  intros Hall Hne Hrest Hmin Hmax.
  apply rep_complete; try done.
  - unfold at_boundary. rewrite before_last by done.
    destruct (digits_word_ends ds rest Hne Hall) as [-> _]. by rewrite Hrest.
  - intros a' b' Heq Hlen Ha' _.
    destruct (longer_run _ _ _ _ Heq Hlen) as (c & k & -> & ->).
    apply Forall_app in Ha' as [_ [Hc _]%Forall_cons].
    simpl in Hrest. by rewrite (digit_is_word _ Hc) in Hrest.
Qed.

Lemma digits_from_boundary s min max prev rest :
  (1 ≤ min)%nat →
  rep Js.is_digit min max prev s at_boundary = Some rest →
  ∃ ds, s = ds ++ rest ∧ all Js.is_digit ds ∧ ds ≠ []
        ∧ (min ≤ length ds)%nat ∧ within_max max (length ds)
        ∧ is_word_at (head rest) = false.
Proof.
  intros Hmin (ds & b & -> & Hall & Hlen & Hmax & Hk)%rep_sound.
  assert (ds ≠ []) as Hne by (destruct ds; [simpl in Hlen; lia|done]).
  unfold at_boundary in Hk. rewrite before_last in Hk by done.
  destruct (digits_word_ends ds b Hne Hall) as [Hlast _]. rewrite Hlast in Hk.
  destruct (is_word_at (head b)) eqn:Hb; [done|]. injection Hk as <-.
  by exists ds.
Qed.

(** What [/\b(\d{4,5})\b/] matches at a position. *)
Lemma standalone_match prev s rest :
  match_at standalonePortPattern prev s = Some rest ↔
  ∃ ds, s = ds ++ rest ∧ all Js.is_digit ds ∧ (4 ≤ length ds ≤ 5)%nat
        ∧ is_word_at prev = false ∧ is_word_at (head rest) = false.
Proof.
  unfold match_at, standalonePortPattern, word. simpl exec.
  change (fun prev' s' => if xorb (is_word_at prev') (is_word_at (head s'))
                          then Some s' else None) with at_boundary.
  split.
  - destruct (xorb (is_word_at prev) (is_word_at (head s))) eqn:Hx; [|done].
    intros (ds & -> & Hall & Hne & Hmin & Hmax & Hrest)%digits_from_boundary; [|lia].
    exists ds. repeat split; try done.
    + by apply Hmax.
    + destruct (digits_word_ends ds rest Hne Hall) as [_ Hhead].
      rewrite Hhead in Hx. by destruct (is_word_at prev).
  - intros (ds & -> & Hall & [Hmin Hmax] & Hprev & Hrest).
    assert (ds ≠ []) as Hne by (destruct ds; [simpl in Hmin; lia|done]).
    destruct (digits_word_ends ds rest Hne Hall) as [_ Hhead].
    rewrite Hprev, Hhead. simpl.
    apply digits_to_boundary; try done. by intros M [= <-].
Qed.

Lemma is_port_inv kw :
  is_port kw ↔
  ∃ c1 c2 c3 c4, kw = [c1; c2; c3; c4]
    ∧ Js.lower_char c1 = "p"%char ∧ Js.lower_char c2 = "o"%char
    ∧ Js.lower_char c3 = "r"%char ∧ Js.lower_char c4 = "t"%char.
Proof.
  unfold is_port. split.
  - destruct kw as [|c1 [|c2 [|c3 [|c4 [|]]]]]; try done.
    intros [= H1 H2 H3 H4]. by exists c1, c2, c3, c4.
  - intros (c1 & c2 & c3 & c4 & -> & H1 & H2 & H3 & H4).
    simpl. by rewrite H1, H2, H3, H4.
Qed.

(** What [/\bport\s+(\d+)\b/i] matches at a position. *)
Lemma port_match prev s rest :
  match_at portPattern prev s = Some rest ↔
  ∃ kw ws ds, s = kw ++ ws ++ ds ++ rest
    ∧ is_port kw ∧ ws ≠ [] ∧ all Js.is_space ws ∧ ds ≠ [] ∧ all Js.is_digit ds
    ∧ is_word_at prev = false ∧ is_word_at (head rest) = false.
Proof.
  unfold match_at, portPattern. simpl exec.
  change (fun prev' s' => if xorb (is_word_at prev') (is_word_at (head s'))
                          then Some s' else None) with at_boundary.
  split.
  - destruct (xorb (is_word_at prev) (is_word_at (head s))) eqn:Hx; [|done].
    destruct s as [|c1 [|c2 [|c3 [|c4 s]]]];
      repeat (simpl; match goal with
              | |- context [Ascii.eqb ?x ?y] => destruct (Ascii.eqb_spec x y)
              end); try done.
    intros (ws & b & -> & Hws & Hwlen & _ & Hk)%rep_sound.
    apply digits_from_boundary in Hk as (ds & -> & Hds & Hne & _ & _ & Hrest); [|lia].
    exists [c1; c2; c3; c4], ws, ds. repeat split; try done.
    + apply is_port_inv. by exists c1, c2, c3, c4.
    + destruct ws; [simpl in Hwlen; lia|done].
    + simpl in Hx. rewrite (proj1 (letter_p c1 ltac:(done))) in Hx.
      by destruct (is_word_at prev).
  - intros (kw & ws & ds & -> & (c1 & c2 & c3 & c4 & -> & H1 & H2 & H3 & H4)%is_port_inv
            & Hwne & Hws & Hdne & Hds & Hprev & Hrest).
    simpl. rewrite Hprev, (proj1 (letter_p c1 H1)). simpl.
    rewrite H1, H2, H3, H4. simpl.
    apply rep_complete; try done.
    + destruct ws; [done|simpl; lia].
    + apply digits_to_boundary; try done. destruct ds; [done|simpl; lia].
    + intros a' b' Heq Hlen Ha' _.
      destruct (longer_run _ _ _ _ Heq Hlen) as (c & k & -> & Hd).
      apply Forall_app in Ha' as [_ [Hc _]%Forall_cons].
      destruct ds as [|d ds]; [done|]. simpl in Hd. injection Hd as -> _.
      apply Forall_cons in Hds as [Hd _].
      by rewrite (digit_not_space _ Hd) in Hc.
Qed.

End PortPatterns.

Section PortExtraction.

Import RegExp ScanSpec PortSpec ConfigGenerator.

Implicit Types (prev : option ascii) (s a b ds ws kw rest m text : subject).

Lemma standalone_consumes prev s rest :
  match_at standalonePortPattern prev s = Some rest → ∃ m, s = m ++ rest ∧ m ≠ [].
Proof.
  intros (ds & -> & _ & [Hmin _] & _)%standalone_match.
  exists ds. split; [done|]. destruct ds; [simpl in Hmin; lia|done].
Qed.

Lemma port_consumes prev s rest :
  match_at portPattern prev s = Some rest → ∃ m, s = m ++ rest ∧ m ≠ [].
Proof.
  intros (kw & ws & ds & -> & _ & Hws & _)%port_match.
  exists (kw ++ ws ++ ds). rewrite <- !app_assoc. split; [done|].
  destruct kw, ws; done.
Qed.

(** A bare number starts after a code unit that is no word character; inside
  a match the code unit before is a digit. *)
Lemma standalone_inside prev a b rest :
  a ≠ [] → b ≠ [] →
  match_at standalonePortPattern prev (a ++ b ++ rest) = Some rest →
  ¬ (fun prev' (_ : subject) => is_word_at prev' = false) (last a) (b ++ rest).
Proof.
  intros Ha Hb (ds & Heq & Hall & _)%standalone_match Hlast.
  rewrite app_assoc in Heq. apply app_inv_tail in Heq as <-.
  apply Forall_app in Hall as [Hall _].
  destruct (digits_word_ends a [] Ha Hall) as [Hw _]. congruence.
Qed.

Lemma port_inside prev a b rest :
  a ≠ [] → b ≠ [] →
  match_at portPattern prev (a ++ b ++ rest) = Some rest →
  ¬ starts_with_p (last a) (b ++ rest).
Proof.
  intros Ha Hb (kw & ws & ds & Heq & (c1 & c2 & c3 & c4 & -> & H1 & H2 & H3 & H4)%is_port_inv
                & _ & Hws & _ & Hds & _)%port_match (c & Hc & Hp).
  rewrite !app_assoc in Heq. apply app_inv_tail in Heq.
  destruct a as [|x a]; [done|]. simpl in Heq. injection Heq as -> Heq.
  assert (Forall (fun c => Js.lower_char c ≠ "p"%char) (a ++ b)) as Hnot.
  { rewrite Heq. repeat apply Forall_cons_2; try congruence.
    apply Forall_app. split.
    - eapply Forall_impl; [exact Hws|]. apply space_not_p.
    - eapply Forall_impl; [exact Hds|]. apply digit_not_p. }
  apply Forall_app in Hnot as [_ Hnot].
  destruct b as [|y b]; [done|]. simpl in Hc. injection Hc as ->.
  by apply Forall_cons in Hnot as [? _].
Qed.

(** The matches of the global scan are the matches at the positions of the
  text. *)
Lemma standalone_matches text m :
  m ∈ match_all_from standalonePortPattern None text 0 ↔
  occurs standalonePortPattern text m.
Proof.
  unfold occurs. split.
  - intros (pre & post & -> & H)%(match_all_sound _ standalone_consumes (length text));
      [|done].
    rewrite before_None in H. by exists pre, post.
  - intros (pre & post & -> & H).
    apply (match_all_complete _ standalone_consumes _ standalone_inside (length pre));
      rewrite ?before_None; try done.
    by apply standalone_match in H as (? & _ & _ & _ & ? & _).
Qed.

Lemma port_matches text m :
  m ∈ match_all_from portPattern None text 0 ↔ occurs portPattern text m.
Proof.
  unfold occurs. split.
  - intros (pre & post & -> & H)%(match_all_sound _ port_consumes (length text));
      [|done].
    rewrite before_None in H. by exists pre, post.
  - intros (pre & post & -> & H).
    apply (match_all_complete _ port_consumes _ port_inside (length pre));
      rewrite ?before_None; try done.
    apply port_match in H
      as (kw & ws & ds & Heq & (c1 & ? & ? & ? & -> & H1 & _)%is_port_inv & _).
    exists c1. rewrite Heq. done.
Qed.

Lemma remove_nondigits_list (l : subject) :
  Js.remove_nondigits (string_of_list_ascii l)
  = string_of_list_ascii (List.filter Js.is_digit l).
Proof.
  induction l as [|c l IH]; simpl; [done|]. destruct (Js.is_digit c); simpl; by rewrite IH.
Qed.

Lemma filter_all (p : ascii → bool) (l : subject) : all p l → List.filter p l = l.
Proof.
  induction 1 as [|c l Hc _ IH]; simpl; [done|]. by rewrite Hc, IH.
Qed.

Lemma filter_none (p : ascii → bool) (l : subject) :
  Forall (fun c => p c = false) l → List.filter p l = [].
Proof.
  induction 1 as [|c l Hc _ IH]; simpl; [done|]. by rewrite Hc, IH.
Qed.

(** The digits of a mention are what is left of the match without its
  non-digits. *)
Lemma mention_digits kw ws ds :
  is_port kw → all Js.is_space ws → all Js.is_digit ds →
  List.filter Js.is_digit (kw ++ ws ++ ds) = ds.
Proof.
  intros (c1 & c2 & c3 & c4 & -> & H1 & H2 & H3 & H4)%is_port_inv Hws Hds.
  rewrite !List.filter_app, (filter_all _ ds Hds).
  rewrite (filter_none _ ws) by (eapply Forall_impl; [exact Hws|apply space_not_digit]).
  simpl. by rewrite (proj2 (letter_p _ H1)), (letter_o _ H2), (letter_r _ H3), (letter_t _ H4).
Qed.

Lemma digits_value_list ds (acc : Z) :
  all Js.is_digit ds →
  Js.digits_value acc (string_of_list_ascii ds)
  = fold_left (fun acc c => 10 * acc + Js.digit_value c) ds acc.
Proof.
  intros H. revert acc. induction H as [|c ds Hc _ IH]; intros acc; simpl; [done|].
  by rewrite Hc, IH.
Qed.

Lemma parseInt_digit (c : ascii) (t : string) :
  Js.is_digit c = true →
  Js.parseInt (String c t) = Some (Js.digits_value 0 (String c t)).
Proof.
  destruct c as [[] [] [] [] [] [] [] []]; intros H; vm_compute in H;
    try discriminate H; reflexivity.
Qed.

(** [parseInt] of a run of digits is the number they write. *)
Lemma parseInt_digits ds :
  ds ≠ [] → all Js.is_digit ds → Js.parseInt (string_of_list_ascii ds) = Some (decimal ds).
Proof.
  intros Hne Hall. unfold decimal. rewrite <- digits_value_list by done.
  destruct ds as [|c ds]; [done|]. apply parseInt_digit.
  by apply Forall_cons in Hall as [? _].
Qed.

Lemma in_explicitPorts (prompt : string) (p : Z) :
  p ∈ explicitPorts prompt ↔
  ∃ ds, port_mention (list_ascii_of_string prompt) ds ∧ decimal ds = p ∧ 1 ≤ p ≤ 65535.
Proof.
  unfold explicitPorts, numbers, match_all.
  rewrite list_elem_of_filter, list_elem_of_omap.
  setoid_rewrite list_elem_of_fmap. split.
  - intros (Hrange & ? & (m & -> & Hm%port_matches) & Hp).
    destruct Hm as (pre & post & Htext & (kw & ws & ds & Heq & Hkw & Hwne & Hws & Hdne
                                            & Hds & Hprev & Hpost)%port_match).
    rewrite !app_assoc in Heq. apply app_inv_tail in Heq.
    rewrite <- !app_assoc in Heq. subst m.
    rewrite remove_nondigits_list, mention_digits, parseInt_digits in Hp by done.
    injection Hp as <-. exists ds. split; [|split; [done|lia]].
    exists pre, kw, ws, post. rewrite Htext, <- !app_assoc. done.
  - intros (ds & (pre & kw & ws & post & Htext & Hpre & Hkw & Hwne & Hws & Hdne & Hds & Hpost)
            & Hp & Hrange).
    split; [lia|]. exists (string_of_list_ascii (kw ++ ws ++ ds)). split.
    + exists (kw ++ ws ++ ds). split; [done|]. apply port_matches.
      exists pre, post. rewrite <- !app_assoc. split; [done|].
      apply port_match. by exists kw, ws, ds.
    + rewrite remove_nondigits_list, mention_digits, parseInt_digits by done.
      by rewrite Hp.
Qed.

Lemma in_standalonePorts (prompt : string) (p : Z) :
  p ∈ standalonePorts prompt ↔
  ∃ ds, bare_number (list_ascii_of_string prompt) ds ∧ decimal ds = p ∧ 3000 ≤ p ≤ 9999.
Proof.
  unfold standalonePorts, numbers, match_all.
  rewrite list_elem_of_filter, list_elem_of_omap.
  setoid_rewrite list_elem_of_fmap. split.
  - intros (Hrange & ? & (m & -> & Hm%standalone_matches) & Hp).
    destruct Hm as (pre & post & Htext & (ds & Heq & Hds & Hlen & Hprev & Hpost)%standalone_match).
    apply app_inv_tail in Heq. subst m.
    assert (ds ≠ []) as Hne by (destruct ds; [simpl in Hlen; lia|done]).
    rewrite parseInt_digits in Hp by done. injection Hp as <-.
    exists ds. split; [|done]. by exists pre, post.
  - intros (ds & (pre & post & Htext & Hpre & Hds & Hlen & Hpost) & Hp & Hrange).
    assert (ds ≠ []) as Hne by (destruct ds; [simpl in Hlen; lia|done]).
    split; [done|]. exists (string_of_list_ascii ds). split.
    + exists ds. split; [done|]. apply standalone_matches.
      exists pre, post. split; [done|]. apply standalone_match. by exists ds.
    + rewrite parseInt_digits by done. by rewrite Hp.
Qed.

(** C3. The ports extracted from a text are, without repetition, the numbers
  from 1 to 65535 that follow the word [port] and the bare numbers of four or
  five digits from 3000 to 9999. So a text with [port 8080] between word
  boundaries yields 8080, a bare [3005] is included, 99999 is never
  extracted, and 50 is extracted only where it follows the word [port]. *)
Theorem allPorts_two_passes (prompt : string) :
  let text := list_ascii_of_string prompt in
  NoDup (allPorts prompt)
  ∧ (∀ p, p ∈ allPorts prompt ↔
          (∃ ds, port_mention text ds ∧ decimal ds = p ∧ 1 ≤ p ≤ 65535)
          ∨ (∃ ds, bare_number text ds ∧ decimal ds = p ∧ 3000 ≤ p ≤ 9999))
  ∧ (∀ pre post,
       text = pre ++ list_ascii_of_string "port 8080" ++ post →
       boundary_before pre → boundary_after post → 8080 ∈ allPorts prompt)
  ∧ (∀ pre post,
       text = pre ++ list_ascii_of_string "3005" ++ post →
       boundary_before pre → boundary_after post → 3005 ∈ allPorts prompt)
  ∧ (99999 ∉ allPorts prompt)
  ∧ (50 ∈ allPorts prompt → ∃ ds, port_mention text ds ∧ decimal ds = 50).
Proof.
  intros text.
  destruct (new_Set_spec Z.eqb Z.eqb_eq (explicitPorts prompt ++ standalonePorts prompt))
    as [Hnd Hin].
  assert (∀ p, p ∈ allPorts prompt ↔
               (∃ ds, port_mention text ds ∧ decimal ds = p ∧ 1 ≤ p ≤ 65535)
               ∨ (∃ ds, bare_number text ds ∧ decimal ds = p ∧ 3000 ≤ p ≤ 9999)) as Hiff.
  { intros p. unfold allPorts.
    by rewrite Hin, elem_of_app, in_explicitPorts, in_standalonePorts. }
  split; [done|]. split; [done|]. split; [|split; [|split]].
  - intros pre post Htext Hpre Hpost. apply Hiff. left.
    exists (list_ascii_of_string "8080"). split; [|done].
    exists pre, (list_ascii_of_string "port"), (list_ascii_of_string " "), post.
    rewrite Htext. repeat split; try done; repeat constructor.
  - intros pre post Htext Hpre Hpost. apply Hiff. right.
    exists (list_ascii_of_string "3005"). split; [|done].
    exists pre, post. rewrite Htext. repeat split; try done; repeat constructor.
  - intros [(ds & _ & Hp & Hrange)|(ds & _ & Hp & Hrange)]%Hiff; lia.
  - intros [(ds & Hm & Hp & _)|(ds & _ & Hp & Hrange)]%Hiff; [by exists ds|lia].
Qed.

(** C3 on a request that names its port. *)
Lemma allPorts_two_passes_witness :
  8080 ∈ allPorts "start the api on port 8080 please".
Proof.
  apply (proj1 (proj2 (proj2 (allPorts_two_passes "start the api on port 8080 please")))
           (list_ascii_of_string "start the api on ") (list_ascii_of_string " please"));
    reflexivity.
Defined.

(** The examples of C3, evaluated. *)
Example allPorts_examples :
  allPorts "serve on port 8080" = [8080]
  ∧ allPorts "the api listens on 3005" = [3005]
  ∧ allPorts "batch 99999 of 50" = []
  ∧ allPorts "PORT 443, port 3005 and 3005 again" = [443; 3005].
Proof. vm_compute. done. Qed.

End PortExtraction.

(** ** The generator and the catalog's objects *)

Section HeapFrame.

Import Obj ConfigGenerator Heap HeapSpec.

Variable σ0 : heap.

Let n : nat := length σ0.

Implicit Types (σ : heap) (v o x : hval) (c : cell) (l : loc).

Lemma run_bind {A B} (m : M A) (f : A → M B) σ :
  (m ≫= f) σ = match m σ with
               | (Ok a, σ') => f a σ'
               | (Throw e, σ') => (Throw e, σ')
               end.
Proof. done. Qed.

Lemma extends_refl : extends σ0 σ0.
Proof. exists []. by rewrite app_nil_r. Qed.

Lemma safe_ret {A} (P : A → Prop) (a : A) : P a → safe σ0 P (mret a).
Proof. intros HP σ Hσ. split; [done|]. by intros a' [= <-]. Qed.

Lemma safe_throw {A} (P : A → Prop) (e : exn) : safe σ0 P (throw e).
Proof. intros σ Hσ. split; [done|]. by intros a' [=]. Qed.

Lemma safe_bind {A B} (Q : A → Prop) (P : B → Prop) (m : M A) (f : A → M B) :
  safe σ0 Q m → (∀ a, Q a → safe σ0 P (f a)) → safe σ0 P (m ≫= f).
Proof.
  intros Hm Hf σ Hσ. rewrite run_bind. destruct (Hm σ Hσ) as [Hext HQ].
  destruct (m σ) as [[a|e] σ']; simpl in *.
  - by apply Hf; [apply HQ|].
  - split; [done|]. by intros a' [=].
Qed.

Lemma safe_weaken {A} (P Q : A → Prop) (m : M A) :
  (∀ a, P a → Q a) → safe σ0 P m → safe σ0 Q m.
Proof. intros HPQ Hm σ Hσ. destruct (Hm σ Hσ) as [? HP]. split; [done|]. by auto. Qed.

Lemma safe_alloc c : cell_fresh n c → safe σ0 (val_fresh n) (alloc c).
Proof.
  intros Hc σ (h & -> & Hh). unfold alloc. simpl. split.
  - exists (h ++ [c]). rewrite app_assoc. split; [done|].
    apply Forall_app. split; [done|]. by constructor.
  - intros a [= <-]. simpl. rewrite length_app. unfold n. lia.
Qed.

(** A reference that is not below [n] leads to a cell that holds none
  below [n]. *)
Lemma safe_deref l : (n ≤ l)%nat → safe σ0 (cell_fresh n) (deref l).
Proof.
  intros Hl σ (h & -> & Hh). unfold deref. cbv beta.
  destruct ((σ0 ++ h) !! l) as [c|] eqn:E; simpl.
  - split; [by exists h|]. intros a [= <-].
    rewrite lookup_app_r in E by done.
    by apply (Forall_lookup_1 _ _ _ _ Hh E).
  - split; [by exists h|]. by intros a [=].
Qed.

Lemma safe_deref_any l : safe σ0 (fun _ => True) (deref l).
Proof. intros σ Hσ. unfold deref. cbv beta. by destruct (σ !! l). Qed.

Lemma safe_write l c : (n ≤ l)%nat → cell_fresh n c → safe σ0 (fun _ => True) (write l c).
Proof.
  intros Hl Hc σ (h & -> & Hh). unfold write. simpl. split; [|done].
  exists (<[(l - n)%nat := c]> h). split.
  - by rewrite insert_app_r_alt.
  - by apply Forall_insert.
Qed.

Lemma prop_get_Forall {V} (P : V → Prop) (k : string) (props : list (string * V)) (y : V) :
  Forall P (snd <$> props) → prop_get k props = Some y → P y.
Proof.
  induction props as [|[k' x] props IH]; csimpl; [done|].
  intros [Hx Hprops]%Forall_cons. destruct (String.eqb k k'); [by intros [= <-]|by auto].
Qed.

Lemma prop_set_Forall {V} (P : V → Prop) (k : string) (x : V) (props : list (string * V)) :
  Forall P (snd <$> props) → P x → Forall P (snd <$> prop_set k x props).
Proof.
  intros Hprops Hx. induction props as [|[k' y] props IH]; csimpl.
  - by constructor.
  - apply Forall_cons in Hprops as [Hy Hprops].
    destruct (String.eqb k k'); csimpl; constructor; auto.
Qed.

Lemma named_fresh c : cell_fresh n c → Forall (val_fresh n) (snd <$> named c).
Proof. destruct c; simpl; [done|]. by intros [_ ?]%Forall_app. Qed.

Lemma with_named_fresh c props :
  cell_fresh n c → Forall (val_fresh n) (snd <$> props) → cell_fresh n (with_named c props).
Proof.
  destruct c; simpl; [done|]. intros [? _]%Forall_app ?. by apply Forall_app.
Qed.

Lemma safe_get o k : val_fresh n o → safe σ0 (opt_fresh n) (get o k).
Proof.
  intros Ho. destruct o; simpl; try by (apply safe_ret || apply safe_throw).
  eapply safe_bind; [by apply safe_deref|]. intros c Hc. apply safe_ret.
  destruct (prop_get k (named c)) as [v|] eqn:E; [|done].
  by apply (prop_get_Forall _ _ _ _ (named_fresh _ Hc) E).
Qed.

Lemma safe_get_any o k : safe σ0 (fun _ => True) (get o k).
Proof.
  destruct o; simpl; try by (apply safe_ret || apply safe_throw).
  eapply safe_bind; [apply safe_deref_any|]. intros c _. by apply safe_ret.
Qed.

Lemma safe_member o k : val_fresh n o → safe σ0 (val_fresh n) (member o k).
Proof.
  intros Ho. eapply safe_bind; [by apply safe_get|].
  intros [v|] Hv; [by apply safe_ret|apply safe_throw].
Qed.

Lemma safe_set o k x :
  val_fresh n o → val_fresh n x → safe σ0 (fun _ => True) (set o k x).
Proof.
  intros Ho Hx. destruct o; simpl; try apply safe_throw.
  eapply safe_bind; [by apply safe_deref|]. intros c Hc.
  apply safe_write; [done|]. apply with_named_fresh; [done|].
  apply prop_set_Forall; [by apply named_fresh|done].
Qed.

Lemma empty_object_fresh : cell_fresh n (CObj []).
Proof. by constructor. Qed.

Lemma empty_array_fresh : cell_fresh n (CArr [] []).
Proof. by constructor. Qed.

Lemma safe_ensure o k c :
  val_fresh n o → cell_fresh n c → safe σ0 (fun _ => True) (ensure o k c).
Proof.
  intros Ho Hc. eapply safe_bind; [by apply safe_get|]. intros v _.
  destruct (truthy_opt v); [by apply safe_ret|].
  eapply safe_bind; [by apply safe_alloc|]. intros x Hx. by apply safe_set.
Qed.

Lemma safe_items_or_empty (x : option hval) :
  opt_fresh n x → safe σ0 (Forall (val_fresh n)) (items_or_empty x).
Proof.
  intros Hx. destruct x as [[ |[]|z|s|l|y]|]; simpl;
    try by (apply safe_ret || apply safe_throw).
  all: try by (destruct (nonint_truthy y); [apply safe_throw|by apply safe_ret]).
  - destruct (z =? 0); [by apply safe_ret|apply safe_throw].
  - destruct (String.eqb s ""); apply safe_ret; [done|].
    apply Forall_fmap. by apply Forall_true.
  - eapply safe_bind; [by apply safe_deref|]. intros [props|items expando] Hc.
    + apply safe_throw.
    + apply safe_ret. by apply Forall_app in Hc as [? _].
Qed.

Lemma new_Set_Forall {A} (P : A → Prop) (eqb : A → A → bool) (l : list A) :
  Forall P l → Forall P (Js.new_Set eqb l).
Proof.
  unfold Js.new_Set. assert (Forall P []) as Hs by done. revert Hs.
  generalize (@nil A). induction l as [|x l IH]; intros set Hs Hl; simpl; [done|].
  apply Forall_cons in Hl as [Hx Hl].
  apply IH; [|done]. destruct (existsb (eqb x) set); [done|].
  apply Forall_app. split; [done|]. by constructor.
Qed.

Lemma safe_union (existing added : list hval) :
  Forall (val_fresh n) existing → Forall (val_fresh n) added →
  safe σ0 (val_fresh n) (union existing added).
Proof.
  intros He Ha. apply safe_alloc. unfold cell_fresh. simpl. rewrite app_nil_r.
  apply new_Set_Forall. by apply Forall_app.
Qed.

Lemma safe_stringify v : safe σ0 (fun _ => True) (stringify v).
Proof. intros σ Hσ. unfold stringify. cbv beta. by destruct (load _ _ _). Qed.

Lemma safe_each {A B} (P : B → Prop) (f : A → M B) (l : list A) :
  Forall (fun a => safe σ0 P (f a)) l → safe σ0 (Forall P) (each f l).
Proof.
  induction 1 as [|x l Hx _ IH]; simpl; [by apply safe_ret|].
  eapply safe_bind; [exact Hx|]. intros y Hy.
  eapply safe_bind; [exact IH|]. intros ys Hys.
  apply safe_ret. by constructor.
Qed.

(** The cells [JSON.parse] makes hold no reference to an older cell. *)
Lemma safe_parse (text : value) : safe σ0 (val_fresh n) (parse text).
Proof.
  induction text as [ | | | | items expando IHitems _ | props IHprops | ]
    using value_nested_ind; simpl; try by apply safe_ret.
  - eapply safe_bind; [by apply safe_each|]. intros vs Hvs.
    apply safe_alloc. unfold cell_fresh. simpl. by rewrite app_nil_r.
  - eapply safe_bind.
    + apply (safe_each (fun kv => val_fresh n (snd kv))).
      eapply Forall_impl; [exact IHprops|]. intros [k x] Hx. simpl in *.
      eapply safe_bind; [exact Hx|]. intros v Hv. by apply safe_ret.
    + intros ps Hps. apply safe_alloc. unfold cell_fresh. simpl.
      by apply Forall_fmap.
Qed.

Lemma safe_merge_ports analysis config :
  val_fresh n config → safe σ0 (fun _ => True) (merge_ports analysis config).
Proof.
  intros Hc. unfold merge_ports. case_bool_decide; [|by apply safe_ret].
  eapply safe_bind; [by apply safe_get|]. intros fp Hfp.
  eapply safe_bind; [by apply safe_items_or_empty|]. intros items Hitems.
  eapply safe_bind.
  - apply safe_union; [done|]. apply Forall_fmap. by apply Forall_true.
  - intros merged Hm. by apply safe_set.
Qed.

Lemma safe_merge_extensions analysis config :
  val_fresh n config → safe σ0 (fun _ => True) (merge_extensions analysis config).
Proof.
  intros Hc. unfold merge_extensions. case_bool_decide; [|by apply safe_ret].
  eapply safe_bind; [by apply safe_ensure, empty_object_fresh|]. intros _ _.
  eapply safe_bind; [by apply safe_member|]. intros customizations Hcu.
  eapply safe_bind; [by apply safe_ensure, empty_object_fresh|]. intros _ _.
  eapply safe_bind; [by apply safe_member|]. intros vscode Hvs.
  eapply safe_bind; [by apply safe_ensure, empty_array_fresh|]. intros _ _.
  eapply safe_bind; [by apply safe_get|]. intros current Hcur.
  eapply safe_bind; [by apply safe_items_or_empty|]. intros items Hitems.
  eapply safe_bind.
  - apply safe_union; [done|]. apply Forall_fmap. by apply Forall_true.
  - intros merged Hm. by apply safe_set.
Qed.

Lemma safe_add_feature config id :
  val_fresh n config → safe σ0 (fun _ => True) (add_feature config id).
Proof.
  intros Hc. unfold add_feature.
  eapply safe_bind; [by apply safe_member|]. intros features Hf.
  eapply safe_bind; [by apply safe_alloc, empty_object_fresh|].
  intros options Ho. by apply safe_set.
Qed.

Lemma safe_add_database_features dbs config :
  val_fresh n config → safe σ0 (fun _ => True) (add_database_features dbs config).
Proof.
  intros Hc. unfold add_database_features.
  induction dbs as [|db dbs IH] using rev_ind; simpl; [by apply safe_ret|].
  rewrite foldl_snoc. eapply safe_bind; [exact IH|]. intros _ _.
  destruct (database_feature db); [by apply safe_add_feature|by apply safe_ret].
Qed.

Lemma safe_add_databases analysis config :
  val_fresh n config → safe σ0 (fun _ => True) (add_databases analysis config).
Proof.
  intros Hc. unfold add_databases. case_bool_decide; [|by apply safe_ret].
  eapply safe_bind; [by apply safe_ensure, empty_object_fresh|]. intros _ _.
  by apply safe_add_database_features.
Qed.

Lemma safe_add_tool_feature analysis tool id config :
  val_fresh n config → safe σ0 (fun _ => True) (add_tool_feature analysis tool id config).
Proof.
  intros Hc. unfold add_tool_feature. destruct (Js.includes _ _); [|by apply safe_ret].
  eapply safe_bind; [by apply safe_ensure, empty_object_fresh|]. intros _ _.
  by apply safe_add_feature.
Qed.

Lemma safe_rename analysis config :
  val_fresh n config → safe σ0 (fun _ => True) (rename analysis config).
Proof.
  intros Hc. unfold rename. case_bool_decide; [|by apply safe_ret]. by apply safe_set.
Qed.

Lemma safe_merge_into analysis config :
  val_fresh n config → safe σ0 (val_fresh n) (merge_into analysis config).
Proof.
  intros Hc. unfold merge_into.
  eapply safe_bind; [by apply safe_merge_ports|]. intros _ _.
  eapply safe_bind; [by apply safe_merge_extensions|]. intros _ _.
  eapply safe_bind; [by apply safe_add_databases|]. intros _ _.
  eapply safe_bind; [by apply (safe_add_tool_feature _ "docker")|]. intros _ _.
  eapply safe_bind; [by apply (safe_add_tool_feature _ "git")|]. intros _ _.
  eapply safe_bind; [by apply safe_rename|]. intros _ _.
  by apply safe_ret.
Qed.

Lemma safe_generateConfig template analysis :
  safe σ0 (val_fresh n) (generateConfig template analysis).
Proof.
  unfold generateConfig.
  eapply safe_bind; [apply safe_get_any|]. intros base _.
  eapply safe_bind.
  { destruct base; [apply safe_stringify|apply (safe_throw (fun _ => True))]. }
  intros text _.
  eapply safe_bind; [apply safe_parse|]. intros config Hc.
  by apply safe_merge_into.
Qed.

End HeapFrame.

(** The run on [σ0 ++ junk] follows the run on [σ0], step by step. *)
Section HeapShift.

Import Obj ConfigGenerator Heap HeapSpec.

Variables σ0 junk : heap.

Local Abbreviation n := (length σ0).
Local Abbreviation d := (length junk).
Local Abbreviation shift := (HeapSpec.shift junk).
Local Abbreviation shift_props := (HeapSpec.shift_props junk).
Local Abbreviation shift_cell := (HeapSpec.shift_cell junk).
Local Abbreviation related := (HeapSpec.related σ0 junk).
Local Abbreviation sim := (HeapSpec.sim σ0 junk).
Local Abbreviation Rv := (HeapSpec.Rv σ0 junk).
Local Abbreviation Rc := (HeapSpec.Rc σ0 junk).
Local Abbreviation Ro := (HeapSpec.Ro σ0 junk).
Local Abbreviation Rl := (HeapSpec.Rl σ0 junk).

Implicit Types (σ : heap) (v o x : hval) (c : cell) (l : loc).

Lemma sim_ret {A} (R : A → A → Prop) (a a' : A) : R a a' → sim R (mret a) (mret a').
Proof. intros HR σb σa Hσ b σb' [= <- <-]. by exists a', σa. Qed.

Lemma sim_throw {A} (R : A → A → Prop) (e : exn) (ma : M A) : sim R (throw e) ma.
Proof. by intros σb σa Hσ b σb' [=]. Qed.

Lemma sim_bind {A B} (Q : A → A → Prop) (R : B → B → Prop)
    (mb ma : M A) (fb fa : A → M B) :
  sim Q mb ma → (∀ a a', Q a a' → sim R (fb a) (fa a')) →
  sim R (mb ≫= fb) (ma ≫= fa).
Proof.
  intros Hm Hf σb σa Hσ b σb' Hrun. rewrite run_bind in Hrun.
  destruct (mb σb) as [[a|e] σb1] eqn:Eb; [|done].
  destruct (Hm σb σa Hσ a σb1 Eb) as (a' & σa1 & Ea & Hσ1 & HQ).
  rewrite run_bind, Ea. by apply (Hf a a' HQ σb1 σa1 Hσ1).
Qed.

Lemma related_length σb σa : related σb σa → length σa = (length σb + d)%nat.
Proof. intros (h & -> & _ & ->). rewrite !length_app, length_fmap. lia. Qed.

Lemma sim_alloc c : cell_fresh n c → sim Rv (alloc c) (alloc (shift_cell c)).
Proof.
  intros Hc σb σa Hσ a σb' [= <- <-]. pose proof (related_length _ _ Hσ) as Hlen.
  destruct Hσ as (h & -> & Hh & ->).
  eexists _, _. split; [done|]. split.
  - exists (h ++ [c]). split; [by rewrite app_assoc|]. split.
    + apply Forall_app. split; [done|]. by constructor.
    + by rewrite fmap_app, !app_assoc.
  - split.
    + simpl. rewrite length_app. lia.
    + simpl. by rewrite Hlen.
Qed.

Lemma sim_deref l : (n ≤ l)%nat → sim Rc (deref l) (deref (l + d)).
Proof.
  intros Hl σb σa Hσ a σb' Hrun. unfold deref in *.
  destruct (σb !! l) as [c|] eqn:E; [|done]. injection Hrun as <- <-.
  destruct Hσ as (h & -> & Hh & ->).
  rewrite lookup_app_r in E by done.
  exists (shift_cell c), (σ0 ++ junk ++ (shift_cell <$> h)). split.
  - rewrite lookup_app_r by (lia).
    rewrite lookup_app_r by (lia).
    replace (l + d - length σ0 - length junk)%nat with (l - length σ0)%nat
      by (lia).
    by rewrite list_lookup_fmap, E.
  - split; [by exists h|]. split; [|done]. by apply (Forall_lookup_1 _ _ _ _ Hh E).
Qed.

Lemma sim_write l c c' : (n ≤ l)%nat → Rc c c' → sim Ru (write l c) (write (l + d) c').
Proof.
  intros Hl [Hc ->] σb σa (h & -> & Hh & ->) a σb' [= <- <-].
  eexists _, _. split; [done|]. split; [|done].
  exists (<[(l - n)%nat := c]> h). split; [by rewrite insert_app_r_alt|]. split.
  - by apply Forall_insert.
  - rewrite insert_app_r_alt by (lia).
    rewrite insert_app_r_alt by (lia).
    rewrite list_fmap_insert. do 3 f_equal. lia.
Qed.

Lemma shift_prop_get (k : string) (props : list (string * hval)) :
  prop_get k (shift_props props) = shift <$> prop_get k props.
Proof.
  induction props as [|[k' y] props IH]; csimpl; [done|].
  by destruct (String.eqb k k').
Qed.

Lemma shift_prop_set (k : string) x (props : list (string * hval)) :
  prop_set k (shift x) (shift_props props) = shift_props (prop_set k x props).
Proof.
  induction props as [|[k' y] props IH]; csimpl; [done|].
  destruct (String.eqb k k'); csimpl; [done|]. by rewrite IH.
Qed.

Lemma shift_named c : named (shift_cell c) = shift_props (named c).
Proof. by destruct c. Qed.

Lemma shift_with_named c (props : list (string * hval)) :
  with_named (shift_cell c) (shift_props props) = shift_cell (with_named c props).
Proof. by destruct c. Qed.

Lemma sim_get o o' k : Rv o o' → sim Ro (get o k) (get o' k).
Proof.
  intros [Ho ->]. destruct o; simpl; try apply sim_throw; try by apply sim_ret.
  eapply sim_bind; [by apply sim_deref|]. intros c c' [Hc ->]. apply sim_ret. split.
  - destruct (prop_get k (named c)) as [y|] eqn:E; [|done].
    by apply (prop_get_Forall _ _ _ _ (named_fresh σ0 _ Hc) E).
  - by rewrite shift_named, shift_prop_get.
Qed.

Lemma sim_member o o' k : Rv o o' → sim Rv (member o k) (member o' k).
Proof.
  intros Ho. eapply sim_bind; [by apply sim_get|].
  intros [y|] ? [Hy ->]; simpl; [by apply sim_ret|apply sim_throw].
Qed.

Lemma sim_set o o' k x x' : Rv o o' → Rv x x' → sim Ru (set o k x) (set o' k x').
Proof.
  intros [Ho ->] [Hx ->]. destruct o; simpl; try apply sim_throw.
  eapply sim_bind; [by apply sim_deref|]. intros c c' [Hc ->].
  apply sim_write; [done|]. split.
  - apply with_named_fresh; [done|].
    apply prop_set_Forall; [by apply named_fresh|done].
  - by rewrite shift_named, shift_prop_set, shift_with_named.
Qed.

(** An object or array literal without items: the same in both runs. *)
Lemma sim_ensure o o' k c :
  Rv o o' → cell_fresh n c → shift_cell c = c → sim Ru (ensure o k c) (ensure o' k c).
Proof.
  intros Ho Hc Hs. eapply sim_bind; [by apply sim_get|]. intros y y' [Hy ->].
  replace (truthy_opt (shift <$> y)) with (truthy_opt y) by by destruct y as [[]|].
  destruct (truthy_opt y); [by apply sim_ret|].
  eapply sim_bind.
  - rewrite <- Hs at 2. by apply sim_alloc.
  - intros x x' Hx. by apply sim_set.
Qed.

Lemma sim_items_or_empty (y y' : option hval) :
  Ro y y' → sim Rl (items_or_empty y) (items_or_empty y').
Proof.
  intros [Hy ->]. destruct y as [[ |[]|z|s|l|w]|]; simpl;
    try apply sim_throw; try by apply sim_ret.
  all: try by (destruct (nonint_truthy w); [apply sim_throw|by apply sim_ret]).
  - destruct (z =? 0); [by apply sim_ret|apply sim_throw].
  - destruct (String.eqb s ""); apply sim_ret; [done|]. split.
    + apply Forall_fmap. by apply Forall_true.
    + rewrite <- list_fmap_compose. done.
  - eapply sim_bind; [by apply sim_deref|]. intros [props|items expando] c' [Hc ->]; simpl.
    + apply sim_throw.
    + apply sim_ret. split; [|done]. by apply Forall_app in Hc as [? _].
Qed.

Lemma shift_same_value_zero x y :
  same_value_zero (shift x) (shift y) = same_value_zero x y.
Proof.
  destruct x, y; simpl; try done.
  destruct (Nat.eqb_spec l l0) as [->|Hne]; [apply Nat.eqb_refl|].
  apply Nat.eqb_neq. lia.
Qed.

Lemma sim_union (existing existing' added added' : list hval) :
  Rl existing existing' → Rl added added' →
  sim Rv (union existing added) (union existing' added').
Proof.
  intros [He ->] [Ha ->]. unfold union.
  rewrite <- fmap_app,
    (new_Set_fmap same_value_zero same_value_zero shift shift_same_value_zero).
  apply (sim_alloc (CArr _ [])). unfold cell_fresh. simpl. rewrite app_nil_r.
  apply new_Set_Forall. by apply Forall_app.
Qed.

Lemma sim_each {A B} (R : B → B → Prop) (f : A → M B) (xs : list A) :
  Forall (fun a => sim R (f a) (f a)) xs → sim (Forall2 R) (each f xs) (each f xs).
Proof.
  induction 1 as [|a xs Ha _ IH]; simpl; [by apply sim_ret|].
  eapply sim_bind; [exact Ha|]. intros y y' Hy.
  eapply sim_bind; [exact IH|]. intros ys ys' Hys.
  apply sim_ret. by constructor.
Qed.

Lemma Forall2_Rv (vs vs' : list hval) : Forall2 Rv vs vs' → Rl vs vs'.
Proof.
  induction 1 as [|y y' vs vs' [Hy ->] _ [IH ->]]; [done|].
  split; [by constructor|done].
Qed.

Lemma Forall2_Rv_props (ps ps' : list (string * hval)) :
  Forall2 (fun kv kv' => fst kv' = fst kv ∧ Rv (snd kv) (snd kv')) ps ps' →
  Forall (val_fresh n) (snd <$> ps) ∧ ps' = shift_props ps.
Proof.
  induction 1 as [|[k y] [k' y'] ps ps' [Hk [Hy Hy']] _ [IH ->]]; csimpl in *; [done|].
  subst. split; [by constructor|done].
Qed.

(** [JSON.parse] of one text builds the same cells in both runs. *)
Lemma sim_parse (text : value) : sim Rv (parse text) (parse text).
Proof.
  induction text as [ | | | | items expando IHitems _ | props IHprops | ]
    using value_nested_ind; simpl; try by apply sim_ret.
  - eapply sim_bind; [by apply sim_each|]. intros vs vs' [Hvs ->]%Forall2_Rv.
    apply (sim_alloc (CArr vs [])). unfold cell_fresh. simpl. by rewrite app_nil_r.
  - eapply sim_bind.
    + apply (sim_each (fun kv kv' => fst kv' = fst kv ∧ Rv (snd kv) (snd kv'))).
      eapply Forall_impl; [exact IHprops|]. intros [k j] Hj. simpl in *.
      eapply sim_bind; [exact Hj|]. intros y y' Hy. by apply sim_ret.
    + intros ps ps' [Hps ->]%Forall2_Rv_props. by apply (sim_alloc (CObj ps)).
Qed.

Lemma Rl_prims {A} (f : A → hval) (xs : list A) :
  (∀ a, val_fresh n (f a) ∧ shift (f a) = f a) → Rl (f <$> xs) (f <$> xs).
Proof.
  intros Hf. split.
  - apply Forall_fmap, Forall_forall. intros a _. apply Hf.
  - rewrite <- list_fmap_compose. apply list_fmap_ext. intros _ a _. symmetry. apply Hf.
Qed.

Lemma sim_merge_ports analysis config config' :
  Rv config config' →
  sim Ru (merge_ports analysis config) (merge_ports analysis config').
Proof.
  intros Hc. unfold merge_ports. case_bool_decide; [|by apply sim_ret].
  eapply sim_bind; [by apply sim_get|]. intros fp fp' Hfp.
  eapply sim_bind; [by apply sim_items_or_empty|]. intros items items' Hitems.
  eapply sim_bind; [apply sim_union; [done|by apply Rl_prims]|].
  intros merged merged' Hm. by apply sim_set.
Qed.

Lemma sim_merge_extensions analysis config config' :
  Rv config config' →
  sim Ru (merge_extensions analysis config) (merge_extensions analysis config').
Proof.
  intros Hc. unfold merge_extensions. case_bool_decide; [|by apply sim_ret].
  eapply sim_bind; [by apply sim_ensure; [|apply empty_object_fresh|]|]. intros _ _ _.
  eapply sim_bind; [by apply sim_member|]. intros customizations customizations' Hcu.
  eapply sim_bind; [by apply sim_ensure; [|apply empty_object_fresh|]|]. intros _ _ _.
  eapply sim_bind; [by apply sim_member|]. intros vscode vscode' Hvs.
  eapply sim_bind; [by apply sim_ensure; [|apply empty_array_fresh|]|]. intros _ _ _.
  eapply sim_bind; [by apply sim_get|]. intros current current' Hcur.
  eapply sim_bind; [by apply sim_items_or_empty|]. intros items items' Hitems.
  eapply sim_bind; [apply sim_union; [done|by apply Rl_prims]|].
  intros merged merged' Hm. by apply sim_set.
Qed.

Lemma sim_add_feature config config' id :
  Rv config config' → sim Ru (add_feature config id) (add_feature config' id).
Proof.
  intros Hc. unfold add_feature.
  eapply sim_bind; [by apply sim_member|]. intros features features' Hf.
  eapply sim_bind; [by apply (sim_alloc (CObj [])), empty_object_fresh|].
  intros options options' Ho. by apply sim_set.
Qed.

Lemma sim_add_database_features dbs config config' :
  Rv config config' →
  sim Ru (add_database_features dbs config) (add_database_features dbs config').
Proof.
  intros Hc. unfold add_database_features.
  induction dbs as [|db dbs IH] using rev_ind; simpl; [by apply sim_ret|].
  rewrite !foldl_snoc. eapply sim_bind; [exact IH|]. intros _ _ _.
  destruct (database_feature db); [by apply sim_add_feature|by apply sim_ret].
Qed.

Lemma sim_add_databases analysis config config' :
  Rv config config' →
  sim Ru (add_databases analysis config) (add_databases analysis config').
Proof.
  intros Hc. unfold add_databases. case_bool_decide; [|by apply sim_ret].
  eapply sim_bind; [by apply sim_ensure; [|apply empty_object_fresh|]|]. intros _ _ _.
  by apply sim_add_database_features.
Qed.

Lemma sim_add_tool_feature analysis tool id config config' :
  Rv config config' →
  sim Ru (add_tool_feature analysis tool id config)
    (add_tool_feature analysis tool id config').
Proof.
  intros Hc. unfold add_tool_feature. destruct (Js.includes _ _); [|by apply sim_ret].
  eapply sim_bind; [by apply sim_ensure; [|apply empty_object_fresh|]|]. intros _ _ _.
  by apply sim_add_feature.
Qed.

Lemma sim_rename analysis config config' :
  Rv config config' → sim Ru (rename analysis config) (rename analysis config').
Proof.
  intros Hc. unfold rename. case_bool_decide; [|by apply sim_ret].
  by apply sim_set.
Qed.

Lemma sim_merge_into analysis config config' :
  Rv config config' →
  sim Rv (merge_into analysis config) (merge_into analysis config').
Proof.
  intros Hc. unfold merge_into.
  eapply sim_bind; [by apply sim_merge_ports|]. intros _ _ _.
  eapply sim_bind; [by apply sim_merge_extensions|]. intros _ _ _.
  eapply sim_bind; [by apply sim_add_databases|]. intros _ _ _.
  eapply sim_bind; [by apply (sim_add_tool_feature _ "docker")|]. intros _ _ _.
  eapply sim_bind; [by apply (sim_add_tool_feature _ "git")|]. intros _ _ _.
  eapply sim_bind; [by apply sim_rename|]. intros _ _ _.
  by apply sim_ret.
Qed.

Lemma related_lookup σb σa l c :
  related σb σa → (n ≤ l)%nat → σb !! l = Some c →
  cell_fresh n c ∧ σa !! (l + d)%nat = Some (shift_cell c).
Proof.
  intros Hσ Hl E.
  destruct (sim_deref l Hl σb σa Hσ c σb) as (c' & σa' & Hrun & _ & Hc & ->).
  { unfold deref. by rewrite E. }
  split; [done|]. unfold deref in Hrun. by destruct (σa !! (l + d)%nat); simplify_eq.
Qed.

(** What [JSON.stringify] writes for a value of the first run, it writes for
  the related value of the second. *)
Lemma load_shift σb σa (fuel : nat) :
  related σb σa → ∀ v doc,
    val_fresh n v → load fuel σb v = Some doc → load fuel σa (shift v) = Some doc.
Proof.
  intros Hσ. induction fuel as [|fuel IH]; intros v doc Hv Hload.
  - by destruct v.
  - destruct v as [ | | | |l| ]; try done. simpl in *.
    destruct (σb !! l) as [c|] eqn:E; [|done].
    destruct (related_lookup _ _ _ _ Hσ Hv E) as [Hc ->].
    destruct c as [props|items expando]; simpl in *.
    + apply fmap_Some in Hload as (ps & Eps & ->).
      apply fmap_Some. exists ps. split; [|done].
      apply mapM_Some. apply Forall2_fmap_l. apply mapM_Some in Eps.
      unfold cell_fresh in Hc. simpl in Hc. clear E. revert Hc.
      induction Eps as [|[k y] p props ps Hy _ IHp]; intros Hc; [by constructor|].
      csimpl in Hc. apply Forall_cons in Hc as [Hf Hc]. constructor; [|by apply IHp].
      simpl in *. apply fmap_Some in Hy as (j & Ey & ->).
      by rewrite (IH _ _ Hf Ey).
    + apply fmap_Some in Hload as (js & Ejs & ->).
      apply fmap_Some. exists js. split; [|done].
      apply mapM_Some. apply Forall2_fmap_l. apply mapM_Some in Ejs.
      apply Forall_app in Hc as [Hc _]. clear E. revert Hc.
      induction Ejs as [|y j items js Hy _ IHi]; intros Hc; [by constructor|].
      apply Forall_cons in Hc as [Hf Hc]. constructor; [|by apply IHi].
      simpl. by apply IH.
Qed.

End HeapShift.

Section HeapReads.

Import Obj ConfigGenerator Heap HeapSpec.

Implicit Types (σ ext : heap) (v o : hval).

(** With more fuel and more cells, [JSON.stringify] writes the same. *)
Lemma load_mono σ ext (fuel : nat) : ∀ (fuel' : nat) v doc,
  load fuel σ v = Some doc → (fuel ≤ fuel')%nat → load fuel' (σ ++ ext) v = Some doc.
Proof.
  induction fuel as [|fuel IH]; intros fuel' v doc Hload Hle.
  - destruct v; try done; by destruct fuel'.
  - destruct fuel' as [|fuel']; [lia|]. destruct v as [ | | | |l| ]; try done. simpl in *.
    destruct (σ !! l) as [c|] eqn:E; [|done].
    rewrite (lookup_app_l_Some _ _ _ _ E).
    assert (∀ y j, load fuel σ y = Some j → load fuel' (σ ++ ext) y = Some j) as IH'
      by (intros; apply IH; [done|lia]).
    destruct c as [props|items expando].
    + apply fmap_Some in Hload as (ps & Eps & ->).
      apply fmap_Some. exists ps. split; [|done].
      apply mapM_Some. apply mapM_Some in Eps.
      eapply Forall2_impl; [exact Eps|]. intros [k y] p Hy. simpl in *.
      apply fmap_Some in Hy as (j & Ey & ->). by rewrite (IH' _ _ Ey).
    + apply fmap_Some in Hload as (js & Ejs & ->).
      apply fmap_Some. exists js. split; [|done].
      apply mapM_Some. apply mapM_Some in Ejs.
      eapply Forall2_impl; [exact Ejs|]. intros y j Hy. by apply IH'.
Qed.

Lemma stringify_extend σ ext v doc σ' :
  stringify v σ = (Ok doc, σ') →
  σ' = σ ∧ stringify v (σ ++ ext) = (Ok doc, σ ++ ext).
Proof.
  unfold stringify. destruct (load (S (length σ)) σ v) as [j|] eqn:E; [|done].
  intros [= <- <-]. split; [done|].
  rewrite (load_mono σ ext _ (S (length (σ ++ ext))) v j E); [done|].
  rewrite length_app. lia.
Qed.

Lemma get_extend σ ext o (k : string) r σ' :
  get o k σ = (Ok r, σ') → σ' = σ ∧ get o k (σ ++ ext) = (Ok r, σ ++ ext).
Proof.
  destruct o as [ | | | |l| ]; simpl;
    try (by intros H; inversion H); try (by intros H; inversion H; subst).
  rewrite !run_bind. unfold deref.
  destruct (σ !! l) as [c|] eqn:E; [|by intros H; inversion H].
  rewrite (lookup_app_l_Some _ _ _ _ E). intros H. by inversion H; subst.
Qed.

End HeapReads.

(** ** Synthesis copies the template *)

Section HeapClaims.

Import Obj ConfigGenerator Heap HeapSpec.

Implicit Types (σ : heap) (v : hval).

Lemma extends_untouched σ σ' : extends σ σ' → untouched σ σ'.
Proof. intros (h & -> & _). unfold untouched. by rewrite take_app_length. Qed.

Lemma extends_isolated σ σ' v :
  extends σ σ' → val_fresh (length σ) v → isolated σ σ' v.
Proof. intros (h & -> & Hh) Hv. split; [done|]. by rewrite drop_app_length. Qed.

Lemma extends_trans σ σ1 σ2 : extends σ σ1 → extends σ1 σ2 → untouched σ σ2.
Proof.
  intros (h1 & -> & _) (h2 & -> & _). unfold untouched.
  by rewrite <- app_assoc, take_app_length.
Qed.

Lemma related_start σ junk : related σ junk σ (σ ++ junk).
Proof.
  exists []. split; [by rewrite app_nil_r|]. split; [constructor|].
  by rewrite fmap_nil, app_nil_r.
Qed.

(** The second of two runs, from the heap the first left, returns the value
  related to the one it returns from the heap before the first. *)
Lemma generateConfig_after σ junk template analysis c σ' :
  generateConfig template analysis σ = (Ok c, σ') →
  ∃ σa', generateConfig template analysis (σ ++ junk) = (Ok (shift junk c), σa')
         ∧ related σ junk σ' σa' ∧ val_fresh (length σ) c.
Proof.
  unfold generateConfig. rewrite !run_bind.
  destruct (get template "config" σ) as [[base|e] σx] eqn:Eg; [|done].
  destruct (get_extend σ junk _ _ _ _ Eg) as [-> ->]. rewrite !run_bind.
  destruct base as [base|]; [|done].
  destruct (stringify base σ) as [[text|e] σx] eqn:Es; [|done].
  destruct (stringify_extend σ junk _ _ _ Es) as [-> ->].
  intros Hrun.
  destruct (sim_bind σ junk _ _ _ _ _ _ (sim_parse σ junk text)
              (sim_merge_into σ junk analysis) σ (σ ++ junk)
              (related_start σ junk) c σ' Hrun)
    as (c' & σa' & Hrun' & Hrel & Hc & ->).
  by exists σa'.
Qed.

(** C8. [generateConfig] works on a copy of the template's configuration.
  For every heap, template object and pair of feature sets, when
  [generateConfig(template, f1)] runs and then [generateConfig(template, f2)]:
  every cell that was there before a call, the template object and its
  configuration among them, is afterwards as it was; the object a call
  returns, and every cell the call made, holds no reference to a cell that
  was there before the call; and the document of the second result is the
  document that [generateConfig(template, f2)] gives without the first call
  before it. *)
Theorem generateConfig_deep_copy (σ : heap) (template : hval)
    (f1 f2 : PromptAnalysis) (r1 r2 : result hval) (σ1 σ2 : heap) :
  generateConfig template f1 σ = (r1, σ1) →
  generateConfig template f2 σ1 = (r2, σ2) →
  untouched σ σ1 ∧ untouched σ1 σ2 ∧ untouched σ σ2
  ∧ (∀ c1, r1 = Ok c1 → isolated σ σ1 c1)
  ∧ (∀ c2, r2 = Ok c2 → isolated σ1 σ2 c2)
  ∧ (∀ c σ' doc,
       generateConfig template f2 σ = (Ok c, σ') → document σ' c doc →
       ∃ c2, r2 = Ok c2 ∧ document σ2 c2 doc).
Proof.
  intros E1 E2.
  destruct (safe_generateConfig σ template f1 σ (extends_refl σ)) as [X1 P1].
  destruct (safe_generateConfig σ1 template f2 σ1 (extends_refl σ1)) as [X2 P2].
  rewrite E1 in X1, P1. rewrite E2 in X2, P2. simpl in *.
  split; [by apply extends_untouched|].
  split; [by apply extends_untouched|].
  split; [by eapply extends_trans|].
  split; [intros c1 ->; apply extends_isolated; auto|].
  split; [intros c2 ->; apply extends_isolated; auto|].
  intros c σ' doc Halone Hdoc.
  destruct X1 as (h1 & -> & _).
  destruct (generateConfig_after σ h1 template f2 c σ' Halone)
    as (σa' & Hrun & Hrel & Hc).
  rewrite Hrun in E2. injection E2 as <- <-.
  exists (shift h1 c). split; [done|].
  unfold document, stringify in *.
  destruct (load (S (length σ')) σ' c) as [j|] eqn:El; [|done].
  injection Hdoc as ->.
  apply (load_shift σ h1 _ _ _ Hrel _ _ Hc) in El.
  apply (load_mono _ [] _ (S (length σa'))) in El.
  - rewrite app_nil_r in El. by rewrite El.
  - rewrite (related_length _ _ _ _ Hrel). lia.
Qed.

(** C8 on the catalog: two requests for the template ['python'], the first
  with the port 8080. The second document is the one of the pure model, with
  the template's port alone. *)
Lemma generateConfig_deep_copy_witness :
  untouched (snd catalog) (snd Samples.second_run)
  ∧ (∃ c1, fst Samples.first_run = Ok c1
           ∧ isolated (snd catalog) (snd Samples.first_run) c1)
  ∧ (∃ c2 doc, fst Samples.second_run = Ok c2
               ∧ document (snd Samples.second_run) c2 doc
               ∧ ConfigGenerator.generateConfig TemplateManager.python
                   Samples.redis_request = Ok doc
               ∧ Obj.get doc "forwardPorts" = Ok (Some (VArray [VNum 8000]))).
Proof.
  destruct (generateConfig_deep_copy (snd catalog) Samples.python
              Samples.request Samples.redis_request
              (fst Samples.first_run) (fst Samples.second_run)
              (snd Samples.first_run) (snd Samples.second_run))
    as (_ & _ & U & I1 & _ & L).
  - vm_compute. reflexivity.
  - vm_compute. reflexivity.
  - split; [exact U|]. split.
    + eexists. split; [vm_compute; reflexivity|]. apply I1. vm_compute. reflexivity.
    + edestruct L as (c2 & E & D).
      * vm_compute. reflexivity.
      * vm_compute. reflexivity.
      * exists c2. eexists. split; [exact E|]. split; [exact D|].
        split; vm_compute; reflexivity.
Defined.

(** On the template objects of the catalog the generator on the heap writes
  the documents of the generator on values. *)
Example generateConfig_on_catalog (analysis : PromptAnalysis) :
  analysis ∈ [Samples.request; Samples.port_request; Samples.redis_request;
              Samples.unsupported_request] →
  (fun template => written (generateConfig template analysis) (snd catalog))
    <$> fst catalog
  = (fun template => ConfigGenerator.generateConfig template analysis)
    <$> TemplateManager.templates.
Proof.
  intros Ha. repeat (apply elem_of_cons in Ha as [->|Ha]);
    [vm_compute; reflexivity ..|by apply elem_of_nil in Ha].
Qed.

End HeapClaims.

(* ===================================================================== *)
(** * Further properties of the catalog and of the generator *)
(* ===================================================================== *)

(** ** Listing the catalog *)

Section Filters.

Import TemplateManager CatalogSpec.

Lemma filter_ext_bool_gen {A} (f g : A → bool) (l : list A) :
  (∀ x, f x = g x) → List.filter f l = List.filter g l.
Proof. intros H. induction l as [|x l IH]; simpl; [done|]. by rewrite H, IH. Qed.

Lemma filter_sublist {A} (f : A → bool) (l : list A) : sublist (List.filter f l) l.
Proof.
  induction l as [|x l IH]; simpl; [constructor|].
  destruct (f x); by constructor.
Qed.

Lemma filter_elem_of {A} (f : A → bool) (l : list A) (x : A) :
  x ∈ List.filter f l ↔ x ∈ l ∧ f x = true.
Proof. rewrite !list_elem_of_In. apply filter_In. Qed.

Lemma filter_nothing {A} (f : A → bool) (l : list A) :
  (∀ x, x ∈ l → f x = false) → List.filter f l = [].
Proof.
  induction l as [|x l IH]; intros H; simpl; [done|].
  rewrite (H x) by apply list_elem_of_here.
  apply IH. intros y Hy. apply H. by apply list_elem_of_further.
Qed.

Lemma filter_twice {A} (f g : A → bool) (l : list A) :
  List.filter g (List.filter f l) = List.filter (fun x => f x && g x) l.
Proof.
  induction l as [|x l IH]; simpl; [done|].
  destruct (f x); simpl; [|done]. destruct (g x); by rewrite IH.
Qed.

Lemma rejects_spec (criterion : option string) (ok : string → bool) :
  rejects criterion ok = false ↔ ∀ c, given criterion c → ok c = true.
Proof.
  unfold rejects, given. destruct criterion as [c|]; [|split; [by intros _ c [[=] _]|done]].
  destruct (String.eqb_spec c "") as [->|Hne]; simpl.
  - split; [by intros _ c [[= <-] ?]|done].
  - rewrite negb_false_iff. split.
    + by intros H c' [[= <-] _].
    + intros H. by apply H.
Qed.

Lemma getTemplates_in_passes (ts : list DevContainerTemplate) (filter : TemplateFilter.t) :
  getTemplates_in ts (Some filter) = List.filter (passes filter) ts.
Proof.
  unfold getTemplates_in, passes. apply filter_ext_bool_gen. intros t.
  by destruct (rejects _ _), (rejects _ _), (rejects _ _).
Qed.

Lemma passes_meets (filter : TemplateFilter.t) (t : DevContainerTemplate) :
  passes filter t = true ↔ meets filter t.
Proof.
  unfold passes, meets. rewrite !andb_true_iff, !negb_true_iff, !rejects_spec.
  split.
  - intros ((Hc & Hl) & Hw). split; [|split]; intros c Hg.
    + apply String.eqb_eq. by apply Hc.
    + apply includes_spec. by apply Hl.
    + apply includes_spec. by apply Hw.
  - intros (Hc & Hl & Hw). split; [split|]; intros c Hg.
    + apply String.eqb_eq. by apply Hc.
    + apply includes_spec. by apply Hl.
    + apply includes_spec. by apply Hw.
Qed.

(** X1. [getTemplate] is the lookup by name: it returns a template exactly
  when the catalog has one of that name, and then that template; every
  template of the catalog is found under its own name. *)
Theorem getTemplate_lookup (n : string) (t : DevContainerTemplate) :
  (getTemplate n = Some t ↔ t ∈ templates ∧ name t = n)
  ∧ (getTemplate n = None ↔ ∀ u, u ∈ templates → name u ≠ n).
Proof.
  split.
  - split.
    + intros H. apply find_some in H as [Hin Hn].
      split; [by apply list_elem_of_In|by apply String.eqb_eq].
    + intros [Hin <-]. unfold templates in Hin.
      repeat (apply elem_of_cons in Hin as [->|Hin]); try reflexivity.
      by apply elem_of_nil in Hin.
  - split.
    + intros H u Hu Hn. apply list_elem_of_In in Hu.
      pose proof (find_none _ _ H u Hu) as E. simpl in E.
      apply String.eqb_neq in E. done.
    + intros H. unfold getTemplate.
      destruct (List.find _ templates) as [u|] eqn:E; [|done].
      apply find_some in E as [Hin Hn]. apply String.eqb_eq in Hn.
      apply list_elem_of_In in Hin. by destruct (H u Hin).
Qed.

(** X2. [getTemplates] returns, in the order of the catalog, the templates
  that meet every criterion given; a criterion that is missing or the empty
  string is not applied, so without a filter, or with no criterion given, the
  whole catalog is returned; and filtering by several criteria at once is
  filtering by one after the other. *)
Theorem getTemplates_in_spec (ts : list DevContainerTemplate) (filter : TemplateFilter.t) :
  sublist (getTemplates_in ts (Some filter)) ts
  ∧ (∀ t, t ∈ getTemplates_in ts (Some filter) ↔ t ∈ ts ∧ meets filter t)
  ∧ getTemplates_in ts None = ts
  ∧ (unfiltered filter → getTemplates_in ts (Some filter) = ts)
  ∧ getTemplates_in ts (Some filter)
    = getTemplates_in
        (getTemplates_in (getTemplates_in ts (Some (by_category filter)))
           (Some (by_language filter)))
        (Some (by_framework filter)).
Proof.
  rewrite !getTemplates_in_passes. split; [apply filter_sublist|].
  split; [intros t; by rewrite filter_elem_of, passes_meets|].
  split; [done|]. split.
  - intros (Hc & Hl & Hw).
    assert (∀ t, passes filter t = true) as Hall.
    { intros t. apply passes_meets. split; [|split]; intros c Hg.
      - by destruct (Hc c). - by destruct (Hl c). - by destruct (Hw c). }
    induction ts as [|t ts IH]; simpl; [done|]. by rewrite Hall, IH.
  - rewrite !filter_twice. apply filter_ext_bool_gen. intros t.
    unfold passes. simpl.
    by destruct (rejects _ _), (rejects _ _), (rejects _ _).
Qed.

(** X3. The criteria are compared as they are written: a language or a
  framework criterion with a capital letter selects no template of the
  catalog, whose tags are all in lower case. *)
Theorem getTemplates_case_sensitive (filter : TemplateFilter.t) (tag : string) :
  TemplateFilter.language filter = Some tag ∨ TemplateFilter.framework filter = Some tag →
  Js.toLowerCase tag ≠ tag →
  getTemplates (Some filter) = [].
Proof.
  intros Hf Hcase. unfold getTemplates. rewrite getTemplates_in_passes.
  apply filter_nothing. intros t Ht.
  apply catalog_lower_case in Ht. unfold SelectorSpec.lower_case_tags in Ht.
  rewrite forallb_app in Ht. apply andb_true_iff in Ht as [Hl Hw].
  assert (tag ≠ "") as Hne by (by intros ->).
  assert (∀ known, forallb (fun k => String.eqb (Js.toLowerCase k) k) known = true →
                   Js.includes known tag = false) as Hnot.
  { intros known Hk. apply not_true_is_false. intros Hin%includes_spec.
    rewrite forallb_forall in Hk. apply list_elem_of_In in Hin.
    apply Hk in Hin. by apply String.eqb_eq in Hin. }
  unfold passes, rejects.
  destruct Hf as [-> | ->]; rewrite (proj2 (String.eqb_neq _ _) Hne); simpl.
  - rewrite (Hnot _ Hl). simpl. by rewrite andb_false_r.
  - rewrite (Hnot _ Hw). simpl. by rewrite andb_false_r.
Qed.

Lemma getTemplates_case_sensitive_witness :
  getTemplates (Some {| TemplateFilter.category := None;
                        TemplateFilter.language := Some "Python";
                        TemplateFilter.framework := None |}) = []
  ∧ ∃ t, findBestMatch ["Python"] [] = Some t ∧ name t = "python".
Proof.
  split.
  - apply (getTemplates_case_sensitive _ "Python"); [by left|].
    vm_compute. discriminate.
  - eexists. split; [vm_compute; reflexivity|reflexivity].
Defined.

End Filters.

Section Categories.

Import TemplateManager CatalogSpec.

Lemma compare_not_Gt_trans : ∀ a b c : string,
  String.compare a b ≠ Gt → String.compare b c ≠ Gt → String.compare a c ≠ Gt.
Proof.
  induction a as [|x a IH]; intros [|y b] [|z c]; simpl; try done.
  unfold Ascii.compare.
  destruct (N.compare_spec (N_of_ascii x) (N_of_ascii y)) as [E1|L1|G1]; [| |done];
    (destruct (N.compare_spec (N_of_ascii y) (N_of_ascii z)) as [E2|L2|G2]; [| |done]);
    destruct (N.compare_spec (N_of_ascii x) (N_of_ascii z)) as [E3|L3|G3];
    try done; try lia; eauto.
Qed.

Lemma precedes_trans : Transitive Js.precedes.
Proof.
  intros a b c. unfold Js.precedes, String.leb. intros Hab Hbc.
  pose proof (compare_not_Gt_trans a b c) as H.
  destruct (String.compare a b), (String.compare b c), (String.compare a c);
    try done; by destruct H.
Qed.

Lemma precedes_total : Total Js.precedes.
Proof. intros a b. apply String.leb_total. Qed.

Lemma precedes_before (a b : string) : Js.precedes a b → a ≠ b → before a b.
Proof.
  unfold Js.precedes, before, String.leb, String.ltb. intros H Hne.
  destruct (String.compare a b) eqn:E; try done.
  by apply String.compare_eq_iff in E.
Qed.

Lemma sort_spec (l : list string) :
  NoDup l →
  StronglySorted before (Js.sort l) ∧ NoDup (Js.sort l) ∧ ∀ x, x ∈ Js.sort l ↔ x ∈ l.
Proof.
  intros Hnd. unfold Js.sort.
  pose proof (merge_sort_Permutation Js.precedes l) as Hp.
  pose proof (@StronglySorted_merge_sort _ Js.precedes _ precedes_trans precedes_total l)
    as Hs.
  assert (NoDup (merge_sort Js.precedes l)) as Hnd' by (by rewrite Hp).
  split; [|split; [done|intros x; by rewrite Hp]].
  clear Hp. induction Hs as [|a m Hs IH Ha]; [constructor|].
  apply NoDup_cons in Hnd' as [Hnotin Hnd']. constructor; [by apply IH|].
  rewrite Forall_forall in Ha. apply Forall_forall. intros b Hb.
  apply precedes_before; [by apply Ha|]. by intros ->.
Qed.

(** X4. [getCategories] returns the categories of the templates, each once,
  in ascending order of code units. *)
Theorem getCategories_in_spec (ts : list DevContainerTemplate) :
  StronglySorted before (getCategories_in ts)
  ∧ NoDup (getCategories_in ts)
  ∧ ∀ c, c ∈ getCategories_in ts ↔ ∃ t, t ∈ ts ∧ category t = c.
Proof.
  unfold getCategories_in.
  destruct (new_Set_spec String.eqb String.eqb_eq (category <$> ts)) as [Hnd Hin].
  destruct (sort_spec _ Hnd) as (Hs & Hnd' & Hin').
  split; [done|]. split; [done|]. intros c.
  rewrite Hin', Hin, list_elem_of_fmap. split; intros (t & ? & ?); eauto.
Qed.

(** The categories of the catalog. *)
Example getCategories_catalog :
  getCategories = ["backend"; "frontend"; "fullstack"; "universal"].
Proof. vm_compute. reflexivity. Qed.

End Categories.

(** ** Detection of tags *)

Section Detection.

Import RegExp ScanSpec DetectSpec ConfigGenerator.

Implicit Types (prev : option ascii) (s rest : subject) (k : cont) (r : regex).

Lemma xorb_boundary prev next :
  xorb (is_word_at prev) (is_word_at next) = true ↔ boundary prev next.
Proof. unfold boundary. by destruct (is_word_at prev), (is_word_at next). Qed.

Lemma str_cons (c : ascii) (w : string) prev s k :
  exec (str (String c w)) prev s k
  = exec (chr c) prev s (fun prev' s' => exec (str w) prev' s' k).
Proof. by destruct w. Qed.

Lemma exec_str (w : string) : ∀ prev s k x,
  exec (str w) prev s k = Some x
  ↔ ∃ s', s = list_ascii_of_string w ++ s'
          ∧ k (before prev (list_ascii_of_string w)) s' = Some x.
Proof.
  induction w as [|c w IH]; intros prev s k x.
  - simpl. split; [by exists s|by intros (s' & -> & ?)].
  - rewrite str_cons. simpl. destruct s as [|c' s].
    + split; [done|by intros (s' & [=] & _)].
    + destruct (Ascii.eqb_spec c c') as [<-|Hne].
      * rewrite IH. split.
        -- intros (s' & -> & Hk). exists s'. by rewrite before_cons.
        -- intros (s' & [= ->] & Hk). exists s'. by rewrite before_cons in Hk.
      * split; [done|]. by intros (s' & [= -> _] & _).
Qed.

Lemma recognizes_str (w : string) : recognizes (str w) [w].
Proof.
  intros prev s k. split.
  - intros [x (s' & -> & Hk)%exec_str]. exists w, s'.
    split; [apply list_elem_of_here|]. by rewrite Hk.
  - intros (kw & s' & ->%list_elem_of_singleton & -> & [x Hx]).
    exists x. apply exec_str. by exists s'.
Qed.

Lemma recognizes_Alt r1 r2 (k1 k2 : list string) :
  recognizes r1 k1 → recognizes r2 k2 → recognizes (Alt r1 r2) (k1 ++ k2).
Proof.
  intros H1 H2 prev s k. simpl. split.
  - intros Hsome.
    destruct (exec r1 prev s k) as [x|] eqn:E1.
    + destruct (proj1 (H1 prev s k)) as (kw & s' & ? & ? & ?); [by rewrite E1|].
      exists kw, s'. rewrite elem_of_app. auto.
    + destruct (proj1 (H2 prev s k) Hsome) as (kw & s' & ? & ? & ?).
      exists kw, s'. rewrite elem_of_app. auto.
  - intros (kw & s' & [Hin|Hin]%elem_of_app & Hs & Hk).
    + destruct (proj2 (H1 prev s k)) as [x ->]; [by exists kw, s'|]. by exists x.
    + destruct (exec r1 prev s k) as [x|]; [by exists x|].
      apply H2. by exists kw, s'.
Qed.

Lemma list_ascii_of_string_app (x y : string) :
  list_ascii_of_string (x +:+ y) = list_ascii_of_string x ++ list_ascii_of_string y.
Proof. induction x as [|c x IH]; simpl; [done|]. by rewrite <- IH. Qed.

Lemma recognizes_Seq r1 r2 (k1 k2 : list string) :
  recognizes r1 k1 → recognizes r2 k2 → recognizes (Seq r1 r2) (joined k1 k2).
Proof.
  intros H1 H2 prev s k. simpl. split.
  - intros (kw1 & s1 & Hin1 & -> & (kw2 & s2 & Hin2 & -> & Hk)%H2)%H1.
    exists (kw1 +:+ kw2), s2. split; [|split].
    + unfold joined. apply list_elem_of_bind. exists kw1. split; [|done].
      apply list_elem_of_fmap. by exists kw2.
    + by rewrite list_ascii_of_string_app, <- app_assoc.
    + by rewrite list_ascii_of_string_app, before_app.
  - intros (kw & s' & Hin & -> & Hk). unfold joined in Hin.
    apply list_elem_of_bind in Hin as (kw1 & Hin & Hin1).
    apply list_elem_of_fmap in Hin as (kw2 & -> & Hin2).
    rewrite list_ascii_of_string_app, <- app_assoc in *.
    apply H1. exists kw1, (list_ascii_of_string kw2 ++ s').
    split; [done|]. split; [done|].
    apply H2. exists kw2, s'. by rewrite <- before_app.
Qed.

(** [r?]: what [r] matches, or nothing. *)
Lemma recognizes_Opt r (k1 : list string) :
  recognizes r k1 → recognizes (Opt r) (k1 ++ [""]).
Proof.
  intros H1 prev s k.
  change (exec (Opt r) prev s k) with (exec (Alt r (str "")) prev s k).
  apply recognizes_Alt; [done|apply recognizes_str].
Qed.

Lemma recognizes_dotted (a b : string) :
  recognizes (dotted a b) (joined [a] (joined (["."] ++ [""]) [b])).
Proof.
  unfold dotted. apply recognizes_Seq; [apply recognizes_str|].
  apply recognizes_Seq; [|apply recognizes_str].
  apply recognizes_Opt. apply (recognizes_str ".").
Qed.

Lemma recognizes_strs (kws : list string) :
  kws ≠ [] → recognizes (alt (str <$> kws)) kws.
Proof.
  induction kws as [|kw kws IH]; intros Hne; [done|].
  destruct kws as [|kw' kws]; [apply recognizes_str|].
  change (alt (str <$> kw :: kw' :: kws))
    with (Alt (str kw) (alt (str <$> kw' :: kws))).
  change (kw :: kw' :: kws) with ([kw] ++ kw' :: kws).
  apply recognizes_Alt; [apply recognizes_str|by apply IH].
Qed.

Lemma test_from_spec r : ∀ s prev,
  test_from r prev s = true
  ↔ ∃ pre post, s = pre ++ post ∧ is_Some (match_at r (before prev pre) post).
Proof.
  induction s as [|c s IH]; intros prev; simpl.
  - destruct (match_at r prev []) as [x|] eqn:E.
    + split; [|done]. intros _. exists [], []. by rewrite before_nil, E.
    + split; [done|]. intros (pre & post & Hs & [x Hx]).
      symmetry in Hs. apply app_eq_nil in Hs as [-> ->].
      rewrite before_nil in Hx. congruence.
  - destruct (match_at r prev (c :: s)) as [x|] eqn:E.
    + split; [|done]. intros _. exists [], (c :: s). by rewrite before_nil, E.
    + rewrite IH. split.
      * intros (pre & post & -> & Hm). exists (c :: pre), post.
        by rewrite before_cons.
      * intros (pre & post & Hs & [x Hx]). destruct pre as [|c' pre].
        -- simpl in Hs. subst post. rewrite before_nil in Hx. congruence.
        -- injection Hs as <- ->. exists pre, post. split; [done|].
           rewrite before_cons in Hx. by exists x.
Qed.

(** [\b(...)\b] at one position. *)
Lemma match_word r (kws : list string) prev s :
  recognizes r kws →
  is_Some (match_at (word r) prev s)
  ↔ ∃ kw s', kw ∈ kws
             ∧ s = list_ascii_of_string kw ++ s'
             ∧ boundary prev (head s)
             ∧ boundary (before prev (list_ascii_of_string kw)) (head s').
Proof.
  intros Hr. unfold match_at, word. simpl.
  destruct (xorb (is_word_at prev) (is_word_at (head s))) eqn:Eb.
  - apply xorb_boundary in Eb. split.
    + intros (kw & s' & Hin & -> & Hk)%Hr. exists kw, s'.
      split; [done|]. split; [done|]. split; [done|].
      destruct (xorb _ _) eqn:Ex in Hk; [by apply xorb_boundary|by destruct Hk].
    + intros (kw & s' & Hin & -> & _ & Hk). apply Hr. exists kw, s'.
      split; [done|]. split; [done|].
      apply xorb_boundary in Hk. by rewrite Hk.
  - split; [by intros [? ?]|].
    intros (kw & s' & _ & _ & Hb%xorb_boundary & _). congruence.
Qed.

Lemma test_word r (kws : list string) (text : string) :
  recognizes r kws → Forall (fun kw => kw ≠ "") kws →
  test (word r) text = true
  ↔ ∃ kw, kw ∈ kws ∧ whole_word kw (list_ascii_of_string text).
Proof.
  intros Hr Hne. unfold test. rewrite test_from_spec.
  rewrite Forall_forall in Hne. split.
  - intros (pre & post & Htext & (kw & s' & Hin & -> & Hb1 & Hb2)%(match_word _ kws)); [|done].
    exists kw. split; [done|]. exists pre, s'. rewrite before_None in *.
    split; [done|]. split; [done|].
    assert (list_ascii_of_string kw ≠ []) as Hw.
    { pose proof (Hne kw Hin). by destruct kw. }
    rewrite last_app. rewrite before_last in Hb2 by done.
    destruct (last (list_ascii_of_string kw)) eqn:El; [done|].
    by apply last_None in El.
  - intros (kw & Hin & pre & post & Htext & Hb1 & Hb2).
    exists pre, (list_ascii_of_string kw ++ post). split; [done|].
    apply (match_word _ kws); [done|]. exists kw, post. rewrite before_None.
    split; [done|]. split; [done|]. split; [done|].
    assert (list_ascii_of_string kw ≠ []) as Hw.
    { pose proof (Hne kw Hin). by destruct kw. }
    rewrite before_last by done. rewrite last_app in Hb2.
    destruct (last (list_ascii_of_string kw)) eqn:El; [done|].
    by apply last_None in El.
Qed.

Lemma agree_word (tag : string) r (kws : list string) :
  recognizes r kws → Forall (fun kw => kw ≠ "") kws →
  agree (tag, [word r]) (tag, kws).
Proof.
  intros Hr Hne. split; [done|]. intros s. simpl. rewrite orb_false_r.
  by apply test_word.
Qed.

Lemma agree_words (tag : string) (kws : list string) :
  kws ≠ [] → Forall (fun kw => kw ≠ "") kws →
  agree (tag, [words kws]) (tag, kws).
Proof. intros Hne Hall. apply agree_word; [by apply recognizes_strs|done]. Qed.

Lemma detect_mentions (table : patterns) (vocab : vocabulary) :
  Forall2 agree table vocab →
  ∀ (s tag : string), tag ∈ detect table s ↔ mentions vocab (list_ascii_of_string s) tag.
Proof.
  intros Hall s tag. unfold detect, mentions.
  induction Hall as [|e v table vocab [Htag He] _ IH]; simpl.
  - rewrite elem_of_nil. split; [done|]. by intros (? & ? & ?%elem_of_nil & _).
  - destruct (existsb _ (snd e)) eqn:E; csimpl.
    + rewrite elem_of_cons, IH. split.
      * intros [->|(kws & kw & Hin & Hkw)].
        -- apply He in E as (kw & Hkw & Hw). exists (snd v), kw.
           split; [|done]. rewrite Htag. destruct v. apply list_elem_of_here.
        -- exists kws, kw. split; [by apply list_elem_of_further|done].
      * intros (kws & kw & [Hv|Hin]%elem_of_cons & Hkw).
        -- left. rewrite Htag. by rewrite <- Hv.
        -- right. by exists kws, kw.
    + rewrite IH. split.
      * intros (kws & kw & Hin & Hkw). exists kws, kw.
        split; [by apply list_elem_of_further|done].
      * intros (kws & kw & [Hv|Hin]%elem_of_cons & Hkw & Hw).
        -- assert (existsb (fun pattern => test pattern s) (snd e) = true) as E'.
           { apply He. exists kw. by rewrite <- Hv. }
           congruence.
        -- by exists kws, kw.
Qed.

Lemma detect_sublist (table : patterns) (s : string) :
  sublist (detect table s) (fst <$> table).
Proof. unfold detect. apply fmap_sublist, filter_sublist. Qed.

Ltac agree_tables :=
  repeat (apply List.Forall2_cons;
          [apply agree_words; [done|repeat constructor; done]|]);
  try apply List.Forall2_nil.

Lemma toolPatterns_agree : Forall2 agree toolPatterns toolKeywords.
Proof. unfold toolPatterns, toolKeywords. agree_tables. Qed.

Lemma databasePatterns_agree : Forall2 agree databasePatterns databaseKeywords.
Proof. unfold databasePatterns, databaseKeywords. agree_tables. Qed.

Lemma languagePatterns_agree : Forall2 agree languagePatterns languageKeywords.
Proof.
  unfold languagePatterns, languageKeywords.
  apply List.Forall2_cons; [|agree_tables].
  apply agree_word; [|repeat constructor; done].
  exact (recognizes_Alt _ _ _ _ (recognizes_str "javascript")
           (recognizes_Alt _ _ _ _ (recognizes_str "js")
              (recognizes_Alt _ _ _ _ (recognizes_dotted "node" "js")
                 (recognizes_Alt _ _ _ _ (recognizes_str "npm")
                    (recognizes_str "yarn"))))).
Qed.

Lemma frameworkPatterns_agree : Forall2 agree frameworkPatterns frameworkKeywords.
Proof.
  unfold frameworkPatterns, frameworkKeywords.
  apply List.Forall2_cons; [|agree_tables].
  apply agree_word; [|repeat constructor; done].
  exact (recognizes_Alt _ _ _ _ (recognizes_str "react")
           (recognizes_Alt _ _ _ _ (recognizes_str "jsx")
              (recognizes_dotted "next" "js"))).
Qed.

(** X5. The tags of an analysis are the tags of which the prompt, put in
  lower case, holds a keyword as a whole word (a word boundary before it and
  after it); they come in the order of the tables, each at most once. *)
Theorem analyzePrompt_mentions (prompt : string) :
  let a := analyzePrompt prompt in
  let text := list_ascii_of_string (Js.toLowerCase prompt) in
  (∀ tag, tag ∈ languages a ↔ mentions languageKeywords text tag)
  ∧ (∀ tag, tag ∈ frameworks a ↔ mentions frameworkKeywords text tag)
  ∧ (∀ tag, tag ∈ databases a ↔ mentions databaseKeywords text tag)
  ∧ (∀ tag, tag ∈ tools a ↔ mentions toolKeywords text tag)
  ∧ sublist (languages a) (fst <$> languageKeywords)
  ∧ sublist (frameworks a) (fst <$> frameworkKeywords)
  ∧ sublist (databases a) (fst <$> databaseKeywords)
  ∧ sublist (tools a) (fst <$> toolKeywords).
Proof.
  simpl. repeat split.
  - apply (detect_mentions _ _ languagePatterns_agree).
  - apply (detect_mentions _ _ languagePatterns_agree).
  - apply (detect_mentions _ _ frameworkPatterns_agree).
  - apply (detect_mentions _ _ frameworkPatterns_agree).
  - apply (detect_mentions _ _ databasePatterns_agree).
  - apply (detect_mentions _ _ databasePatterns_agree).
  - apply (detect_mentions _ _ toolPatterns_agree).
  - apply (detect_mentions _ _ toolPatterns_agree).
  - apply (detect_sublist languagePatterns).
  - apply (detect_sublist frameworkPatterns).
  - apply (detect_sublist databasePatterns).
  - apply (detect_sublist toolPatterns).
Qed.

(** The keywords of one tag of a table whose tags are distinct. *)
Lemma mentions_tag (table : vocabulary) (text : subject) (tag : string)
    (kws : list string) :
  NoDup (fst <$> table) → (tag, kws) ∈ table →
  mentions table text tag ↔ ∃ kw, kw ∈ kws ∧ whole_word kw text.
Proof.
  intros Hnd Hin. split.
  - intros (kws' & kw & Hin' & Hkw & Hw). exists kw. split; [|done].
    replace kws with kws'; [done|].
    clear Hkw Hw. induction table as [|[t k] table IH]; [by apply elem_of_nil in Hin|].
    csimpl in Hnd. apply NoDup_cons in Hnd as [Hnotin Hnd].
    apply elem_of_cons in Hin as [[= <- <-]|Hin];
      apply elem_of_cons in Hin' as [[= <-]|Hin']; try done.
    + destruct Hnotin. apply list_elem_of_fmap. by exists (tag, kws').
    + destruct Hnotin. apply list_elem_of_fmap. by exists (tag, kws).
    + by apply IH.
  - intros (kw & Hkw & Hw). by exists kws, kw.
Qed.

Ltac distinct_tags := refine (bool_decide_unpack _ _); vm_compute; exact I.

Ltac in_table :=
  repeat (first [apply list_elem_of_here | apply list_elem_of_further]).

Lemma language_mentioned (prompt tag : string) (kws : list string) :
  (tag, kws) ∈ languageKeywords →
  tag ∈ languages (analyzePrompt prompt)
  ↔ ∃ kw, kw ∈ kws ∧ whole_word kw (list_ascii_of_string (Js.toLowerCase prompt)).
Proof.
  intros Hin. simpl. rewrite (detect_mentions _ _ languagePatterns_agree).
  apply mentions_tag; [distinct_tags|done].
Qed.

Lemma framework_mentioned (prompt tag : string) (kws : list string) :
  (tag, kws) ∈ frameworkKeywords →
  tag ∈ frameworks (analyzePrompt prompt)
  ↔ ∃ kw, kw ∈ kws ∧ whole_word kw (list_ascii_of_string (Js.toLowerCase prompt)).
Proof.
  intros Hin. simpl. rewrite (detect_mentions _ _ frameworkPatterns_agree).
  apply mentions_tag; [distinct_tags|done].
Qed.

Lemma extension_recommended (prompt ext : string) :
  ext ∈ extensions (analyzePrompt prompt)
  ↔ ext ∈ recommended (languages (analyzePrompt prompt))
            (frameworks (analyzePrompt prompt)).
Proof.
  simpl. by destruct (new_Set_spec String.eqb String.eqb_eq
                        (recommended (detect languagePatterns (Js.toLowerCase prompt))
                           (detect frameworkPatterns (Js.toLowerCase prompt)))) as [_ ->].
Qed.

(** X6. The keywords of the frameworks django and flask are keywords of the
  language python: a prompt in which one of these frameworks is detected has
  the language python detected, and the Python extensions recommended. *)
Theorem django_flask_python (prompt : string) :
  let a := analyzePrompt prompt in
  "django" ∈ frameworks a ∨ "flask" ∈ frameworks a →
  "python" ∈ languages a
  ∧ "ms-python.python" ∈ extensions a ∧ "ms-python.pylint" ∈ extensions a.
Proof.
  intros a H.
  assert ("python" ∈ languages a) as Hpy.
  { apply (language_mentioned prompt "python"
             ["python"; "py"; "django"; "flask"; "fastapi"; "pip"]); [in_table|].
    destruct H as [H|H].
    - apply (framework_mentioned prompt "django" ["django"]) in H; [|in_table].
      destruct H as (kw & ->%list_elem_of_singleton & Hw).
      exists "django". split; [in_table|done].
    - apply (framework_mentioned prompt "flask" ["flask"]) in H; [|in_table].
      destruct H as (kw & ->%list_elem_of_singleton & Hw).
      exists "flask". split; [in_table|done]. }
  split; [done|].
  apply includes_spec in Hpy.
  split; apply extension_recommended; unfold recommended; fold a; rewrite Hpy;
    rewrite !elem_of_app; right; left; in_table.
Qed.

Lemma django_flask_python_witness :
  let a := analyzePrompt "A Flask API" in
  "python" ∈ languages a
  ∧ "ms-python.python" ∈ extensions a ∧ "ms-python.pylint" ∈ extensions a.
Proof.
  apply (django_flask_python "A Flask API"). right.
  vm_compute. apply list_elem_of_here.
Defined.

(** The frameworks fastapi and spring have keywords that python and java have
  not. *)
Example framework_without_language :
  let a := analyzePrompt "springboot service and a fast api" in
  frameworks a = ["fastapi"; "spring"] ∧ languages a = [].
Proof. vm_compute. done. Qed.

(** A keyword that ends in a character that is no word character is a whole
  word only right before a word character; one that starts with such a
  character, only right after a word character. *)
Lemma whole_word_symbol_end (kw : string) (text : subject) :
  is_word_at (last (list_ascii_of_string kw)) = false →
  list_ascii_of_string kw ≠ [] →
  whole_word kw text →
  ∃ pre c post, text = pre ++ list_ascii_of_string kw ++ c :: post ∧ Js.is_word c = true.
Proof.
  intros Hlast Hne (pre & post & -> & _ & Hb). unfold boundary in Hb.
  rewrite last_app in Hb.
  destruct (last (list_ascii_of_string kw)) as [c|] eqn:El; [|by apply last_None in El].
  rewrite Hlast in Hb. destruct post as [|c' post]; [done|].
  exists pre, c', post. split; [done|]. simpl in Hb. by destruct (Js.is_word c').
Qed.

Lemma whole_word_symbol_start (kw : string) (text : subject) :
  is_word_at (head (list_ascii_of_string kw)) = false →
  list_ascii_of_string kw ≠ [] →
  whole_word kw text →
  ∃ pre c post, text = pre ++ c :: list_ascii_of_string kw ++ post ∧ Js.is_word c = true.
Proof.
  intros Hhead Hne (pre & post & -> & Hb & _). unfold boundary in Hb.
  destruct (list_ascii_of_string kw) as [|c0 w] eqn:Ew; [done|]. simpl in *.
  rewrite Hhead in Hb.
  destruct pre as [|c pre _] using rev_ind; [done|].
  rewrite last_snoc in Hb. exists pre, c, post. rewrite <- app_assoc.
  split; [done|]. simpl in Hb. by destruct (Js.is_word c).
Qed.

(** X7. The keywords [c#] and [c++] end, and [.net] starts, with a character
  that is no word character: the first two are found only where a letter, a
  digit or an underscore follows at once, the third only where one stands
  right before. So the language cpp is detected only from the words [cpp] and
  [cmake] or from [c++] with a word character after it, and csharp only from
  the words [csharp] and [dotnet], from [c#] with a word character after it,
  or from [.net] with one before it. *)
Theorem symbol_keywords (prompt : string) :
  let a := analyzePrompt prompt in
  let text := list_ascii_of_string (Js.toLowerCase prompt) in
  ("cpp" ∈ languages a →
   whole_word "cpp" text ∨ whole_word "cmake" text
   ∨ ∃ pre c post, text = pre ++ list_ascii_of_string "c++" ++ c :: post
                   ∧ Js.is_word c = true)
  ∧ ("csharp" ∈ languages a →
     whole_word "csharp" text ∨ whole_word "dotnet" text
     ∨ (∃ pre c post, text = pre ++ list_ascii_of_string "c#" ++ c :: post
                      ∧ Js.is_word c = true)
     ∨ (∃ pre c post, text = pre ++ c :: list_ascii_of_string ".net" ++ post
                      ∧ Js.is_word c = true)).
Proof.
  intros a text. split.
  - intros H. apply (language_mentioned prompt "cpp" ["c++"; "cpp"; "cmake"]) in H;
      [|in_table].
    destruct H as (kw & Hkw & Hw).
    repeat (apply elem_of_cons in Hkw as [->|Hkw]); [| | |by apply elem_of_nil in Hkw].
    + right. right. by apply (whole_word_symbol_end "c++").
    + by left.
    + right. by left.
  - intros H.
    apply (language_mentioned prompt "csharp" ["c#"; "csharp"; ".net"; "dotnet"]) in H;
      [|in_table].
    destruct H as (kw & Hkw & Hw).
    repeat (apply elem_of_cons in Hkw as [->|Hkw]); [| | | |by apply elem_of_nil in Hkw].
    + right. right. left. by apply (whole_word_symbol_end "c#").
    + by left.
    + right. right. right. by apply (whole_word_symbol_start ".net").
    + right. by left.
Qed.

Lemma symbol_keywords_witness :
  let text := list_ascii_of_string "c++11 and asp.net" in
  (whole_word "cpp" text ∨ whole_word "cmake" text
   ∨ ∃ pre c post, text = pre ++ list_ascii_of_string "c++" ++ c :: post
                   ∧ Js.is_word c = true)
  ∧ (whole_word "csharp" text ∨ whole_word "dotnet" text
     ∨ (∃ pre c post, text = pre ++ list_ascii_of_string "c#" ++ c :: post
                      ∧ Js.is_word c = true)
     ∨ (∃ pre c post, text = pre ++ c :: list_ascii_of_string ".net" ++ post
                      ∧ Js.is_word c = true)).
Proof.
  destruct (symbol_keywords "C++11 and ASP.NET") as [Hcpp Hcs].
  split; [apply Hcpp|apply Hcs]; vm_compute; in_table.
Defined.

(** Standing alone, the three keywords are not found. *)
Example symbol_keywords_alone :
  languages (analyzePrompt "A C# and C++ project for .NET") = [].
Proof. vm_compute. reflexivity. Qed.

End Detection.

(** ** Letter case *)

Section LetterCase.

Import RegExp ScanSpec DetectSpec ConfigGenerator.

Implicit Types (prev : option ascii) (s rest : subject) (k : cont) (r : regex).

Ltac by_units c :=
  destruct c as [[] [] [] [] [] [] [] []]; vm_compute; intros; repeat split; congruence.

Lemma lower_char_idem c : Js.lower_char (Js.lower_char c) = Js.lower_char c.
Proof. by_units c. Qed.

Lemma lower_is_word c : Js.is_word (Js.lower_char c) = Js.is_word c.
Proof. by_units c. Qed.

Lemma lower_is_digit c : Js.is_digit (Js.lower_char c) = Js.is_digit c.
Proof. by_units c. Qed.

Lemma lower_is_space c : Js.is_space (Js.lower_char c) = Js.is_space c.
Proof. by_units c. Qed.

Lemma lower_digit c : Js.is_digit c = true → Js.lower_char c = c.
Proof. by_units c. Qed.

Lemma toLowerCase_list (x : string) :
  list_ascii_of_string (Js.toLowerCase x) = Js.lower_char <$> list_ascii_of_string x.
Proof. induction x as [|c x IH]; csimpl; [done|]. by rewrite IH. Qed.

Lemma toLowerCase_string (l : subject) :
  string_of_list_ascii (Js.lower_char <$> l) = Js.toLowerCase (string_of_list_ascii l).
Proof. induction l as [|c l IH]; csimpl; [done|]. by rewrite IH. Qed.

Lemma toLowerCase_idem (x : string) : Js.toLowerCase (Js.toLowerCase x) = Js.toLowerCase x.
Proof. induction x as [|c x IH]; simpl; [done|]. by rewrite lower_char_idem, IH. Qed.

Lemma is_word_at_lower prev : is_word_at (Js.lower_char <$> prev) = is_word_at prev.
Proof. destruct prev; simpl; [apply lower_is_word|done]. Qed.

Lemma head_lower s : head (Js.lower_char <$> s) = Js.lower_char <$> head s.
Proof. by destruct s. Qed.

Lemma rep_lower (p : ascii → bool) k k' :
  (∀ c, p (Js.lower_char c) = p c) → lowered k k' →
  ∀ s min max prev,
    rep p min max (Js.lower_char <$> prev) (Js.lower_char <$> s) k'
    = fmap (M := list) Js.lower_char <$> rep p min max prev s k.
Proof.
  intros Hp Hk. induction s as [|c s IH]; intros min max prev; csimpl.
  - destruct min; [apply (Hk prev [])|done].
  - rewrite Hp.
    assert ((match min with O => k' (Js.lower_char <$> prev) (Js.lower_char c :: (Js.lower_char <$> s)) | S _ => None end)
            = fmap (M := list) Js.lower_char <$> (match min with O => k prev (c :: s) | S _ => None end)) as Hstop.
    { destruct min; [apply (Hk prev (c :: s))|done]. }
    destruct (p c && match max with Some O => false | _ => true end); [|exact Hstop].
    rewrite (IH (Nat.pred min) (Nat.pred <$> max) (Some c)).
    destruct (rep p (Nat.pred min) (Nat.pred <$> max) (Some c) s k); [done|exact Hstop].
Qed.

Lemma exec_lower r :
  caseless r → ∀ prev s k k', lowered k k' →
    exec r (Js.lower_char <$> prev) (Js.lower_char <$> s) k'
    = fmap (M := list) Js.lower_char <$> exec r prev s k.
Proof.
  induction 1 as [p Hp| |r1 r2 _ IH1 _ IH2|r1 r2 _ IH1 _ IH2|r _ IH|p min max Hp|];
    intros prev s k k' Hk; simpl.
  - destruct s as [|c s]; csimpl; [done|]. rewrite Hp.
    destruct (p c); [apply (Hk (Some c) s)|done].
  - apply Hk.
  - apply IH1. intros prev' s'. by apply IH2.
  - rewrite (IH1 prev s k k' Hk). destruct (exec r1 prev s k); [done|by apply IH2].
  - rewrite (IH prev s k k' Hk). destruct (exec r prev s k); [done|apply Hk].
  - by apply rep_lower.
  - rewrite is_word_at_lower, head_lower, is_word_at_lower.
    destruct (xorb _ _); [apply Hk|done].
Qed.

Lemma match_at_lower r prev s :
  caseless r →
  match_at r (Js.lower_char <$> prev) (Js.lower_char <$> s)
  = fmap (M := list) Js.lower_char <$> match_at r prev s.
Proof. intros Hr. unfold match_at. by apply exec_lower. Qed.

Lemma test_lower r (x : string) : caseless r → test r (Js.toLowerCase x) = test r x.
Proof.
  intros Hr. unfold test. rewrite toLowerCase_list.
  change None with (Js.lower_char <$> @None ascii) at 1.
  generalize (@None ascii). induction (list_ascii_of_string x) as [|c s IH]; intros prev.
  - pose proof (match_at_lower r prev [] Hr) as E. csimpl in *. rewrite E.
    by destruct (match_at r prev []).
  - pose proof (match_at_lower r prev (c :: s) Hr) as E. csimpl in *. rewrite E.
    destruct (match_at r prev (c :: s)); [done|]. apply (IH (Some c)).
Qed.

Lemma match_all_lower r : caseless r → ∀ s prev (skip : nat),
  match_all_from r (Js.lower_char <$> prev) (Js.lower_char <$> s) skip
  = fmap (M := list) Js.lower_char <$> match_all_from r prev s skip.
Proof.
  intros Hr. induction s as [|c s IH]; intros prev skip.
  - destruct skip; [|done]. pose proof (match_at_lower r prev [] Hr) as E.
    csimpl in *. rewrite E. by destruct (match_at r prev []) as [rest|].
  - destruct skip as [|n]; [|apply (IH (Some c) n)].
    pose proof (match_at_lower r prev (c :: s) Hr) as E.
    csimpl in *. rewrite E.
    destruct (match_at r prev (c :: s)) as [rest|]; csimpl; [|apply (IH (Some c) 0%nat)].
    rewrite !length_fmap.
    change (Js.lower_char c :: (Js.lower_char <$> s)) with (Js.lower_char <$> c :: s).
    rewrite <- fmap_take, !length_fmap. f_equal. apply (IH (Some c)).
Qed.

Lemma match_all_lower_string r (x : string) :
  caseless r → match_all r (Js.toLowerCase x) = Js.toLowerCase <$> match_all r x.
Proof.
  intros Hr. unfold match_all. rewrite toLowerCase_list.
  rewrite (match_all_lower r Hr _ None 0). rewrite <- !list_fmap_compose.
  apply list_fmap_ext. intros _ m _. apply toLowerCase_string.
Qed.

Lemma remove_nondigits_lower (m : string) :
  Js.remove_nondigits (Js.toLowerCase m) = Js.remove_nondigits m.
Proof.
  induction m as [|c m IH]; simpl; [done|]. rewrite lower_is_digit.
  destruct (Js.is_digit c) eqn:E; [|done]. by rewrite (lower_digit c E), IH.
Qed.

Lemma digits_value_lower (m : string) : ∀ acc,
  Js.digits_value acc (Js.toLowerCase m) = Js.digits_value acc m.
Proof.
  induction m as [|c m IH]; intros acc; simpl; [done|]. rewrite lower_is_digit.
  destruct (Js.is_digit c) eqn:E; [|done]. by rewrite (lower_digit c E), IH.
Qed.

Lemma skip_spaces_lower (m : string) :
  Js.skip_spaces (Js.toLowerCase m) = Js.toLowerCase (Js.skip_spaces m).
Proof.
  induction m as [|c m IH]; simpl; [done|]. rewrite lower_is_space.
  by destruct (Js.is_space c).
Qed.

Lemma parseInt_sign (m : string) :
  Js.parseInt m
  = match Js.skip_spaces m with
    | String c t =>
        if Ascii.eqb c "-" then Z.opp <$> leading_digits t
        else if Ascii.eqb c "+" then leading_digits t
        else leading_digits (String c t)
    | EmptyString => None
    end.
Proof.
  unfold Js.parseInt. destruct (Js.skip_spaces m) as [|c t]; [done|].
  destruct c as [[] [] [] [] [] [] [] []]; reflexivity.
Qed.

Lemma lower_eqb_sign c :
  Ascii.eqb (Js.lower_char c) "-" = Ascii.eqb c "-"
  ∧ Ascii.eqb (Js.lower_char c) "+" = Ascii.eqb c "+".
Proof. by_units c. Qed.

Lemma leading_digits_lower (t : string) :
  leading_digits (Js.toLowerCase t) = leading_digits t.
Proof.
  destruct t as [|c t]; simpl; [done|]. rewrite lower_is_digit.
  destruct (Js.is_digit c) eqn:E; [|done].
  by rewrite (lower_digit c E), digits_value_lower.
Qed.

Lemma parseInt_lower (m : string) : Js.parseInt (Js.toLowerCase m) = Js.parseInt m.
Proof.
  rewrite !parseInt_sign, skip_spaces_lower.
  destruct (Js.skip_spaces m) as [|c t]; [done|].
  change (Js.toLowerCase (String c t)) with (String (Js.lower_char c) (Js.toLowerCase t)).
  destruct (lower_eqb_sign c) as [-> ->].
  rewrite (leading_digits_lower t).
  change (String (Js.lower_char c) (Js.toLowerCase t)) with (Js.toLowerCase (String c t)).
  by rewrite (leading_digits_lower (String c t)).
Qed.

Lemma caseless_str_i (w : string) : caseless (str_i w).
Proof.
  assert (∀ c, caseless (chr_i c)) as Hc.
  { intros c. constructor. intros x. by rewrite lower_char_idem. }
  induction w as [|c w IH]; [constructor|].
  destruct w as [|c' w]; [apply Hc|].
  change (str_i (String c (String c' w))) with (Seq (chr_i c) (str_i (String c' w))).
  by constructor.
Qed.

Lemma caseless_portPattern : caseless portPattern.
Proof.
  unfold portPattern.
  apply caseless_Seq; [constructor|].
  apply caseless_Seq; [apply (caseless_str_i "port")|].
  apply caseless_Seq; [constructor; apply lower_is_space|].
  apply caseless_Seq; [constructor; apply lower_is_digit|constructor].
Qed.

Lemma caseless_standalonePortPattern : caseless standalonePortPattern.
Proof.
  unfold standalonePortPattern, word.
  apply caseless_Seq; [constructor|].
  apply caseless_Seq; [constructor; apply lower_is_digit|constructor].
Qed.

Lemma omap_lower (f : string → option Z) (l : list string) :
  (∀ m, f (Js.toLowerCase m) = f m) → omap f (Js.toLowerCase <$> l) = omap f l.
Proof. intros Hf. induction l as [|m l IH]; csimpl; [done|]. by rewrite Hf, IH. Qed.

Lemma allPorts_lower (prompt : string) : allPorts (Js.toLowerCase prompt) = allPorts prompt.
Proof.
  unfold allPorts, explicitPorts, standalonePorts, numbers.
  rewrite !match_all_lower_string
    by auto using caseless_portPattern, caseless_standalonePortPattern.
  rewrite (omap_lower Js.parseInt) by apply parseInt_lower.
  rewrite (omap_lower (fun m => Js.parseInt (Js.remove_nondigits m))); [done|].
  intros m. by rewrite remove_nondigits_lower.
Qed.

Lemma detect_os_lower (prompt : string) : detect_os (Js.toLowerCase prompt) = detect_os prompt.
Proof.
  unfold detect_os. rewrite !test_lower; [done| |].
  - unfold word. apply caseless_Seq; [constructor|].
    apply caseless_Seq; [apply (caseless_str_i "debian")|constructor].
  - unfold word. apply caseless_Seq; [constructor|].
    apply caseless_Seq; [|constructor].
    apply caseless_Alt; [apply (caseless_str_i "alpine")|apply (caseless_str_i "alpine linux")].
Qed.

Lemma analyzePrompt_lower (prompt : string) :
  same_request (analyzePrompt (Js.toLowerCase prompt)) (analyzePrompt prompt).
Proof.
  unfold same_request, analyzePrompt. simpl.
  by rewrite toLowerCase_idem, allPorts_lower, detect_os_lower.
Qed.

(** Two prompts that are equal once put in lower case have the same
  analysis but for the prompt kept. *)
Lemma analyzePrompt_same_lower (p q : string) :
  Js.toLowerCase p = Js.toLowerCase q →
  same_request (analyzePrompt p) (analyzePrompt q).
Proof.
  intros E.
  destruct (analyzePrompt_lower p) as (P1 & P2 & P3 & P4 & P5 & P6 & P7).
  destruct (analyzePrompt_lower q) as (Q1 & Q2 & Q3 & Q4 & Q5 & Q6 & Q7).
  rewrite E in *. unfold same_request.
  rewrite <- P1, <- P2, <- P3, <- P4, <- P5, <- P6, <- P7.
  by rewrite Q1, Q2, Q3, Q4, Q5, Q6, Q7.
Qed.

Lemma lower_fold_char c :
  Js.lower_char (if Js.in_range 65 90 c then Js.lower_char c else c) = Js.lower_char c.
Proof. by_units c. Qed.

Lemma toLowerCase_fold (p : string) :
  Js.toLowerCase (fold_ascii_case p) = Js.toLowerCase p.
Proof. induction p as [|c p IH]; simpl; [done|]. by rewrite lower_fold_char, IH. Qed.

(** X8. The analysis does not depend on the case of the letters [A] to [Z]:
  two prompts that differ only in the case of such letters have the same
  languages, frameworks, tools, databases, operating system, ports and
  extensions. The tags are looked for in the prompt in lower case, and the
  patterns of the ports and of the operating system, which run on the prompt
  as written, ignore the case. *)
Theorem analyzePrompt_case_insensitive (p q : string) :
  fold_ascii_case p = fold_ascii_case q →
  same_request (analyzePrompt p) (analyzePrompt q).
Proof.
  intros E. apply analyzePrompt_same_lower.
  by rewrite <- (toLowerCase_fold p), <- (toLowerCase_fold q), E.
Qed.

Lemma analyzePrompt_case_insensitive_witness :
  same_request (analyzePrompt "FLASK on Alpine, PORT 8080 and Redis")
    (analyzePrompt "flask on alpine, port 8080 and redis").
Proof. apply analyzePrompt_case_insensitive. vm_compute. reflexivity. Defined.

End LetterCase.

(** ** Repeating a request *)

Section SetAgain.

Context {A : Type} (eqb : A → A → bool).

Lemma set_add_all_app (l1 l2 set : list A) :
  Js.set_add_all eqb set (l1 ++ l2)
  = Js.set_add_all eqb (Js.set_add_all eqb set l1) l2.
Proof. revert set. induction l1 as [|x l1 IH]; intros set; simpl; [done|apply IH]. Qed.

Lemma set_add_all_extends (l set : list A) :
  ∃ ext, Js.set_add_all eqb set l = set ++ ext.
Proof.
  revert set. induction l as [|x l IH]; intros set; simpl.
  - exists []. by rewrite app_nil_r.
  - destruct (existsb (eqb x) set); [apply IH|].
    destruct (IH (set ++ [x])) as [ext ->]. exists ([x] ++ ext). by rewrite app_assoc.
Qed.

Lemma existsb_grows (y : A) (l set : list A) :
  existsb (eqb y) set = true → existsb (eqb y) (Js.set_add_all eqb set l) = true.
Proof.
  intros H. destruct (set_add_all_extends l set) as [ext ->].
  rewrite existsb_app, H. done.
Qed.

(** A set made by [new Set] is what [new Set] makes of it. *)
Lemma set_add_all_fix (l set : list A) :
  Js.set_add_all eqb [] set = set →
  Js.set_add_all eqb [] (Js.set_add_all eqb set l) = Js.set_add_all eqb set l.
Proof.
  revert set. induction l as [|x l IH]; intros set Hfix; simpl; [done|].
  apply IH. destruct (existsb (eqb x) set) eqn:E; [done|].
  rewrite set_add_all_app, Hfix. simpl. by rewrite E.
Qed.

Lemma set_add_all_absorbs (l set : list A) :
  (∀ y, y ∈ l → eqb y y = true) →
  ∀ y, y ∈ l → existsb (eqb y) (Js.set_add_all eqb set l) = true.
Proof.
  revert set. induction l as [|x l IH]; intros set Hrefl y Hy; [by apply elem_of_nil in Hy|].
  simpl. apply elem_of_cons in Hy as [->|Hy].
  - apply existsb_grows. destruct (existsb (eqb x) set) eqn:E; [done|].
    rewrite existsb_app. simpl. rewrite Hrefl by apply list_elem_of_here.
    by rewrite orb_true_r.
  - apply IH; [|done]. intros z Hz. apply Hrefl. by apply list_elem_of_further.
Qed.

Lemma set_add_all_skip (l set : list A) :
  (∀ y, y ∈ l → existsb (eqb y) set = true) → Js.set_add_all eqb set l = set.
Proof.
  induction l as [|x l IH]; intros H; simpl; [done|].
  rewrite (H x) by apply list_elem_of_here.
  apply IH. intros y Hy. apply H. by apply list_elem_of_further.
Qed.

(** Adding to a set what was added to it before leaves it as it is. *)
Lemma new_Set_again (existing added : list A) :
  (∀ y, y ∈ added → eqb y y = true) →
  Js.new_Set eqb (Js.new_Set eqb (existing ++ added) ++ added)
  = Js.new_Set eqb (existing ++ added).
Proof.
  intros Hrefl. unfold Js.new_Set.
  rewrite (set_add_all_app (Js.set_add_all eqb [] (existing ++ added))).
  rewrite set_add_all_fix by done.
  apply set_add_all_skip. intros y Hy.
  rewrite set_add_all_app. by apply set_add_all_absorbs.
Qed.

End SetAgain.

Section Again.

Import Obj MergeSpec ConfigGenerator.

Implicit Types (config o : value) (a : PromptAnalysis) (k id : string).

Lemma prop_set_same k (x : value) (props : list (string * value)) :
  prop_get k props = Some x → prop_set k x props = props.
Proof.
  induction props as [|[k' v] props IH]; simpl; [done|].
  destruct (String.eqb_spec k k') as [->|Hne]; [by intros [= ->]|].
  intros H. by rewrite IH.
Qed.

Lemma set_same o k (x : value) : field o k = Some x → set o k x = Ok o.
Proof. destruct o; simpl; try done; intros H; by rewrite prop_set_same. Qed.

Lemma field_assignable o k (x : value) : field o k = Some x → assignable o = true.
Proof. by destruct o. Qed.

Lemma assignable_truthy o : assignable o = true → truthy o = true.
Proof. by destruct o. Qed.

Lemma ensure_same o k (d v : value) :
  field o k = Some v → truthy v = true → ensure o k d = Ok o.
Proof.
  intros Hv Ht. unfold ensure. rewrite get_returns by (by eapply field_assignable).
  simpl. by rewrite Hv; simpl; rewrite Ht.
Qed.

Lemma within_same o k (f : value → result value) (v : value) :
  field o k = Some v → f v = Ok v → within o k f = Ok o.
Proof.
  intros Hv Hf. unfold within. rewrite get_returns by (by eapply field_assignable).
  simpl. rewrite Hv, Hf. simpl. by apply set_same.
Qed.

Lemma spread_array (items : list value) : spread (or_empty (Some (VArray items))) = Ok items.
Proof. done. Qed.

Lemma same_value_zero_refl_num (l : list Z) (y : value) :
  y ∈ VNum <$> l → same_value_zero y y = true.
Proof. intros (n & -> & _)%list_elem_of_fmap. apply Z.eqb_refl. Qed.

Lemma same_value_zero_refl_str (l : list string) (y : value) :
  y ∈ VStr <$> l → same_value_zero y y = true.
Proof. intros (n & -> & _)%list_elem_of_fmap. apply String.eqb_refl. Qed.

(** The ports *)
Lemma settled_ports_again a config : settled_ports a config → merge_ports a config = Ok config.
Proof.
  intros H. unfold merge_ports. case_bool_decide as Hp; [|done].
  destruct (H Hp) as (merged & Hf & Hfix).
  rewrite get_returns by (by eapply field_assignable). simpl.
  rewrite Hf, spread_array. simpl. unfold union. rewrite Hfix. by apply set_same.
Qed.

Lemma merge_ports_settles a config config' :
  merge_ports a config = Ok config' → settled_ports a config'.
Proof.
  intros H Hp. unfold merge_ports in H. rewrite bool_decide_eq_true_2 in H by done.
  inv_bind H. inv_bind H. apply set_field in H. unfold union in H.
  eexists. split; [exact H|].
  apply new_Set_again. apply same_value_zero_refl_num.
Qed.

Lemma settled_ports_changes (K : list string) a config config' :
  changes_only K config config' → Js.includes K "forwardPorts" = false →
  settled_ports a config → settled_ports a config'.
Proof.
  intros Hc HK H Hp. destruct (H Hp) as (merged & Hf & Hfix). exists merged.
  split; [|done]. by rewrite <- (changes_only_field _ _ _ _ Hc HK).
Qed.

(** The extensions *)
Lemma settled_extensions_again a config :
  settled_extensions a config → merge_extensions a config = Ok config.
Proof.
  intros H. unfold merge_extensions. case_bool_decide as He; [|done].
  destruct (H He) as (cu & vs & merged & Hcu & Hvs & Hex & Hfix).
  assert (truthy cu = true) as Tcu
    by (apply assignable_truthy; by eapply field_assignable).
  assert (truthy vs = true) as Tvs
    by (apply assignable_truthy; by eapply field_assignable).
  rewrite (ensure_same config "customizations" VEmpty cu Hcu Tcu). simpl.
  apply (within_same _ _ _ cu); [done|].
  rewrite (ensure_same cu "vscode" VEmpty vs Hvs Tvs). simpl.
  apply (within_same _ _ _ vs); [done|].
  rewrite (ensure_same vs "extensions" (VArray []) (VArray merged) Hex eq_refl). simpl.
  rewrite get_returns by (by eapply field_assignable). simpl.
  rewrite Hex, spread_array. simpl. unfold union. rewrite Hfix. by apply set_same.
Qed.

Lemma merge_extensions_settles a config config' :
  merge_extensions a config = Ok config' → settled_extensions a config'.
Proof.
  intros H He. unfold merge_extensions in H. rewrite bool_decide_eq_true_2 in H by done.
  inv_bind H. apply within_field in H as (cu & cu' & _ & Hcu & Hcu').
  inv_bind Hcu. apply within_field in Hcu as (vs & vs' & _ & Hvs & Hvs').
  do 3 inv_bind Hvs. apply set_field in Hvs. unfold union in Hvs.
  exists cu', vs'. eexists. split; [done|]. split; [done|]. split; [exact Hvs|].
  apply new_Set_again. apply same_value_zero_refl_str.
Qed.

Lemma settled_extensions_changes (K : list string) a config config' :
  changes_only K config config' → Js.includes K "customizations" = false →
  settled_extensions a config → settled_extensions a config'.
Proof.
  intros Hc HK H He. destruct (H He) as (cu & vs & merged & Hcu & Hrest).
  exists cu, vs, merged. split; [|done]. by rewrite <- (changes_only_field _ _ _ _ Hc HK).
Qed.

(** The features *)
Lemma add_feature_same config id (f : value) :
  field config "features" = Some f → field f id = Some VEmpty →
  add_feature config id = Ok config.
Proof.
  intros Hf Hid. unfold add_feature. apply (within_same _ _ _ f); [done|].
  by apply set_same.
Qed.

Lemma add_database_features_same (dbs : list string) config (f : value) :
  field config "features" = Some f →
  (∀ id, id ∈ inserted_databases dbs → field f id = Some VEmpty) →
  add_database_features dbs config = Ok config.
Proof.
  intros Hf. unfold add_database_features, inserted_databases.
  induction dbs as [|db dbs IH]; intros Hall; simpl; [done|]. csimpl in Hall.
  destruct (database_feature db) as [id|] eqn:E; simpl in *.
  - rewrite (add_feature_same config id f Hf) by (apply Hall, list_elem_of_here).
    apply IH. intros id' Hid'. apply Hall. by apply list_elem_of_further.
  - by apply IH.
Qed.

Lemma settled_features_again a config :
  settled_features a config → patch_features a config = Ok config.
Proof.
  intros H. unfold patch_features. case_bool_decide as Hg; [|done].
  destruct (H Hg) as (f & Hf & Tf & Hall).
  rewrite (ensure_same config "features" VEmpty f Hf Tf). simpl.
  rewrite (add_database_features_same _ config f Hf)
    by (intros id Hid; apply Hall, elem_of_app; by left). simpl.
  unfold inserted_tools in Hall.
  destruct (Js.includes (tools a) "docker") eqn:Ed.
  - rewrite (add_feature_same config docker_feature f Hf)
      by (apply Hall; rewrite !elem_of_app; right; left; apply list_elem_of_here).
    simpl. destruct (Js.includes (tools a) "git") eqn:Eg; [|done].
    apply (add_feature_same config git_feature f Hf).
    apply Hall. rewrite !elem_of_app. right. right. apply list_elem_of_here.
  - simpl. destruct (Js.includes (tools a) "git") eqn:Eg; [|done].
    apply (add_feature_same config git_feature f Hf).
    apply Hall. rewrite !elem_of_app. right. right. apply list_elem_of_here.
Qed.

Lemma add_feature_truthy config config' id :
  add_feature config id = Ok config' → truthy_opt (field config' "features") = true.
Proof.
  intros (f' & -> & Hf' & _)%add_feature_entries. by apply assignable_truthy.
Qed.

Lemma add_database_features_truthy (dbs : list string) : ∀ config config',
  add_database_features dbs config = Ok config' →
  truthy_opt (field config "features") = true →
  truthy_opt (field config' "features") = true.
Proof.
  unfold add_database_features.
  induction dbs as [|db dbs IH] using rev_ind; intros config config' H Ht.
  - simpl in H. by injection H as <-.
  - rewrite foldl_app in H. simpl in H. inv_bind H.
    destruct (database_feature db) as [id|].
    + by apply add_feature_truthy in H.
    + injection H as <-. by eapply IH.
Qed.

Lemma patch_features_settles a config config' :
  patch_features a config = Ok config' → settled_features a config'.
Proof.
  intros H Hg. pose proof (patch_features_entries _ _ _ H) as Hentries.
  unfold patch_features in H. rewrite bool_decide_eq_true_2 in H by done.
  inv_bind H. inv_bind H. inv_bind H.
  assert (truthy_opt (field r "features") = true) as T0.
  { apply ensure_field in H_1. rewrite H_1. simpl.
    destruct (field config "features") as [v|]; [|done]. by destruct (truthy v) eqn:E. }
  assert (truthy_opt (field r0 "features") = true) as T1
    by (by eapply add_database_features_truthy).
  assert (truthy_opt (field r1 "features") = true) as T2.
  { destruct (Js.includes (tools a) "docker"); [by apply add_feature_truthy in H_2|].
    by injection H_2 as <-. }
  assert (truthy_opt (field config' "features") = true) as T3.
  { destruct (Js.includes (tools a) "git"); [by apply add_feature_truthy in H|].
    by injection H as <-. }
  destruct (field config' "features") as [f|] eqn:Ef; [|done].
  exists f. split; [done|]. split; [done|]. intros id Hid.
  assert (prop_get id (entries (Some f)) = Some VEmpty) as Hget.
  { rewrite Hentries, prop_get_insert_all. by rewrite bool_decide_eq_true_2. }
  by destruct f.
Qed.

Lemma applyModifications_again config a (modified : value) :
  applyModifications config a = Ok modified →
  is_json modified = true →
  applyModifications modified a = Ok modified.
Proof.
  intros H Hj. unfold applyModifications in H. inv_bind H. inv_bind H.
  pose proof (merge_extensions_changes _ _ _ H_0) as X2.
  pose proof (patch_features_changes _ _ _ H) as X3.
  assert (settled_ports a modified) as Sp.
  { apply (settled_ports_changes _ _ r0 _ X3); [done|].
    apply (settled_ports_changes _ _ r _ X2); [done|].
    by eapply merge_ports_settles. }
  assert (settled_extensions a modified) as Se.
  { apply (settled_extensions_changes _ _ r0 _ X3); [done|].
    by eapply merge_extensions_settles. }
  assert (settled_features a modified) as Sf by (by eapply patch_features_settles).
  unfold applyModifications. rewrite (json_copy_id _ Hj).
  rewrite (settled_ports_again _ _ Sp). simpl.
  rewrite (settled_extensions_again _ _ Se). simpl.
  by apply settled_features_again.
Qed.

(** X13. A request that has been applied changes nothing when it is applied
  again: on the document [applyModifications] has returned, where that is a
  JSON value, the same feature set returns the same document. *)
Theorem applyModifications_idempotent config a (modified : value) :
  applyModifications config a = Ok modified →
  is_json modified = true →
  applyModifications modified a = Ok modified.
Proof. apply applyModifications_again. Qed.

Lemma applyModifications_idempotent_witness :
  ∃ modified,
    applyModifications (VObj Samples.document) Samples.request = Ok modified
    ∧ applyModifications modified Samples.request = Ok modified.
Proof.
  eexists. split; [vm_compute; reflexivity|].
  eapply (applyModifications_idempotent (VObj Samples.document));
    vm_compute; reflexivity.
Defined.

(** The shapes the merges leave. *)
Lemma merge_ports_spreads a config config' :
  merge_ports a config = Ok config' →
  spreads (field config "forwardPorts") = true →
  spreads (field config' "forwardPorts") = true.
Proof.
  intros H Hs. destruct (decide (ports a = [])) as [Hnil|Hp].
  - unfold merge_ports in H. rewrite bool_decide_eq_false_2 in H by (by intros ?).
    by injection H as <-.
  - destruct (merge_ports_settles _ _ _ H Hp) as (merged & -> & _). done.
Qed.

Lemma merge_extensions_shape a config config' :
  merge_extensions a config = Ok config' →
  extensions_shape config = true → extensions_shape config' = true.
Proof.
  intros H Hs. destruct (decide (extensions a = [])) as [Hnil|He].
  - unfold merge_extensions in H. rewrite bool_decide_eq_false_2 in H by (by intros ?).
    by injection H as <-.
  - destruct (merge_extensions_settles _ _ _ H He) as (cu & vs & merged & Hcu & Hvs & Hex & _).
    unfold extensions_shape, vscode_shape. rewrite Hcu.
    rewrite (assignable_truthy cu (field_assignable _ _ _ Hvs)).
    rewrite (field_assignable _ _ _ Hvs), Hvs.
    rewrite (assignable_truthy vs (field_assignable _ _ _ Hex)).
    by rewrite (field_assignable _ _ _ Hex), Hex.
Qed.

Lemma well_shaped_intro config :
  assignable config = true → spreads (field config "forwardPorts") = true →
  extensions_shape config = true → holds_object (field config "features") = true →
  well_shaped config = true.
Proof. intros H1 H2 H3 H4. unfold well_shaped. by rewrite H1, H2, H3, H4. Qed.

Lemma well_shaped_changes (K : list string) config config' :
  changes_only K config config' →
  Js.includes K "forwardPorts" = false → Js.includes K "customizations" = false →
  Js.includes K "features" = false →
  well_shaped config = true → well_shaped config' = true.
Proof.
  intros Hc Kp Ke Kf (H1 & H2 & H3 & H4)%well_shaped_inv. apply well_shaped_intro.
  - by rewrite (changes_only_assignable _ _ _ Hc).
  - by rewrite <- (changes_only_field _ _ _ _ Hc Kp).
  - unfold extensions_shape. by rewrite <- (changes_only_field _ _ _ _ Hc Ke).
  - by rewrite <- (changes_only_field _ _ _ _ Hc Kf).
Qed.

Lemma merge_ports_well_shaped a config config' :
  merge_ports a config = Ok config' → well_shaped config = true → well_shaped config' = true.
Proof.
  intros H (H1 & H2 & H3 & H4)%well_shaped_inv.
  pose proof (merge_ports_changes _ _ _ H) as Hc. apply well_shaped_intro.
  - by rewrite (changes_only_assignable _ _ _ Hc).
  - by eapply merge_ports_spreads.
  - unfold extensions_shape. by rewrite <- (changes_only_field _ "customizations" _ _ Hc).
  - by rewrite <- (changes_only_field _ "features" _ _ Hc).
Qed.

Lemma merge_extensions_well_shaped a config config' :
  merge_extensions a config = Ok config' →
  well_shaped config = true → well_shaped config' = true.
Proof.
  intros H (H1 & H2 & H3 & H4)%well_shaped_inv.
  pose proof (merge_extensions_changes _ _ _ H) as Hc. apply well_shaped_intro.
  - by rewrite (changes_only_assignable _ _ _ Hc).
  - by rewrite <- (changes_only_field _ "forwardPorts" _ _ Hc).
  - by eapply merge_extensions_shape.
  - by rewrite <- (changes_only_field _ "features" _ _ Hc).
Qed.

Lemma features_well_shaped (K : list string) config config' :
  changes_only K config config' →
  Js.includes K "forwardPorts" = false → Js.includes K "customizations" = false →
  holds_object (field config' "features") = true →
  well_shaped config = true → well_shaped config' = true.
Proof.
  intros Hc Kp Ke Hf (H1 & H2 & H3 & H4)%well_shaped_inv. apply well_shaped_intro.
  - by rewrite (changes_only_assignable _ _ _ Hc).
  - by rewrite <- (changes_only_field _ _ _ _ Hc Kp).
  - unfold extensions_shape. by rewrite <- (changes_only_field _ _ _ _ Hc Ke).
  - done.
Qed.

(** What [generateConfig] makes of a template of the catalog is an object
  the merges work on. *)
Lemma generateConfig_well_shaped (t : TemplateManager.DevContainerTemplate) a config :
  t ∈ TemplateManager.templates → generateConfig t a = Ok config →
  well_shaped config = true ∧ ∃ doc, config = VObj doc.
Proof.
  intros Ht0 H. pose proof catalog_well_shaped as Hall.
  rewrite Forall_forall in Hall. pose proof (Hall t Ht0) as Ht.
  apply andb_true_iff in Ht as [Hj Hw].
  unfold generateConfig in H. rewrite (json_copy_id _ Hj) in H.
  do 5 inv_bind H.
  pose proof (merge_ports_well_shaped _ _ _ H_1 Hw) as W1.
  pose proof (merge_extensions_well_shaped _ _ _ H_0 W1) as W2.
  destruct (well_shaped_inv _ W2) as (A2 & _ & _ & F2).
  destruct (add_databases_returns a r0 A2 F2) as (c3 & E3 & A3 & F3).
  rewrite H_2 in E3. injection E3 as <-.
  pose proof (features_well_shaped _ _ _ (add_databases_changes _ _ _ H_2)
                eq_refl eq_refl F3 W2) as W3.
  destruct (add_tool_feature_returns a "docker" docker_feature r1 A3 F3)
    as (c4 & E4 & A4 & F4).
  rewrite H_3 in E4. injection E4 as <-.
  pose proof (features_well_shaped _ _ _ (add_tool_feature_changes _ _ _ _ _ H_3)
                eq_refl eq_refl F4 W3) as W4.
  destruct (add_tool_feature_returns a "git" git_feature r2 A4 F4)
    as (c5 & E5 & A5 & F5).
  rewrite H_4 in E5. injection E5 as <-.
  pose proof (features_well_shaped _ _ _ (add_tool_feature_changes _ _ _ _ _ H_4)
                eq_refl eq_refl F5 W4) as W5.
  pose proof (well_shaped_changes _ _ _ (rename_changes _ _ _ H)
                eq_refl eq_refl eq_refl W5) as W6.
  split; [done|].
  assert (∃ doc0, TemplateManager.config t = VObj doc0) as (doc0 & Ec).
  { clear -Ht0. unfold TemplateManager.templates in Ht0.
    repeat (apply elem_of_cons in Ht0 as [->|Ht0]); try (eexists; reflexivity).
    by apply elem_of_nil in Ht0. }
  rewrite Ec in H_1.
  destruct (changes_only_object _ _ _ (merge_ports_changes _ _ _ H_1)) as (d1 & ->).
  destruct (changes_only_object _ _ _ (merge_extensions_changes _ _ _ H_0)) as (d2 & ->).
  destruct (changes_only_object _ _ _ (add_databases_changes _ _ _ H_2)) as (d3 & ->).
  destruct (changes_only_object _ _ _ (add_tool_feature_changes _ _ _ _ _ H_3)) as (d4 & ->).
  destruct (changes_only_object _ _ _ (add_tool_feature_changes _ _ _ _ _ H_4)) as (d5 & ->).
  destruct (changes_only_object _ _ _ (rename_changes _ _ _ H)) as (d6 & ->).
  by exists d6.
Qed.

(** The ports a document has stay at the start of the merged list. *)
Lemma new_Set_prefix (existing added : list Z) :
  NoDup existing → existing `prefix_of` Js.new_Set Z.eqb (existing ++ added).
Proof.
  intros Hnd. unfold Js.new_Set. rewrite set_add_all_app.
  rewrite (set_add_all_NoDup Z.eqb Z.eqb_eq existing []) by done. simpl.
  destruct (set_add_all_extends Z.eqb added existing) as [ext ->]. by exists ext.
Qed.

End Again.

(** ** What synthesis keeps *)

Section Synthesis.

Import Obj MergeSpec ConfigGenerator.

Lemma merge_ports_prefix a (doc : list (string * value)) (existing : list Z)
    (config' : value) :
  forwarded doc = Some existing → NoDup existing →
  merge_ports a (VObj doc) = Ok config' →
  ∃ doc' merged, config' = VObj doc' ∧ forwarded doc' = Some merged
                 ∧ existing `prefix_of` merged.
Proof.
  intros Hfw Hnd H. destruct (decide (ports a = [])) as [Hnil|Hp].
  - unfold merge_ports in H. rewrite bool_decide_eq_false_2 in H by (by intros ?).
    injection H as <-. by exists doc, existing.
  - rewrite (merge_ports_union _ _ _ Hfw Hp) in H. injection H as <-.
    eexists _, _. split; [done|]. split; [apply forwarded_prop_set|].
    by apply new_Set_prefix.
Qed.



(** X17. The ports a document lists, none of them twice, keep their places:
  after a patch, and after a synthesis from a template with such a list,
  [forwardPorts] starts with that list, and the new ports follow it. *)
Theorem forwardPorts_keep_their_places a :
  (∀ doc existing modified,
     forwarded doc = Some existing → NoDup existing →
     applyModifications (VObj doc) a = Ok modified →
     ∃ doc' merged, modified = VObj doc' ∧ forwarded doc' = Some merged
                    ∧ existing `prefix_of` merged)
  ∧ (∀ t doc existing config,
       TemplateManager.config t = VObj doc →
       forwarded doc = Some existing → NoDup existing →
       generateConfig t a = Ok config →
       ∃ doc' merged, config = VObj doc' ∧ forwarded doc' = Some merged
                      ∧ existing `prefix_of` merged).
Proof.
  split.
  - intros doc existing modified Hfw Hnd H.
    unfold applyModifications in H. simpl json_copy in H.
    apply forwarded_json_copy in Hfw. inv_bind H. inv_bind H.
    destruct (merge_ports_prefix _ _ _ _ Hfw Hnd H_1) as (d1 & merged & -> & Hm & Hpre).
    pose proof (merge_extensions_changes _ _ _ H_0) as C2.
    destruct (changes_only_object _ _ _ C2) as (d2 & ->).
    pose proof (patch_features_changes _ _ _ H) as C3.
    destruct (changes_only_object _ _ _ C3) as (d3 & ->).
    exists d3, merged. split; [done|]. split; [|done].
    by rewrite (forwarded_changes _ _ _ C3), (forwarded_changes _ _ _ C2).
  - intros t doc existing config Et Hfw Hnd H.
    unfold generateConfig in H. rewrite Et in H. simpl json_copy in H.
    apply forwarded_json_copy in Hfw. do 5 inv_bind H.
    destruct (merge_ports_prefix _ _ _ _ Hfw Hnd H_1) as (d1 & merged & -> & Hm & Hpre).
    pose proof (merge_extensions_changes _ _ _ H_0) as C2.
    destruct (changes_only_object _ _ _ C2) as (d2 & ->).
    pose proof (add_databases_changes _ _ _ H_2) as C3.
    destruct (changes_only_object _ _ _ C3) as (d3 & ->).
    pose proof (add_tool_feature_changes _ _ _ _ _ H_3) as C4.
    destruct (changes_only_object _ _ _ C4) as (d4 & ->).
    pose proof (add_tool_feature_changes _ _ _ _ _ H_4) as C5.
    destruct (changes_only_object _ _ _ C5) as (d5 & ->).
    pose proof (rename_changes _ _ _ H) as C6.
    destruct (changes_only_object _ _ _ C6) as (d6 & ->).
    exists d6, merged. split; [done|]. split; [|done].
    rewrite (forwarded_changes _ _ _ C6), (forwarded_changes _ _ _ C5),
      (forwarded_changes _ _ _ C4), (forwarded_changes _ _ _ C3),
      (forwarded_changes _ _ _ C2); done.
Qed.

Lemma forwardPorts_keep_their_places_witness :
  (∃ doc' merged,
     applyModifications (VObj Samples.port_document) Samples.port_request = Ok (VObj doc')
     ∧ forwarded doc' = Some merged ∧ [3000] `prefix_of` merged)
  ∧ (∃ doc' merged,
       generateConfig TemplateManager.python Samples.port_request = Ok (VObj doc')
       ∧ forwarded doc' = Some merged ∧ [8000] `prefix_of` merged).
Proof.
  split.
  - destruct (proj1 (forwardPorts_keep_their_places Samples.port_request)
                Samples.port_document [3000]
                (VObj [("forwardPorts", VArray [VNum 3000; VNum 8080])]))
      as (doc' & merged & E & Hm & Hpre).
    + reflexivity.
    + apply NoDup_singleton.
    + vm_compute. reflexivity.
    + exists doc', merged. split; [|done]. rewrite <- E. vm_compute. reflexivity.
  - destruct (generateConfig_returns TemplateManager.python Samples.port_request)
      as (config & Hc).
    { unfold TemplateManager.templates. apply list_elem_of_further, list_elem_of_here. }
    destruct (proj2 (forwardPorts_keep_their_places Samples.port_request)
                TemplateManager.python _ [8000] config eq_refl)
      as (doc' & merged & E & Hm & Hpre).
    + reflexivity.
    + apply NoDup_singleton.
    + exact Hc.
    + exists doc', merged. split; [rewrite <- E; exact Hc|].
      split; [exact Hm|exact Hpre].
Defined.

End Synthesis.

(** ** What is written is what is returned *)

Section JsonResults.

Import Obj MergeSpec ConfigGenerator.

Implicit Types (props doc : list (string * value)) (a : PromptAnalysis) (k id : string).

Lemma prop_get_json k props (v : value) :
  is_json (VObj props) = true → prop_get k props = Some v → is_json v = true.
Proof.
  simpl. induction props as [|[k' x] props IH]; simpl; [done|].
  intros [Hx Hrest]%andb_true_iff. destruct (String.eqb k k'); [by intros [= <-]|by apply IH].
Qed.

Lemma prop_set_json k (x : value) props :
  is_json (VObj props) = true → is_json x = true →
  is_json (VObj (prop_set k x props)) = true.
Proof.
  simpl. intros Hp Hx. induction props as [|[k' y] props IH]; simpl.
  - by rewrite Hx.
  - simpl in Hp. apply andb_true_iff in Hp as [Hy Hrest].
    destruct (String.eqb k k'); simpl.
    + by rewrite Hx, Hrest.
    + by rewrite Hy, IH.
Qed.

Lemma field_json (o v : value) k : is_json o = true → field o k = Some v → is_json v = true.
Proof.
  destruct o as [ | | | |items expando|props| ]; try done.
  - simpl. intros [_ He]%andb_true_iff. by destruct expando.
  - apply prop_get_json.
Qed.

Lemma set_add_all_in {A} (eqb : A → A → bool) (l set : list A) (x : A) :
  x ∈ Js.set_add_all eqb set l → x ∈ set ∨ x ∈ l.
Proof.
  revert set. induction l as [|y l IH]; intros set; simpl; [by left|].
  intros [Hin|Hin]%IH.
  - destruct (existsb (eqb y) set); [by left|].
    apply elem_of_app in Hin as [?|Hy]; [by left|].
    apply list_elem_of_singleton in Hy as ->. right. apply list_elem_of_here.
  - right. by apply list_elem_of_further.
Qed.

Lemma union_json (existing added : list value) :
  forallb is_json existing = true → forallb is_json added = true →
  is_json (union existing added) = true.
Proof.
  intros He Ha. unfold union. simpl. rewrite andb_true_r.
  apply forallb_forall. intros x Hx%list_elem_of_In.
  apply set_add_all_in in Hx as [Hx%elem_of_nil|Hx]; [done|].
  apply elem_of_app in Hx as [Hx|Hx]; apply list_elem_of_In in Hx.
  - by apply (proj1 (forallb_forall _ _) He).
  - by apply (proj1 (forallb_forall _ _) Ha).
Qed.

Lemma spread_json (x : option value) (items : list value) :
  (∀ v, x = Some v → is_json v = true) →
  spread (or_empty x) = Ok items → forallb is_json items = true.
Proof.
  intros Hx. destruct x as [v|]; simpl; [|by intros [= <-]].
  specialize (Hx v eq_refl).
  destruct (truthy v); [|by intros [= <-]].
  destruct v as [ | | |z|items' expando| | ]; simpl; try done.
  - intros [= <-]. apply forallb_forall. intros y Hy%list_elem_of_In.
    by apply list_elem_of_fmap in Hy as (c & -> & _).
  - intros [= <-]. simpl in Hx. by apply andb_true_iff in Hx as [? _].
Qed.

Lemma numbers_json (l : list Z) : forallb is_json (VNum <$> l) = true.
Proof. by induction l. Qed.

Lemma strings_json (l : list string) : forallb is_json (VStr <$> l) = true.
Proof. by induction l. Qed.

Lemma is_object_inv (v : value) : is_object v = true → ∃ props, v = VObj props.
Proof. destruct v; try done. eauto. Qed.

(** The value under [k] after [if (!o.k) { o.k = d; }]. *)
Lemma ensure_object_json props k (d : value) (o' : value) :
  is_json (VObj props) = true → is_json d = true →
  ensure (VObj props) k d = Ok o' →
  ∃ props' v, o' = VObj props' ∧ is_json o' = true
              ∧ prop_get k props' = Some v ∧ is_json v = true
              ∧ v = match prop_get k props with
                    | Some x => if truthy x then x else d
                    | None => d
                    end.
Proof.
  intros Hj Hd H. pose proof (ensure_field _ _ _ _ H) as Hf.
  unfold ensure in H. simpl in H.
  destruct (truthy_opt (prop_get k props)) eqn:Et.
  - injection H as <-. simpl in Hf. eexists _, _. split; [done|]. split; [done|].
    split; [exact Hf|]. split; [|done].
    destruct (prop_get k props) as [x|] eqn:Ex; [|done]. simpl in Et. rewrite Et.
    by eapply prop_get_json.
  - injection H as <-. simpl in Hf. eexists _, _. split; [done|].
    split; [by apply prop_set_json|]. split; [exact Hf|]. split; [|done].
    destruct (prop_get k props) as [x|] eqn:Ex; [|done]. simpl in Et. by rewrite Et.
Qed.

Lemma standard_inv (config : value) :
  standard config = true →
  is_object config = true ∧ spreads (field config "forwardPorts") = true
  ∧ standard_customizations config = true
  ∧ object_or_unset (field config "features") = true.
Proof. unfold standard. rewrite !andb_true_iff. tauto. Qed.

(** A step that changes the properties [K] only keeps the document standard
  when it leaves those of them standard that the shape is about. *)
Lemma standard_changes (K : list string) (config config' : value) :
  standard config = true → changes_only K config config' → is_object config' = true →
  Js.includes K "forwardPorts" = false ∨ spreads (field config' "forwardPorts") = true →
  Js.includes K "customizations" = false ∨ standard_customizations config' = true →
  Js.includes K "features" = false ∨ object_or_unset (field config' "features") = true →
  standard config' = true.
Proof.
  intros (_ & Hp & Hc & Hf)%standard_inv C Hobj Kp Kc Kf.
  unfold standard. rewrite !andb_true_iff. repeat split; [done| | |].
  - destruct Kp as [Kp|]; [|done]. by rewrite <- (changes_only_field _ _ _ _ C Kp).
  - destruct Kc as [Kc|]; [|done]. unfold standard_customizations in *.
    by rewrite <- (changes_only_field _ _ _ _ C Kc).
  - destruct Kf as [Kf|]; [|done]. by rewrite <- (changes_only_field _ _ _ _ C Kf).
Qed.

Lemma merge_ports_standard a (config config' : value) :
  is_json config = true → standard config = true →
  merge_ports a config = Ok config' →
  is_json config' = true ∧ standard config' = true.
Proof.
  intros Hj Hs H. pose proof (merge_ports_changes _ _ _ H) as C.
  destruct (standard_inv _ Hs) as (Hobj & _).
  apply is_object_inv in Hobj as (doc & ->).
  unfold merge_ports in H. case_bool_decide; [|by injection H as <-].
  simpl in H. inv_bind H. injection H as <-. split.
  - apply prop_set_json; [done|]. apply union_json; [|apply numbers_json].
    apply (spread_json _ _ (fun v Hv => prop_get_json _ _ _ Hj Hv) H_1).
  - apply (standard_changes _ _ _ Hs C); [done| |by left|by left].
    right. simpl. by rewrite prop_get_set_eq.
Qed.

Lemma extensions_standard a props (vscode' : value) :
  is_json (VObj props) = true →
  (vscode ← ensure (VObj props) "extensions" (VArray []);
   current ← get vscode "extensions";
   existingExtensions ← spread (or_empty current);
   set vscode "extensions" (union existingExtensions (VStr <$> extensions a)))
  = Ok vscode' →
  ∃ props', vscode' = VObj props' ∧ is_json vscode' = true
            ∧ spreads (prop_get "extensions" props') = true.
Proof.
  intros Hj H. inv_bind H.
  destruct (ensure_object_json _ _ (VArray []) _ Hj eq_refl H_1)
    as (p1 & v & -> & Hj1 & Hv & Hjv & _).
  simpl in H. rewrite Hv in H. simpl in H. inv_bind H. injection H as <-.
  eexists. split; [done|]. split; [|by rewrite prop_get_set_eq].
  apply prop_set_json; [done|]. apply union_json; [|apply strings_json].
  apply (spread_json (Some v) _); [by intros ? [= <-]|done].
Qed.

Lemma vscode_standard a props (customizations' : value) :
  is_json (VObj props) = true → standard_vscode (VObj props) = true →
  (customizations ← ensure (VObj props) "vscode" VEmpty;
   within customizations "vscode" (fun vscode =>
     vscode ← ensure vscode "extensions" (VArray []);
     current ← get vscode "extensions";
     existingExtensions ← spread (or_empty current);
     set vscode "extensions" (union existingExtensions (VStr <$> extensions a))))
  = Ok customizations' →
  ∃ props', customizations' = VObj props' ∧ is_json customizations' = true
            ∧ standard_vscode customizations' = true.
Proof.
  intros Hj Hs H. inv_bind H.
  destruct (ensure_object_json _ _ VEmpty _ Hj eq_refl H_1)
    as (p1 & v & -> & Hj1 & Hv & Hjv & Ev).
  assert (is_object v = true) as Hobj.
  { rewrite Ev. unfold standard_vscode in Hs. simpl in Hs.
    destruct (prop_get "vscode" props) as [x|]; [|done].
    destruct (truthy x); [|done]. by apply andb_true_iff in Hs as [? _]. }
  apply is_object_inv in Hobj as (pv & ->).
  unfold within in H. simpl in H. rewrite Hv in H. simpl in H. inv_bind H.
  injection H as <-.
  destruct (extensions_standard a pv _ Hjv H_0) as (pv' & -> & Hjv' & Hsp).
  eexists. split; [done|]. split; [by apply prop_set_json|].
  unfold standard_vscode. simpl. rewrite prop_get_set_eq. simpl. exact Hsp.
Qed.

Lemma merge_extensions_standard a (config config' : value) :
  is_json config = true → standard config = true →
  merge_extensions a config = Ok config' →
  is_json config' = true ∧ standard config' = true.
Proof.
  intros Hj Hs H. pose proof (merge_extensions_changes _ _ _ H) as C.
  destruct (standard_inv _ Hs) as (Hobj & _ & Hsc & _).
  apply is_object_inv in Hobj as (doc & ->).
  unfold merge_extensions in H. case_bool_decide; [|by injection H as <-]. inv_bind H.
  destruct (ensure_object_json _ _ VEmpty _ Hj eq_refl H_1)
    as (p1 & c & -> & Hj1 & Hc & Hjc & Ec).
  assert (is_object c = true ∧ standard_vscode c = true) as [Hobj Hsv].
  { rewrite Ec. unfold standard_customizations in Hsc. simpl in Hsc.
    destruct (prop_get "customizations" doc) as [x|]; [|done].
    destruct (truthy x); [|done]. by apply andb_true_iff in Hsc. }
  apply is_object_inv in Hobj as (pc & ->).
  unfold within in H. simpl in H. rewrite Hc in H. simpl in H. inv_bind H.
  injection H as <-.
  destruct (vscode_standard a pc _ Hjc Hsv H_0) as (pc' & -> & Hjc' & Hsv').
  split; [by apply prop_set_json|].
  apply (standard_changes _ _ _ Hs C); [done|by left| |by left].
  right. unfold standard_customizations. simpl. rewrite prop_get_set_eq. simpl.
  exact Hsv'.
Qed.

Lemma ensure_features_json doc (config' : value) :
  is_json (VObj doc) = true → object_or_unset (prop_get "features" doc) = true →
  ensure (VObj doc) "features" VEmpty = Ok config' → with_features config'.
Proof.
  intros Hj Hs H.
  destruct (ensure_object_json _ _ VEmpty _ Hj eq_refl H)
    as (p1 & f & -> & Hj1 & Hf & Hjf & Ef).
  assert (is_object f = true) as Hobj.
  { rewrite Ef. destruct (prop_get "features" doc) as [x|]; [|done]. simpl in Hs.
    destruct (truthy x); [|done]. by rewrite orb_false_r in Hs. }
  apply is_object_inv in Hobj as (pf & ->). by exists p1, pf.
Qed.

Lemma add_feature_json (config config' : value) id :
  with_features config → add_feature config id = Ok config' → with_features config'.
Proof.
  intros (doc & f & -> & Hj & Hf) H. unfold add_feature, within in H. simpl in H.
  rewrite Hf in H. simpl in H. injection H as <-.
  assert (is_json (VObj (prop_set id VEmpty f)) = true) as Hjf.
  { apply prop_set_json; [by eapply prop_get_json|done]. }
  eexists _, _. split; [done|]. split; [by apply prop_set_json|].
  apply prop_get_set_eq.
Qed.

Lemma add_database_features_json (dbs : list string) : ∀ (config config' : value),
  with_features config → add_database_features dbs config = Ok config' →
  with_features config'.
Proof.
  unfold add_database_features.
  induction dbs as [|db dbs IH] using rev_ind; intros config config' Hw H.
  - simpl in H. by injection H as <-.
  - rewrite foldl_app in H. simpl in H. inv_bind H.
    pose proof (IH _ _ Hw H_1) as Hw'.
    destruct (database_feature db) as [id|]; [by eapply add_feature_json|].
    by injection H as <-.
Qed.

(** A step on [features] that leaves an object there keeps the document
  standard. *)
Lemma with_features_standard (config config' : value) :
  standard config = true → changes_only ["features"] config config' →
  with_features config' → is_json config' = true ∧ standard config' = true.
Proof.
  intros Hs C (doc & f & -> & Hj & Hf). split; [done|].
  apply (standard_changes _ _ _ Hs C); [done|by left|by left|].
  right. simpl. by rewrite Hf.
Qed.

Lemma patch_features_standard a (config config' : value) :
  is_json config = true → standard config = true →
  patch_features a config = Ok config' →
  is_json config' = true ∧ standard config' = true.
Proof.
  intros Hj Hs H. pose proof (patch_features_changes _ _ _ H) as C.
  destruct (standard_inv _ Hs) as (Hobj & _ & _ & Hf).
  apply is_object_inv in Hobj as (doc & ->).
  unfold patch_features in H. case_bool_decide; [|by injection H as <-].
  inv_bind H. inv_bind H. inv_bind H.
  pose proof (ensure_features_json _ _ Hj Hf H_1) as W1.
  pose proof (add_database_features_json _ _ _ W1 H_0) as W2.
  assert (with_features r1) as W3.
  { destruct (Js.includes (tools a) "docker"); [by eapply add_feature_json|].
    by injection H_2 as <-. }
  apply (with_features_standard _ _ Hs C).
  destruct (Js.includes (tools a) "git"); [by eapply add_feature_json|].
  by injection H as <-.
Qed.

Lemma add_databases_standard a (config config' : value) :
  is_json config = true → standard config = true →
  add_databases a config = Ok config' →
  is_json config' = true ∧ standard config' = true.
Proof.
  intros Hj Hs H. pose proof (add_databases_changes _ _ _ H) as C.
  destruct (standard_inv _ Hs) as (Hobj & _ & _ & Hf).
  apply is_object_inv in Hobj as (doc & ->).
  unfold add_databases in H. case_bool_decide; [|by injection H as <-]. inv_bind H.
  pose proof (ensure_features_json _ _ Hj Hf H_1) as W1.
  apply (with_features_standard _ _ Hs C).
  by eapply add_database_features_json.
Qed.

Lemma add_tool_feature_standard a (tool : string) id (config config' : value) :
  is_json config = true → standard config = true →
  add_tool_feature a tool id config = Ok config' →
  is_json config' = true ∧ standard config' = true.
Proof.
  intros Hj Hs H. pose proof (add_tool_feature_changes _ _ _ _ _ H) as C.
  destruct (standard_inv _ Hs) as (Hobj & _ & _ & Hf).
  apply is_object_inv in Hobj as (doc & ->).
  unfold add_tool_feature in H.
  destruct (Js.includes (tools a) tool); [|by injection H as <-]. inv_bind H.
  pose proof (ensure_features_json _ _ Hj Hf H_1) as W1.
  apply (with_features_standard _ _ Hs C).
  by eapply add_feature_json.
Qed.

Lemma rename_standard a (config config' : value) :
  is_json config = true → standard config = true →
  rename a config = Ok config' →
  is_json config' = true ∧ standard config' = true.
Proof.
  intros Hj Hs H. pose proof (rename_changes _ _ _ H) as C.
  destruct (standard_inv _ Hs) as (Hobj & _).
  apply is_object_inv in Hobj as (doc & ->).
  unfold rename in H. case_bool_decide; [|by injection H as <-].
  simpl in H. injection H as <-. split; [by apply prop_set_json|].
  apply (standard_changes _ _ _ Hs C); [done|by left|by left|by left].
Qed.

(** What [applyModifications] makes of a standard JSON document is one
  again. *)
Lemma applyModifications_standard a (config modified : value) :
  is_json config = true → standard config = true →
  applyModifications config a = Ok modified →
  is_json modified = true ∧ standard modified = true.
Proof.
  intros Hj Hs H. unfold applyModifications in H. rewrite (json_copy_id _ Hj) in H.
  inv_bind H. inv_bind H.
  destruct (merge_ports_standard _ _ _ Hj Hs H_1) as [Hj1 Hs1].
  destruct (merge_extensions_standard _ _ _ Hj1 Hs1 H_0) as [Hj2 Hs2].
  by apply (patch_features_standard a r0).
Qed.

Lemma standard_well_shaped (config : value) :
  standard config = true → well_shaped config = true.
Proof.
  intros (Hobj & Hp & Hc & Hf)%standard_inv.
  assert (∀ v, is_object v = true → assignable v = true) as Ha by (by intros []).
  unfold well_shaped. rewrite !andb_true_iff. repeat split; [by apply Ha|done| |].
  - unfold standard_customizations, extensions_shape in *.
    destruct (field config "customizations") as [c|]; [|done].
    destruct (truthy c); [|done]. apply andb_true_iff in Hc as [Hoc Hv].
    rewrite (Ha _ Hoc). simpl. unfold standard_vscode, vscode_shape in *.
    destruct (field c "vscode") as [v|]; [|done].
    destruct (truthy v); [|done]. apply andb_true_iff in Hv as [Hov Hx].
    by rewrite (Ha _ Hov).
  - destruct (field config "features") as [f|]; [|done]. simpl in *.
    apply orb_true_iff in Hf as [Hf|Hf]; [by rewrite (Ha _ Hf)|].
    rewrite Hf. apply orb_true_r.
Qed.

(** The JSON copy makes no falsy value truthy, and leaves objects objects. *)
Lemma truthy_json_copy (v : value) : truthy (json_copy v) = true → truthy v = true.
Proof. by destruct v as [ | | | | | |[]]. Qed.

Lemma is_object_json_copy (v : value) : is_object (json_copy v) = is_object v.
Proof. by destruct v as [ | | | | | |[]]. Qed.

Lemma spreads_json_copy (x : option value) :
  spreads x = true → spreads (json_copy <$> x) = true.
Proof.
  destruct x as [v|]; [|done]. unfold spreads. simpl.
  destruct (truthy (json_copy v)) eqn:Et; [|done].
  rewrite (truthy_json_copy _ Et).
  by destruct v as [ | | | | | |[]].
Qed.

Lemma object_or_unset_json_copy (x : option value) :
  object_or_unset x = true → object_or_unset (json_copy <$> x) = true.
Proof.
  destruct x as [v|]; [|done]. simpl. rewrite is_object_json_copy.
  intros [->|Hf]%orb_true_iff; [done|].
  destruct (truthy (json_copy v)) eqn:Et; [|apply orb_true_r].
  by rewrite (truthy_json_copy _ Et) in Hf.
Qed.

Lemma standard_vscode_json_copy (c : value) :
  standard_vscode c = true → standard_vscode (json_copy c) = true.
Proof.
  unfold standard_vscode. destruct c as [ | | | |items expando|doc|[]]; try done.
  simpl. rewrite prop_get_json_copy.
  destruct (prop_get "vscode" doc) as [v|]; [|done]. simpl.
  destruct (truthy (json_copy v)) eqn:Et; [|done].
  rewrite (truthy_json_copy _ Et), is_object_json_copy.
  intros [Ho Hs]%andb_true_iff. rewrite Ho. simpl.
  destruct v as [ | | | | |props| ]; try done.
  simpl. rewrite prop_get_json_copy. by apply spreads_json_copy.
Qed.

(** The JSON copy of a standard document is standard. *)
Lemma standard_json_copy (config : value) :
  standard config = true → standard (json_copy config) = true.
Proof.
  intros (Hobj & Hp & Hc & Hf)%standard_inv.
  apply is_object_inv in Hobj as (doc & ->).
  unfold standard. rewrite !andb_true_iff. repeat split.
  - simpl. rewrite prop_get_json_copy. by apply spreads_json_copy.
  - unfold standard_customizations in *. simpl in *. rewrite prop_get_json_copy.
    destruct (prop_get "customizations" doc) as [c|]; [|done]. simpl.
    destruct (truthy (json_copy c)) eqn:Et; [|done].
    rewrite (truthy_json_copy _ Et), is_object_json_copy in *.
    apply andb_true_iff in Hc as [Ho Hv]. rewrite Ho. simpl.
    by apply standard_vscode_json_copy.
  - simpl. rewrite prop_get_json_copy. by apply object_or_unset_json_copy.
Qed.

(** The patch of a document is the patch of its JSON copy. *)
Lemma applyModifications_json_copy a (config : value) :
  applyModifications (json_copy config) a = applyModifications config a.
Proof.
  unfold applyModifications. by rewrite (json_copy_id _ (json_copy_is_json config)).
Qed.

Lemma catalog_standard :
  Forall (fun t => standard (TemplateManager.config t) = true) TemplateManager.templates.
Proof. unfold TemplateManager.templates. repeat constructor. Qed.

(** What [generateConfig] makes of a template of the catalog is a standard
  JSON document. *)
Lemma generateConfig_standard (t : TemplateManager.DevContainerTemplate) a
    (config : value) :
  t ∈ TemplateManager.templates → generateConfig t a = Ok config →
  is_json config = true ∧ standard config = true.
Proof.
  intros Ht H.
  pose proof catalog_well_shaped as Hall. rewrite Forall_forall in Hall.
  pose proof (Hall t Ht) as [Hj _]%andb_true_iff.
  pose proof catalog_standard as Hstd. rewrite Forall_forall in Hstd.
  pose proof (Hstd t Ht) as Hs.
  unfold generateConfig in H. rewrite (json_copy_id _ Hj) in H.
  do 5 inv_bind H.
  destruct (merge_ports_standard _ _ _ Hj Hs H_1) as [Hj1 Hs1].
  destruct (merge_extensions_standard _ _ _ Hj1 Hs1 H_0) as [Hj2 Hs2].
  destruct (add_databases_standard _ _ _ Hj2 Hs2 H_2) as [Hj3 Hs3].
  destruct (add_tool_feature_standard _ _ _ _ _ Hj3 Hs3 H_3) as [Hj4 Hs4].
  destruct (add_tool_feature_standard _ _ _ _ _ Hj4 Hs4 H_4) as [Hj5 Hs5].
  by apply (rename_standard a r3).
Qed.

End JsonResults.

(** ** The extensions of a document *)

Section Extensions.

Import Obj MergeSpec ConfigGenerator.

Lemma strings_Some (items : list value) (l : list string) :
  strings items = Some l ↔ items = VStr <$> l.
Proof.
  unfold strings. rewrite mapM_Some. split.
  - intros H. induction H as [|x n items l Hx _ IH]; csimpl; [done|].
    destruct x; try done. injection Hx as ->. by rewrite IH.
  - intros ->. induction l; csimpl; by constructor.
Qed.

Lemma same_value_zero_str (x y : string) :
  same_value_zero (VStr x) (VStr y) = String.eqb x y.
Proof. done. Qed.

Lemma field_of_object (o v : value) (k : string) :
  is_json o = true → field o k = Some v → ∃ props, o = VObj props.
Proof.
  destruct o as [ | | | |items expando|props| ]; try done; [|by eauto].
  simpl. intros [_ He]%andb_true_iff. by destruct expando.
Qed.

Lemma merged_extensions_spec (existing : list string) a :
  (∀ x, x ∈ merged_extensions existing a ↔ x ∈ existing ∨ x ∈ extensions a)
  ∧ (NoDup existing →
     NoDup (merged_extensions existing a)
     ∧ existing `prefix_of` merged_extensions existing a).
Proof.
  unfold merged_extensions. case_bool_decide as He.
  - destruct (new_Set_spec String.eqb String.eqb_eq (existing ++ extensions a))
      as [Hnd Hin].
    split; [intros x; by rewrite Hin, elem_of_app|].
    intros Hex. split; [done|]. unfold Js.new_Set. rewrite set_add_all_app.
    rewrite (set_add_all_NoDup String.eqb String.eqb_eq existing []) by done. simpl.
    destruct (set_add_all_extends String.eqb (extensions a) existing) as [ext ->].
    by exists ext.
  - assert (extensions a = []) as -> by (by destruct (extensions a); [|destruct He]).
    split; [intros x; rewrite elem_of_nil; tauto|]. by intros Hnd.
Qed.

(** The merge of the extensions, on a document that lists some. *)
Lemma merge_extensions_union a (doc : list (string * value)) (c : value)
    (existing : list string) (config' : value) :
  prop_get "customizations" doc = Some c → is_json c = true →
  vscode_extensions c = Some existing →
  merge_extensions a (VObj doc) = Ok config' →
  listed_extensions config' = Some (merged_extensions existing a).
Proof.
  intros Hc Hj He H. unfold merged_extensions, merge_extensions in *.
  case_bool_decide.
  2:{ injection H as <-. unfold listed_extensions. simpl. by rewrite Hc. }
  unfold vscode_extensions in He.
  destruct (field c "vscode") as [v|] eqn:Ev; [|done].
  destruct (field v "extensions") as [e|] eqn:Ee; [|done].
  destruct e as [ | | | |items ex| | ]; try done.
  apply strings_Some in He as ->.
  destruct (field_of_object _ _ _ Hj Ev) as (pc & ->).
  pose proof (field_json _ _ _ Hj Ev) as Hjv.
  destruct (field_of_object _ _ _ Hjv Ee) as (pv & ->).
  simpl in Ev, Ee.
  unfold ensure, within in H. simpl in H. rewrite Hc in H. simpl in H.
  rewrite Hc in H. simpl in H. rewrite Ev in H. simpl in H.
  rewrite Ev in H. simpl in H. rewrite Ee in H. simpl in H.
  rewrite Ee in H. simpl in H. injection H as <-.
  unfold listed_extensions, vscode_extensions. simpl.
  rewrite prop_get_set_eq. simpl. rewrite prop_get_set_eq. simpl.
  rewrite prop_get_set_eq. unfold union, VArray. rewrite <- fmap_app.
  rewrite (new_Set_fmap String.eqb same_value_zero VStr same_value_zero_str).
  by apply strings_Some.
Qed.

Lemma listed_changes (K : list string) (config config' : value) :
  changes_only K config config' → Js.includes K "customizations" = false →
  listed_extensions config' = listed_extensions config.
Proof.
  intros C HK. unfold listed_extensions.
  by rewrite (changes_only_field K "customizations" _ _ C HK).
Qed.

(** X20. The extensions a document lists stay: after a patch, and after a
  synthesis from a template that lists some, [customizations.vscode.extensions]
  holds exactly the listed and the recommended extensions; with extensions
  to add none is there twice, and where the document listed none twice, its
  list is the start of the new one. *)
Theorem extensions_merged a :
  (∀ doc existing modified,
     is_json (VObj doc) = true → listed_extensions (VObj doc) = Some existing →
     applyModifications (VObj doc) a = Ok modified →
     listed_extensions modified = Some (merged_extensions existing a))
  ∧ (∀ t existing config,
       is_json (TemplateManager.config t) = true →
       listed_extensions (TemplateManager.config t) = Some existing →
       generateConfig t a = Ok config →
       listed_extensions config = Some (merged_extensions existing a))
  ∧ (∀ existing,
       (∀ x, x ∈ merged_extensions existing a ↔ x ∈ existing ∨ x ∈ extensions a)
       ∧ (extensions a ≠ [] → NoDup (merged_extensions existing a))
       ∧ (NoDup existing → existing `prefix_of` merged_extensions existing a)).
Proof.
  assert (∀ config existing r r0,
            is_json config = true → listed_extensions config = Some existing →
            merge_ports a config = Ok r → merge_extensions a r = Ok r0 →
            listed_extensions r0 = Some (merged_extensions existing a)) as Hstart.
  { intros config existing r r0 Hj Hl H1 H2.
    pose proof (merge_ports_changes _ _ _ H1) as C1.
    unfold listed_extensions in Hl.
    destruct (field config "customizations") as [c|] eqn:Ec; [|done].
    destruct (field_of_object _ _ _ Hj Ec) as (doc & ->).
    destruct (changes_only_object _ _ _ C1) as (d1 & ->).
    apply (merge_extensions_union a d1 c existing r0); [|by eapply field_json|done|done].
    change (field (VObj d1) "customizations" = Some c).
    by rewrite <- (changes_only_field _ "customizations" _ _ C1). }
  split; [|split].
  - intros doc existing modified Hj Hl H.
    unfold applyModifications in H. rewrite (json_copy_id _ Hj) in H.
    inv_bind H. inv_bind H.
    rewrite (listed_changes _ _ _ (patch_features_changes _ _ _ H)) by done.
    by apply (Hstart (VObj doc) existing r r0).
  - intros t existing config Hj Hl H.
    unfold generateConfig in H. rewrite (json_copy_id _ Hj) in H.
    do 5 inv_bind H.
    rewrite (listed_changes _ _ _ (rename_changes _ _ _ H)) by done.
    rewrite (listed_changes _ _ _ (add_tool_feature_changes _ _ _ _ _ H_4)) by done.
    rewrite (listed_changes _ _ _ (add_tool_feature_changes _ _ _ _ _ H_3)) by done.
    rewrite (listed_changes _ _ _ (add_databases_changes _ _ _ H_2)) by done.
    by apply (Hstart (TemplateManager.config t) existing r r0).
  - intros existing. destruct (merged_extensions_spec existing a) as [Hin Hnd].
    split; [done|]. split; [|by intros H; apply Hnd].
    intros He. unfold merged_extensions. rewrite bool_decide_eq_true_2 by done.
    apply (new_Set_spec String.eqb String.eqb_eq).
Qed.

Lemma extensions_merged_witness :
  (∃ modified,
     applyModifications (VObj Samples.document) Samples.request = Ok modified
     ∧ listed_extensions modified
       = Some (merged_extensions ["ms-python.python"] Samples.request)
     ∧ ["ms-python.python"] `prefix_of`
         merged_extensions ["ms-python.python"] Samples.request)
  ∧ (∃ config,
       generateConfig TemplateManager.go Samples.request = Ok config
       ∧ listed_extensions config
         = Some (merged_extensions ["golang.go"; "ms-vscode.vscode-json"]
                   Samples.request)
       ∧ ∀ x, x ∈ merged_extensions ["golang.go"; "ms-vscode.vscode-json"] Samples.request
              ↔ x ∈ ["golang.go"; "ms-vscode.vscode-json"]
                ∨ x ∈ extensions Samples.request).
Proof.
  destruct (extensions_merged Samples.request) as (Hpatch & Hsynthesis & Hspec).
  split.
  - destruct (applyModifications_returns Samples.document Samples.request)
      as (modified & Hm); [reflexivity|reflexivity|].
    exists modified. split; [exact Hm|]. split.
    + apply (Hpatch Samples.document); [reflexivity|reflexivity|exact Hm].
    + apply Hspec. apply NoDup_singleton.
  - destruct (generateConfig_returns TemplateManager.go Samples.request)
      as (config & Hc).
    { unfold TemplateManager.templates.
      repeat (first [apply list_elem_of_here | apply list_elem_of_further]). }
    exists config. split; [exact Hc|]. split.
    + apply (Hsynthesis TemplateManager.go); [reflexivity|reflexivity|exact Hc].
    + apply Hspec.
Defined.

End Extensions.

(** ** Reports and documents *)

Section Reports.

Import Obj MergeSpec ConfigGenerator.

Lemma nothing_requested analysis :
  generateModificationReasoning analysis
  = "No applicable modifications found in the request."
  ↔ languages analysis = [] ∧ databases analysis = [] ∧ ports analysis = []
    ∧ extensions analysis = [] ∧ tools analysis = [].
Proof.
  unfold generateModificationReasoning.
  match goal with |- context [bool_decide (?c ≠ [])] =>
    match c with _ ++ _ => set (changes := c) end end.
  assert (changes = [] ↔ languages analysis = [] ∧ databases analysis = []
                         ∧ ports analysis = [] ∧ extensions analysis = []
                         ∧ tools analysis = []) as Hchanges.
  { unfold changes. repeat case_bool_decide; simpl;
      (split; [try done|intros (? & ? & ? & ? & ?); try done]). }
  case_bool_decide as Hc.
  - split; [intros E; simpl in E; discriminate E|].
    intros H. by apply Hchanges in H.
  - split; [intros _|done]. by apply Hchanges.
Qed.

(** X9. [generateModificationReasoning] reports that no modification applies
  exactly when the feature set has no language, database, port, extension or
  tool; and then [applyModifications] returns the document as it was read,
  whatever the document is. *)
Theorem no_modification_report analysis :
  (generateModificationReasoning analysis
   = "No applicable modifications found in the request."
   ↔ languages analysis = [] ∧ databases analysis = [] ∧ ports analysis = []
     ∧ extensions analysis = [] ∧ tools analysis = [])
  ∧ (generateModificationReasoning analysis
     = "No applicable modifications found in the request." →
     ∀ config, applyModifications config analysis = Ok (json_copy config)).
Proof.
  split; [apply nothing_requested|].
  intros (_ & Hd & Hp & He & Ht)%nothing_requested config.
  unfold applyModifications, merge_ports, merge_extensions, patch_features.
  rewrite Hd, Hp, He, Ht. reflexivity.
Qed.

Lemma no_modification_report_witness :
  applyModifications (VObj Samples.document) (analyzePrompt "make it faster")
  = Ok (json_copy (VObj Samples.document)).
Proof.
  apply (proj2 (no_modification_report (analyzePrompt "make it faster"))).
  vm_compute. reflexivity.
Defined.

(** A report of added support may come with an unchanged document: the
  language csharp has no extension. *)
Example report_without_change :
  generateModificationReasoning (analyzePrompt "add csharp")
  = "Modified configuration: Added support for: csharp."
  ∧ ∀ config, applyModifications config (analyzePrompt "add csharp") = Ok (json_copy config).
Proof. split; [vm_compute; reflexivity|]. intros config. reflexivity. Qed.

End Reports.

(** ** The two operations on the disk *)

Section Disk.

Import Obj MergeSpec ConfigGenerator DiskSpec.

Variable path_join : list string → string.
Variable ensureDir : string → gmap string file → result unit.
Variable readRefused : string → gmap string file → option exn.
Variable writeOutcome : string → value → gmap string file → write_outcome.

Lemma findBestMatch_in_catalog (langs fws : list string) :
  ∃ t, TemplateManager.findBestMatch langs fws = Some t ∧ t ∈ TemplateManager.templates.
Proof.
  unfold TemplateManager.findBestMatch.
  destruct (decide (Exists (fun t => 0 < TemplateManager.score t langs fws)
                      TemplateManager.templates)) as [Hex|Hno].
  - apply Exists_exists in Hex.
    destruct (findBestMatch_in_positive langs fws _ Hex) as (t & -> & Hbest & _).
    exists t. split; [done|]. destruct Hbest as (l1 & l2 & -> & _).
    apply elem_of_app. right. apply list_elem_of_here.
  - rewrite findBestMatch_in_fallback.
    + rewrite catalog_has_universal. eexists. split; [done|].
      unfold TemplateManager.templates.
      repeat (first [apply list_elem_of_here | apply list_elem_of_further]).
    + intros t Ht. apply Z.nlt_ge. intros Hlt. apply Hno.
      apply Exists_exists. by exists t.
Qed.

(** The template chosen is one of the catalog; the exception for the case
  that none is found is never thrown. *)
Lemma chooseTemplate_spec (analysis : PromptAnalysis) (baseTemplate : option string) :
  match baseTemplate with
  | Some name =>
      if String.eqb name "" then
        ∃ t, chooseTemplate analysis baseTemplate = Ok t
             ∧ TemplateManager.findBestMatch (languages analysis) (frameworks analysis)
               = Some t
             ∧ t ∈ TemplateManager.templates
      else
        match TemplateManager.getTemplate name with
        | Some t => chooseTemplate analysis baseTemplate = Ok t
                    ∧ TemplateManager.name t = name ∧ t ∈ TemplateManager.templates
        | None => chooseTemplate analysis baseTemplate
                  = Throw (Error ("Template '" +:+ name +:+ "' not found"))
        end
  | None =>
      ∃ t, chooseTemplate analysis baseTemplate = Ok t
           ∧ TemplateManager.findBestMatch (languages analysis) (frameworks analysis)
             = Some t
           ∧ t ∈ TemplateManager.templates
  end.
Proof.
  unfold chooseTemplate.
  destruct (findBestMatch_in_catalog (languages analysis) (frameworks analysis))
    as (t & Et & Ht).
  destruct baseTemplate as [name|];
    [|exists t; rewrite Et; split; [reflexivity|split; [reflexivity|exact Ht]]].
  destruct (String.eqb name "");
    [exists t; rewrite Et; split; [reflexivity|split; [reflexivity|exact Ht]]|].
  destruct (TemplateManager.getTemplate name) as [u|] eqn:Eu; [|reflexivity].
  apply find_some in Eu as [Hin Hn]. split; [reflexivity|].
  split; [by apply String.eqb_eq|by apply list_elem_of_In].
Qed.

(** X11. A base template that the catalog does not have makes
  [generateFromPrompt] throw, with the name in the message, before anything
  is written: the files are as they were. *)
Theorem generateFromPrompt_unknown_template (prompt name : string)
    (workspaceRoot : option string) (files : gmap string file) :
  name ≠ "" → TemplateManager.getTemplate name = None →
  generateFromPrompt path_join ensureDir writeOutcome prompt workspaceRoot (Some name) files
  = (Throw (Error ("Template '" +:+ name +:+ "' not found")), files).
Proof.
  intros Hne Hnone. unfold generateFromPrompt.
  pose proof (chooseTemplate_spec (analyzePrompt prompt) (Some name)) as H.
  simpl in H. rewrite (proj2 (String.eqb_neq _ _) Hne), Hnone in H. by rewrite H.
Qed.

(** X12. In every other case [generateFromPrompt] gets as far as the disk:
  a template of the catalog is chosen (the one named, else the best match of
  the detected languages and frameworks) and a configuration is made from it;
  the exception for no suitable template is never thrown, and the synthesis
  throws none. What is then left to fail is the disk's: the making of the
  directory, after whose failure no file is changed, and the write, after
  whose failure the one file is as the disk has left it; if neither fails,
  the call returns the configuration with the name of the template, and the
  one file written holds its JSON text. *)
Theorem generateFromPrompt_reaches_disk (prompt : string)
    (workspaceRoot baseTemplate : option string) (files : gmap string file) :
  (∀ name, baseTemplate = Some name → name ≠ "" →
           is_Some (TemplateManager.getTemplate name)) →
  ∃ t config,
    t ∈ TemplateManager.templates
    ∧ match baseTemplate with
      | Some name =>
          if String.eqb name ""
          then TemplateManager.findBestMatch (languages (analyzePrompt prompt))
                 (frameworks (analyzePrompt prompt)) = Some t
          else TemplateManager.name t = name
      | None =>
          TemplateManager.findBestMatch (languages (analyzePrompt prompt))
            (frameworks (analyzePrompt prompt)) = Some t
      end
    ∧ generateConfig t (analyzePrompt prompt) = Ok config
    ∧ generateFromPrompt path_join ensureDir writeOutcome prompt workspaceRoot
        baseTemplate files
      = generated path_join ensureDir writeOutcome prompt (default "." workspaceRoot)
          t config files.
Proof.
  intros Hknown. unfold generateFromPrompt.
  pose proof (chooseTemplate_spec (analyzePrompt prompt) baseTemplate) as H.
  assert (∃ t, chooseTemplate (analyzePrompt prompt) baseTemplate = Ok t
               ∧ t ∈ TemplateManager.templates
               ∧ match baseTemplate with
                 | Some name =>
                     if String.eqb name ""
                     then TemplateManager.findBestMatch (languages (analyzePrompt prompt))
                            (frameworks (analyzePrompt prompt)) = Some t
                     else TemplateManager.name t = name
                 | None =>
                     TemplateManager.findBestMatch (languages (analyzePrompt prompt))
                       (frameworks (analyzePrompt prompt)) = Some t
                 end) as (t & Et & Ht & Hsel).
  { destruct baseTemplate as [name|]; [|destruct H as (t & ? & ? & ?); by exists t].
    destruct (String.eqb_spec name "") as [->|Hne];
      [destruct H as (t & ? & ? & ?); by exists t|].
    destruct (Hknown name eq_refl Hne) as [t Eg]. rewrite Eg in H.
    destruct H as (? & ? & ?). by exists t. }
  destruct (generateConfig_returns t (analyzePrompt prompt) Ht) as (config & Ec).
  exists t, config. split; [done|]. split; [done|]. split; [done|].
  rewrite Et, Ec. unfold generated, writeJson, left_behind.
  destruct (ensureDir _ files); [|done].
  by destruct (writeOutcome _ config files) as [|e [f|]].
Qed.

Lemma chooseTemplate_in_catalog (analysis : PromptAnalysis) (baseTemplate : option string)
    (t : TemplateManager.DevContainerTemplate) :
  chooseTemplate analysis baseTemplate = Ok t → t ∈ TemplateManager.templates.
Proof.
  intros H. pose proof (chooseTemplate_spec analysis baseTemplate) as Hs.
  destruct baseTemplate as [name|].
  - destruct (String.eqb name "").
    + destruct Hs as (u & Hu & _ & Hin). congruence.
    + destruct (TemplateManager.getTemplate name).
      * destruct Hs as (Hu & _ & Hin). congruence.
      * congruence.
  - destruct Hs as (u & Hu & _ & Hin). congruence.
Qed.

(** What a returned [generateFromPrompt] has done. *)
Lemma generateFromPrompt_returned (prompt : string)
    (workspaceRoot baseTemplate : option string)
    (files files' : gmap string file) (res : GenerationResult) :
  generateFromPrompt path_join ensureDir writeOutcome prompt workspaceRoot baseTemplate
    files = (Ok res, files') →
  ∃ t, t ∈ TemplateManager.templates
       ∧ generateConfig t (analyzePrompt prompt) = Ok (content res)
       ∧ path res = path_join [path_join [default "." workspaceRoot; ".devcontainer"];
                               "devcontainer.json"]
       ∧ files' = <[path res := JsonText (json_copy (content res))]> files.
Proof.
  unfold generateFromPrompt, writeJson.
  destruct (chooseTemplate (analyzePrompt prompt) baseTemplate) as [t|] eqn:Et;
    [|by intros [=]].
  apply chooseTemplate_in_catalog in Et.
  destruct (generateConfig t (analyzePrompt prompt)) as [config|] eqn:Ec; [|by intros [=]].
  destruct (ensureDir _ files); [|by intros [=]].
  destruct (writeOutcome _ config files) as [|e remains]; [|by intros [=]].
  intros [= <- <-]. by exists t.
Qed.

(** What a returned [modifyConfiguration] has done. *)
Lemma modifyConfiguration_returned (workspaceRoot modifications : string)
    (files files' : gmap string file) (res : GenerationResult) :
  let configPath := path_join [workspaceRoot; ".devcontainer"; "devcontainer.json"] in
  modifyConfiguration path_join readRefused writeOutcome workspaceRoot modifications files
  = (Ok res, files') →
  ∃ existing,
    files !! configPath = Some (JsonText existing)
    ∧ applyModifications existing (analyzePrompt modifications) = Ok (content res)
    ∧ res = {| content := content res;
               path := configPath;
               reasoning := generateModificationReasoning (analyzePrompt modifications);
               template := "modified";
               analysis := analyzePrompt modifications |}
    ∧ files' = <[configPath := JsonText (json_copy (content res))]> files.
Proof.
  intros configPath. unfold modifyConfiguration, readJson, writeJson. fold configPath.
  destruct (files !! configPath) as [f|] eqn:Ef; [|by intros [=]].
  destruct (readRefused configPath files); [by intros [=]|].
  destruct f as [existing|]; [|by intros [=]].
  destruct (applyModifications existing (analyzePrompt modifications)) as [m|] eqn:Em;
    [|by intros [=]].
  destruct (writeOutcome configPath m files) as [|e remains]; [|by intros [=]].
  intros [= <- <-]. by exists existing.
Qed.

(** [modifyConfiguration] on a document that is there and of which
  [applyModifications] makes [modified]. *)
Lemma modifyConfiguration_patched (workspaceRoot modifications : string)
    (files : gmap string file) (existing modified : value) :
  files !! path_join [workspaceRoot; ".devcontainer"; "devcontainer.json"]
  = Some (JsonText existing) →
  applyModifications existing (analyzePrompt modifications) = Ok modified →
  modifyConfiguration path_join readRefused writeOutcome workspaceRoot modifications files
  = patched path_join readRefused writeOutcome workspaceRoot modifications modified files.
Proof.
  intros Hfile Em. unfold modifyConfiguration, patched, readJson, writeJson, left_behind.
  rewrite Hfile.
  destruct (readRefused _ files); [done|]. rewrite Em.
  by destruct (writeOutcome _ modified files) as [|e [f|]].
Qed.

Lemma patched_returned (workspaceRoot modifications : string) (modified : value)
    (files files' : gmap string file) (res : GenerationResult) :
  let configPath := path_join [workspaceRoot; ".devcontainer"; "devcontainer.json"] in
  patched path_join readRefused writeOutcome workspaceRoot modifications modified files
  = (Ok res, files') →
  res = {| content := modified;
           path := configPath;
           reasoning := generateModificationReasoning (analyzePrompt modifications);
           template := "modified";
           analysis := analyzePrompt modifications |}
  ∧ files' = <[configPath := JsonText (json_copy modified)]> files.
Proof.
  intros configPath. unfold patched. fold configPath.
  destruct (readRefused configPath files); [by intros [=]|].
  destruct (writeOutcome configPath modified files) as [|e remains]; [|by intros [=]].
  by intros [= <- <-].
Qed.

(** X14. A request made twice: when [modifyConfiguration] has returned a
  content that is a JSON value, the same call on the files it has left finds
  the document and has nothing to change in it: nothing is left to go wrong
  but the read and the write on the disk, and if the call returns, it
  returns the same result and leaves the files as they are. *)
Theorem modifyConfiguration_twice (workspaceRoot modifications : string)
    (files files' : gmap string file) (res : GenerationResult) :
  modifyConfiguration path_join readRefused writeOutcome workspaceRoot modifications files
  = (Ok res, files') →
  is_json (content res) = true →
  modifyConfiguration path_join readRefused writeOutcome workspaceRoot modifications files'
  = patched path_join readRefused writeOutcome workspaceRoot modifications (content res)
      files'
  ∧ ∀ res2 files2,
      modifyConfiguration path_join readRefused writeOutcome workspaceRoot modifications
        files' = (Ok res2, files2) →
      res2 = res ∧ files2 = files'.
Proof.
  intros Hrun Hj.
  destruct (modifyConfiguration_returned _ _ _ _ _ Hrun) as (existing & Hf & Em & Er & ->).
  rewrite (json_copy_id _ Hj).
  assert (modifyConfiguration path_join readRefused writeOutcome workspaceRoot
            modifications
            (<[path_join [workspaceRoot; ".devcontainer"; "devcontainer.json"]
               := JsonText (content res)]> files)
          = patched path_join readRefused writeOutcome workspaceRoot modifications
              (content res)
              (<[path_join [workspaceRoot; ".devcontainer"; "devcontainer.json"]
                 := JsonText (content res)]> files)) as Hsecond.
  { apply (modifyConfiguration_patched _ _ _ (content res)).
    - apply lookup_insert_eq.
    - by apply (applyModifications_again _ _ _ Em). }
  split; [exact Hsecond|].
  intros res2 files2 H2. rewrite Hsecond in H2.
  apply patched_returned in H2 as [-> ->]. split; [by rewrite Er at 2|].
  by rewrite (json_copy_id _ Hj), insert_insert_eq.
Qed.

(** X15. After [generateFromPrompt] has returned, [modifyConfiguration] on
  the same workspace finds the document and [applyModifications] makes a
  JSON value of the generated configuration, whatever the request: the call
  throws no exception of the engine, neither that of a missing document nor
  the parser's nor a [TypeError]; what is left to go wrong is the read and
  the write on the disk. *)
Theorem generate_then_modify (prompt modifications : string)
    (workspaceRoot baseTemplate : option string)
    (files files1 : gmap string file) (res : GenerationResult) :
  joins_in_steps path_join →
  generateFromPrompt path_join ensureDir writeOutcome prompt workspaceRoot baseTemplate
    files = (Ok res, files1) →
  ∃ modified,
    applyModifications (content res) (analyzePrompt modifications) = Ok modified
    ∧ is_json modified = true
    ∧ path res = path_join [default "." workspaceRoot; ".devcontainer"; "devcontainer.json"]
    ∧ modifyConfiguration path_join readRefused writeOutcome (default "." workspaceRoot)
        modifications files1
      = patched path_join readRefused writeOutcome (default "." workspaceRoot)
          modifications modified files1.
Proof.
  intros Hjoin Hrun.
  destruct (generateFromPrompt_returned _ _ _ _ _ _ Hrun) as (t & Ht & Ec & Hp & ->).
  destruct (generateConfig_standard t _ _ Ht Ec) as [Hj Hs].
  destruct (is_object_inv (content res)) as (doc & Ed);
    [by destruct (standard_inv _ Hs) as (? & _)|].
  destruct (applyModifications_returns doc (analyzePrompt modifications))
    as (m & Em); [by rewrite <- Ed|by rewrite <- Ed; apply standard_well_shaped|].
  rewrite <- Ed in Em.
  destruct (applyModifications_standard _ _ _ Hj Hs Em) as [Hjm _].
  exists m. split; [done|]. split; [done|]. rewrite Hjoin in Hp. split; [done|].
  apply (modifyConfiguration_patched _ _ _ (content res)); [|done].
  rewrite <- Hp, (json_copy_id _ Hj). apply lookup_insert_eq.
Qed.

(** X18. What [generateFromPrompt] returns is what it has written: the
  content is a JSON value, a standard document (itself, and where set its
  [features], [customizations] and [customizations.vscode], objects), and
  the file at the returned path holds exactly this content. *)
Theorem generateFromPrompt_content_on_disk (prompt : string)
    (workspaceRoot baseTemplate : option string)
    (files files' : gmap string file) (res : GenerationResult) :
  generateFromPrompt path_join ensureDir writeOutcome prompt workspaceRoot baseTemplate
    files = (Ok res, files') →
  is_json (content res) = true ∧ standard (content res) = true
  ∧ files' !! path res = Some (JsonText (content res)).
Proof.
  intros Hrun.
  destruct (generateFromPrompt_returned _ _ _ _ _ _ Hrun) as (t & Ht & Ec & Hp & ->).
  destruct (generateConfig_standard t _ _ Ht Ec) as [Hj Hs].
  split; [done|]. split; [done|].
  by rewrite lookup_insert_eq, (json_copy_id _ Hj).
Qed.

(** X19. On a standard document (itself, and where set to a truthy value its
  [features], [customizations] and [customizations.vscode], objects;
  [forwardPorts] and the extensions falsy, arrays or strings)
  [modifyConfiguration] throws no exception of the engine, whatever the
  request: [applyModifications] makes of it a standard JSON document, and
  what is left to go wrong is the read and the write on the disk. When the
  call returns, the content is that document and the one file written holds
  exactly it. *)
Theorem modifyConfiguration_content_on_disk (workspaceRoot modifications : string)
    (files : gmap string file) (existing : value) :
  let configPath := path_join [workspaceRoot; ".devcontainer"; "devcontainer.json"] in
  files !! configPath = Some (JsonText existing) →
  standard existing = true →
  ∃ modified,
    applyModifications existing (analyzePrompt modifications) = Ok modified
    ∧ is_json modified = true ∧ standard modified = true
    ∧ modifyConfiguration path_join readRefused writeOutcome workspaceRoot modifications
        files
      = patched path_join readRefused writeOutcome workspaceRoot modifications modified
          files
    ∧ ∀ res files',
        modifyConfiguration path_join readRefused writeOutcome workspaceRoot
          modifications files = (Ok res, files') →
        content res = modified ∧ path res = configPath
        ∧ files' = <[configPath := JsonText modified]> files.
Proof.
  intros configPath Hfile Hs.
  pose proof (standard_json_copy _ Hs) as Hsc.
  pose proof (json_copy_is_json existing) as Hjc.
  destruct (is_object_inv (json_copy existing)) as (doc & Ed);
    [by destruct (standard_inv _ Hsc) as (? & _)|].
  destruct (applyModifications_returns doc (analyzePrompt modifications))
    as (m & Em); [by rewrite <- Ed|by rewrite <- Ed; apply standard_well_shaped|].
  rewrite <- Ed in Em.
  destruct (applyModifications_standard _ _ _ Hjc Hsc Em) as [Hjm Hsm].
  rewrite applyModifications_json_copy in Em.
  pose proof (modifyConfiguration_patched workspaceRoot modifications files existing m
                Hfile Em) as Hrun.
  exists m. split; [done|]. split; [done|]. split; [done|]. split; [done|].
  intros res files' H. rewrite Hrun in H.
  apply patched_returned in H as [-> ->]. simpl. by rewrite (json_copy_id _ Hjm).
Qed.

End Disk.

Section DiskWitnesses.

Import Obj MergeSpec ConfigGenerator DiskSpec.

Lemma append_assoc (a b c : string) : (a +:+ b) +:+ c = a +:+ (b +:+ c).
Proof.
  induction a as [|x a IH]; [done|].
  change (String x ((a +:+ b) +:+ c) = String x (a +:+ (b +:+ c))). by rewrite IH.
Qed.

Lemma path_join_in_steps : joins_in_steps Samples.path_join.
Proof. intros a b c. unfold Samples.path_join. simpl. by rewrite !append_assoc. Qed.

Lemma generateFromPrompt_unknown_template_witness :
  generateFromPrompt Samples.path_join Samples.roomy Samples.writable
    "Development environment" (Some "/work/app") (Some "non-existent") ∅
  = (Throw (Error "Template 'non-existent' not found"), ∅).
Proof.
  apply (generateFromPrompt_unknown_template Samples.path_join Samples.roomy
           Samples.writable "Development environment" "non-existent");
    [done|reflexivity].
Defined.

Lemma generateFromPrompt_reaches_disk_witness :
  ∃ t config,
    t ∈ TemplateManager.templates
    ∧ TemplateManager.name t = "rust"
    ∧ generateConfig t (analyzePrompt "Development environment") = Ok config
    ∧ generateFromPrompt Samples.path_join Samples.roomy Samples.read_only
        "Development environment" (Some "/work/app") (Some "rust") ∅
      = generated Samples.path_join Samples.roomy Samples.read_only
          "Development environment" "/work/app" t config ∅.
Proof.
  refine (generateFromPrompt_reaches_disk Samples.path_join Samples.roomy
            Samples.read_only "Development environment" (Some "/work/app")
            (Some "rust") ∅ _).
  intros name E _. injection E as <-. exists TemplateManager.rust. reflexivity.
Defined.

(** On a disk that rejects the write, the call throws the disk's exception
  and no file is there. *)
Example generateFromPrompt_read_only :
  generateFromPrompt Samples.path_join Samples.roomy Samples.read_only
    "Development environment" (Some "/work/app") (Some "rust") ∅
  = (Throw (Error "EACCES: permission denied"), ∅).
Proof. vm_compute. reflexivity. Qed.

Lemma modifyConfiguration_twice_witness :
  ∃ res, fst Samples.workspace_changed = Ok res
         ∧ modifyConfiguration Samples.path_join Samples.readable Samples.writable
             "/work/app" "add redis and port 6379" (snd Samples.workspace_changed)
           = patched Samples.path_join Samples.readable Samples.writable
               "/work/app" "add redis and port 6379" (content res)
               (snd Samples.workspace_changed).
Proof.
  eexists. split; [reflexivity|].
  eapply proj1, (modifyConfiguration_twice Samples.path_join Samples.readable
                   Samples.writable "/work/app" "add redis and port 6379"
                   (snd Samples.workspace_made)).
  - vm_compute. reflexivity.
  - vm_compute. reflexivity.
Defined.

(** The second call, evaluated: the same result, the same files. *)
Example modifyConfiguration_twice_same :
  modifyConfiguration Samples.path_join Samples.readable Samples.writable
    "/work/app" "add redis and port 6379" (snd Samples.workspace_changed)
  = Samples.workspace_changed.
Proof. vm_compute. reflexivity. Qed.

Lemma generate_then_modify_witness :
  ∃ res modified,
    fst Samples.workspace_made = Ok res
    ∧ applyModifications (content res) (analyzePrompt "add redis and port 6379")
      = Ok modified
    ∧ modifyConfiguration Samples.path_join Samples.readable Samples.writable
        "/work/app" "add redis and port 6379" (snd Samples.workspace_made)
      = patched Samples.path_join Samples.readable Samples.writable
          "/work/app" "add redis and port 6379" modified (snd Samples.workspace_made).
Proof.
  destruct (generate_then_modify Samples.path_join Samples.roomy Samples.readable
              Samples.writable
              "Python Django web application with PostgreSQL database"
              "add redis and port 6379" (Some "/work/app") None ∅
              (snd Samples.workspace_made)
              (match fst Samples.workspace_made with
               | Ok res => res
               | Throw _ => {| content := VNull; path := ""; reasoning := "";
                               template := ""; analysis := analyzePrompt "" |}
               end))
    as (modified & Hm & _ & _ & Hrun).
  - apply path_join_in_steps.
  - vm_compute. reflexivity.
  - eexists _, modified. split; [reflexivity|]. split; [exact Hm|exact Hrun].
Defined.

Lemma generateFromPrompt_content_on_disk_witness :
  ∃ res,
    fst Samples.workspace_made = Ok res
    ∧ is_json (content res) = true ∧ standard (content res) = true
    ∧ snd Samples.workspace_made !! path res = Some (JsonText (content res)).
Proof.
  eexists. split; [reflexivity|].
  apply (generateFromPrompt_content_on_disk Samples.path_join Samples.roomy
           Samples.writable
           "Python Django web application with PostgreSQL database"
           (Some "/work/app") None ∅).
  vm_compute. reflexivity.
Defined.

Lemma modifyConfiguration_content_on_disk_witness :
  ∃ modified,
    applyModifications (VObj Samples.extreme_numbers)
      (analyzePrompt "add redis and port 6379") = Ok modified
    ∧ is_json modified = true
    ∧ modifyConfiguration Samples.path_join Samples.readable Samples.writable
        "/work/app" "add redis and port 6379"
        {[ "/work/app/.devcontainer/devcontainer.json"
           := JsonText (VObj Samples.extreme_numbers) ]}
      = patched Samples.path_join Samples.readable Samples.writable
          "/work/app" "add redis and port 6379" modified
          {[ "/work/app/.devcontainer/devcontainer.json"
             := JsonText (VObj Samples.extreme_numbers) ]}.
Proof.
  destruct (modifyConfiguration_content_on_disk Samples.path_join Samples.readable
              Samples.writable "/work/app" "add redis and port 6379"
              {[ "/work/app/.devcontainer/devcontainer.json"
                 := JsonText (VObj Samples.extreme_numbers) ]}
              (VObj Samples.extreme_numbers))
    as (modified & Hm & Hj & _ & Hrun & _).
  - vm_compute. reflexivity.
  - vm_compute. reflexivity.
  - exists modified. split; [exact Hm|]. split; [exact Hj|exact Hrun].
Defined.

(** The same document on a disk that rejects the write: the call throws the
  disk's exception and the file is as it was. *)
Example modifyConfiguration_read_only :
  modifyConfiguration Samples.path_join Samples.readable Samples.read_only
    "/work/app" "add redis and port 6379"
    {[ "/work/app/.devcontainer/devcontainer.json"
       := JsonText (VObj Samples.extreme_numbers) ]}
  = (Throw (Error "EACCES: permission denied"),
     {[ "/work/app/.devcontainer/devcontainer.json"
        := JsonText (VObj Samples.extreme_numbers) ]}).
Proof. vm_compute. reflexivity. Qed.

(** A document that is not standard: with an array under [features], the
  feature is set on the array as a named property, which the returned
  content has and the JSON text of the file has not. *)
Example array_features_not_written :
  match modifyConfiguration Samples.path_join Samples.readable Samples.writable
          "/work/app" "add redis"
          {[ "/work/app/.devcontainer/devcontainer.json"
             := JsonText (VObj [("features", VArray [])]) ]} with
  | (Ok res, files') =>
      content res = VObj [("features", VArr [] [(redis_feature, VEmpty)])]
      ∧ files' !! path res = Some (JsonText (VObj [("features", VArray [])]))
  | (Throw _, _) => False
  end.
Proof. vm_compute. by split. Qed.


End DiskWitnesses.

